(** * ripple-lib core: Amount (src/core/amount.js) and Seed (src/core/seed.js)

    A shallow embedding of the Amount and Seed classes, together with the
    pieces of the repository and of its dependencies that they call and that
    are not part of the sources at hand (the Value/IOUValue/XRPValue decimal
    engine, Currency, UInt160, the base-58 codec, SHA-512). *)

From Stdlib Require Import ZArith NArith QArith Qpower Bool List String Ascii Lia.
Import ListNotations.

Local Open Scope Z_scope.
Local Open Scope string_scope.

(* ------------------------------------------------------------------ *)
(** ** Exceptions *)

(** JavaScript exceptions the modelled code can raise. *)
Inductive Exn : Type :=
| AssertionError                 (* assert(...) failed *)
| TypeError (what : string)      (* e.g. calling a method that is undefined *)
| Error (msg : string).          (* throw new Error(msg) *)

Inductive result (A : Type) : Type :=
| Ok (a : A)
| Throw (e : Exn).
Arguments Ok {A} a.
Arguments Throw {A} e.

Definition bind {A B} (r : result A) (k : A -> result B) : result B :=
  match r with
  | Ok a => k a
  | Throw e => Throw e
  end.

Notation "x <- r ;; k" := (bind r (fun x => k))
  (at level 100, r at next level, right associativity).

Definition is_ok {A} (r : result A) : bool :=
  match r with Ok _ => true | Throw _ => false end.

Definition throws {A} (r : result A) : bool := negb (is_ok r).

(* ------------------------------------------------------------------ *)
(** ** Decimal digits and characters *)

Inductive Digit : Type :=
| dg0 | dg1 | dg2 | dg3 | dg4 | dg5 | dg6 | dg7 | dg8 | dg9.

Definition Digit_eqb (a b : Digit) : bool :=
  match a, b with
  | dg0, dg0 | dg1, dg1 | dg2, dg2 | dg3, dg3 | dg4, dg4
  | dg5, dg5 | dg6, dg6 | dg7, dg7 | dg8, dg8 | dg9, dg9 => true
  | _, _ => false
  end.

Definition is_dg0 (d : Digit) : bool := Digit_eqb d dg0.

Definition N_of_digit (d : Digit) : N :=
  match d with
  | dg0 => 0 | dg1 => 1 | dg2 => 2 | dg3 => 3 | dg4 => 4
  | dg5 => 5 | dg6 => 6 | dg7 => 7 | dg8 => 8 | dg9 => 9
  end%N.

Definition digit_of_N (n : N) : Digit :=
  match n with
  | 0 => dg0 | 1 => dg1 | 2 => dg2 | 3 => dg3 | 4 => dg4
  | 5 => dg5 | 6 => dg6 | 7 => dg7 | 8 => dg8 | _ => dg9
  end%N.

Definition ascii_of_digit (d : Digit) : ascii :=
  match d with
  | dg0 => "0" | dg1 => "1" | dg2 => "2" | dg3 => "3" | dg4 => "4"
  | dg5 => "5" | dg6 => "6" | dg7 => "7" | dg8 => "8" | dg9 => "9"
  end%char.

Definition digit_of_ascii (c : ascii) : option Digit :=
  match c with
  | "0" => Some dg0 | "1" => Some dg1 | "2" => Some dg2 | "3" => Some dg3
  | "4" => Some dg4 | "5" => Some dg5 | "6" => Some dg6 | "7" => Some dg7
  | "8" => Some dg8 | "9" => Some dg9 | _ => None
  end%char.

Definition is_digit_char (c : ascii) : bool :=
  match digit_of_ascii c with Some _ => true | None => false end.

(** Value of a hexadecimal digit character, either case. *)
Definition hex_of_ascii (c : ascii) : option N :=
  match digit_of_ascii c with
  | Some d => Some (N_of_digit d)
  | None =>
      match c with
      | "a" | "A" => Some 10 | "b" | "B" => Some 11 | "c" | "C" => Some 12
      | "d" | "D" => Some 13 | "e" | "E" => Some 14 | "f" | "F" => Some 15
      | _ => None
      end%char%N
  end.

Definition is_hex_char (c : ascii) : bool :=
  match hex_of_ascii c with Some _ => true | None => false end.

Fixpoint string_forallb (p : ascii -> bool) (s : string) : bool :=
  match s with
  | EmptyString => true
  | String c r => p c && string_forallb p r
  end.

Fixpoint string_of_digits (l : list Digit) : string :=
  match l with
  | [] => EmptyString
  | d :: r => String (ascii_of_digit d) (string_of_digits r)
  end.

(** All characters are decimal digits: the digit list; [None] otherwise. *)
Fixpoint digits_of_string (s : string) : option (list Digit) :=
  match s with
  | EmptyString => Some []
  | String c r =>
      match digit_of_ascii c, digits_of_string r with
      | Some d, Some l => Some (d :: l)
      | _, _ => None
      end
  end.

Definition N_of_digits (l : list Digit) : N :=
  fold_left (fun acc d => (10 * acc + N_of_digit d)%N) l 0%N.

(** Digits of [n], most significant first, produced from the least
    significant end; [fuel] bounds the number of digits. *)
Fixpoint digits_fuel (fuel : nat) (n : N) (acc : list Digit) : list Digit :=
  match fuel with
  | O => acc
  | S f =>
      if (n =? 0)%N then acc
      else digits_fuel f (n / 10)%N (digit_of_N (n mod 10)%N :: acc)
  end.

(** The decimal digits of [n] without leading zeros; [0] has no digit. *)
Definition digits_of_N (n : N) : list Digit :=
  digits_fuel (S (N.to_nat (N.log2 n))) n [].

Fixpoint strip_leading (l : list Digit) : list Digit :=
  match l with
  | d :: r => if is_dg0 d then strip_leading r else l
  | [] => []
  end.

Definition strip_trailing (l : list Digit) : list Digit :=
  rev (strip_leading (rev l)).

Definition zeros (n : nat) : list Digit := repeat dg0 n.

(** Decimal text of an integer, as [Number.prototype.toString] prints the
    integers that occur here (array indices, exponents, byte values). *)
Definition string_of_N (n : N) : string :=
  match digits_of_N n with
  | [] => "0"
  | l => string_of_digits l
  end.

Definition string_of_Z (z : Z) : string :=
  if (z <? 0)%Z then String "-" (string_of_N (Z.abs_N z)) else string_of_N (Z.abs_N z).

(* ------------------------------------------------------------------ *)
(** ** The decimal engine under the Value classes *)

(** Modelled from the spec: the arbitrary-precision decimal that
    src/core/value.js, iouvalue.js and xrpvalue.js wrap is not among the
    sources.  Spec 3 ("Decimal") gives it a sign, a coefficient and an
    exponent, with NaN as a distinct state; spec 4.1 lists its operations.
    [DFin neg coef exp] denotes (-1)^neg * coef * 10^exp, the coefficient
    being kept as its decimal digits without leading or trailing zeros (zero
    has no digit and exponent 0).  The sign is kept on zero too: the source
    tests [value.isZero() && value.isNegative()] in [_set_value], so the
    decimal it runs on has a negative zero. *)
Inductive Decimal : Type :=
| DNaN
| DFin (neg : bool) (coef : list Digit) (exp : Z).

Inductive RoundingMode : Type := ROUND_DOWN | ROUND_HALF_UP.

Definition mkDecimal (neg : bool) (c : list Digit) (x : Z) : Decimal :=
  let c1 := strip_leading c in
  let c2 := strip_trailing c1 in
  match c2 with
  | [] => DFin neg [] 0
  | _ :: _ => DFin neg c2 (x + Z.of_nat (List.length c1 - List.length c2))
  end.

Definition Decimal_of_N (neg : bool) (n : N) (x : Z) : Decimal :=
  mkDecimal neg (digits_of_N n) x.

Definition Decimal_of_Z (z : Z) (x : Z) : Decimal :=
  Decimal_of_N (z <? 0)%Z (Z.abs_N z) x.

(** The signed coefficient scaled by 10^k, for k >= 0. *)
Definition scaled (neg : bool) (c : list Digit) (k : Z) : Z :=
  (if neg then -1 else 1) * (Z.of_N (N_of_digits c) * 10 ^ k).

Definition dec_isNaN (a : Decimal) : bool :=
  match a with DNaN => true | DFin _ _ _ => false end.

Definition dec_isZero (a : Decimal) : bool :=
  match a with DFin _ [] _ => true | _ => false end.

Definition dec_isNegative (a : Decimal) : bool :=
  match a with DFin true _ _ => true | _ => false end.

Definition dec_neg (a : Decimal) : Decimal :=
  match a with DNaN => DNaN | DFin n c x => DFin (negb n) c x end.

Definition dec_abs (a : Decimal) : Decimal :=
  match a with DNaN => DNaN | DFin _ c x => DFin false c x end.

(** Modelled from the spec: addition of the absent engine; any NaN operand
    yields NaN (spec 4.1). *)
Definition dec_plus (a b : Decimal) : Decimal :=
  match a, b with
  | DFin na ca xa, DFin nb cb xb =>
      let m := Z.min xa xb in
      let z := scaled na ca (xa - m) + scaled nb cb (xb - m) in
      if (z =? 0)%Z then DFin (na && nb) [] 0 else Decimal_of_Z z m
  | _, _ => DNaN
  end.

(** Modelled from the spec: multiplication of the absent engine (spec 4.1),
    exact. *)
Definition dec_times (a b : Decimal) : Decimal :=
  match a, b with
  | DFin na ca xa, DFin nb cb xb =>
      mkDecimal (xorb na nb) (digits_of_N (N_of_digits ca * N_of_digits cb)) (xa + xb)
  | _, _ => DNaN
  end.

(** Digits the quotient is computed to beyond the dividend's, before the
    Value class cuts it to its own precision. *)
Definition DIV_GUARD : nat := 40.

(** Modelled from the spec: division of the absent engine.  Division by
    zero yields NaN, never fails (spec 4.1); the quotient is cut toward
    zero. *)
Definition dec_div (a b : Decimal) : Decimal :=
  match a, b with
  | DFin na ca xa, DFin nb cb xb =>
      match cb with
      | [] => DNaN
      | _ :: _ =>
          let k := Z.of_nat (List.length cb + DIV_GUARD) in
          mkDecimal (xorb na nb)
            (digits_of_N (N_of_digits ca * 10 ^ Z.to_N k / N_of_digits cb)) (xa - xb - k)
      end
  | _, _ => DNaN
  end.

Definition dec_one : Decimal := DFin false [dg1] 0.

(** Modelled from the spec: invert(x) = 1 / x; on zero NaN (spec 4.1). *)
Definition dec_invert (a : Decimal) : Decimal := dec_div dec_one a.

Definition round_up (rm : RoundingMode) (next : Digit) : bool :=
  match rm with
  | ROUND_DOWN => false
  | ROUND_HALF_UP => (5 <=? N_of_digit next)%N
  end.

(** Keep the first [k] digits of the coefficient [c], whose kept part ends
    at exponent [x]. *)
Definition cut_digits (rm : RoundingMode) (n : bool) (c : list Digit) (k : nat) (x : Z)
  : Decimal :=
  if round_up rm (nth k c dg0)
  then Decimal_of_N n (N_of_digits (firstn k c) + 1) x
  else mkDecimal n (firstn k c) x.

(** Modelled from the spec: rounding of the absent engine to [sd]
    significant digits (spec 4.1, "Rounding"). *)
Definition dec_toDigits (sd : nat) (rm : RoundingMode) (a : Decimal) : Decimal :=
  match a with
  | DNaN => DNaN
  | DFin n c x =>
      if (List.length c <=? sd)%nat then a
      else cut_digits rm n c sd (x + Z.of_nat (List.length c - sd))
  end.

(** Modelled from the spec: [round(digits, mode)] of the absent engine, to
    [dp] decimal places (spec 4.1). *)
Definition dec_round (dp : Z) (rm : RoundingMode) (a : Decimal) : Decimal :=
  match a with
  | DNaN => DNaN
  | DFin n c x =>
      let r := - x - dp in
      let len := Z.of_nat (List.length c) in
      if (r <=? 0)%Z then a
      else if (len <? r)%Z then DFin n [] 0
      else cut_digits rm n c (Z.to_nat (len - r)) (- dp)
  end.

(** Modelled from the spec: [compare] of the absent engine (spec 4.1);
    nothing compares with NaN. *)
Definition dec_cmp (a b : Decimal) : option comparison :=
  match a, b with
  | DFin na ca xa, DFin nb cb xb =>
      let m := Z.min xa xb in
      Some (scaled na ca (xa - m) ?= scaled nb cb (xb - m))%Z
  | _, _ => None
  end.

Definition dec_eq (a b : Decimal) : bool :=
  match dec_cmp a b with Some Eq => true | _ => false end.

Definition dec_gt (a b : Decimal) : bool :=
  match dec_cmp a b with Some Gt => true | _ => false end.

Definition dec_lt (a b : Decimal) : bool :=
  match dec_cmp a b with Some Lt => true | _ => false end.

(** The exponent of the leading digit (0 for zero, and for NaN, whose
    exponent field is null and counts as 0 in arithmetic). *)
Definition dec_e (a : Decimal) : Z :=
  match a with
  | DFin _ ((_ :: _) as c) x => Z.of_nat (List.length c) - 1 + x
  | _ => 0
  end.

(** Modelled from the spec: [toString] of the absent engine (spec 4.1), in
    the format of JavaScript numbers, which the source relies on when it
    appends "e" and an exponent in [parse_quality]: plain notation for
    leading exponents in (-7, 21), exponential notation outside; a negative
    zero prints as "0". *)
Definition dec_toString (a : Decimal) : string :=
  match a with
  | DNaN => "NaN"
  | DFin _ [] _ => "0"
  | DFin n ((d :: r) as c) x =>
      let e := dec_e a in
      let body :=
        if (e <=? -7)%Z || (21 <=? e)%Z then
          String (ascii_of_digit d)
            (match r with [] => "" | _ :: _ => String "." (string_of_digits r) end)
          ++ "e" ++ (if (e <? 0)%Z then "-" else "+") ++ string_of_N (Z.abs_N e)
        else if (e <? 0)%Z then
          "0." ++ string_of_digits (zeros (Z.to_nat (- e - 1)) ++ c)
        else if (0 <=? x)%Z then
          string_of_digits (c ++ zeros (Z.to_nat x))
        else
          string_of_digits (firstn (Z.to_nat (e + 1)) c)
          ++ "." ++ string_of_digits (skipn (Z.to_nat (e + 1)) c)
      in
      if n then String "-" body else body
  end.

(** Split at the first character satisfying [p], which is dropped. *)
Fixpoint split_at (p : ascii -> bool) (s : string) : string * option string :=
  match s with
  | EmptyString => (EmptyString, None)
  | String c r =>
      if p c then (EmptyString, Some r)
      else let (a, b) := split_at p r in (String c a, b)
  end.

Definition is_e_char (c : ascii) : bool :=
  match c with "e"%char | "E"%char => true | _ => false end.

Definition is_dot_char (c : ascii) : bool :=
  match c with "."%char => true | _ => false end.

Definition nonempty_digits (s : string) : option (list Digit) :=
  match s with
  | EmptyString => None
  | String _ _ => digits_of_string s
  end.

(** An exponent part: [+-]?\d+ *)
Definition parse_exponent (s : string) : option Z :=
  match s with
  | String "-" r => option_map (fun l => - Z.of_N (N_of_digits l)) (nonempty_digits r)
  | String "+" r => option_map (fun l => Z.of_N (N_of_digits l)) (nonempty_digits r)
  | _ => option_map (fun l => Z.of_N (N_of_digits l)) (nonempty_digits s)
  end.

(** Modelled from the spec: the decimal a base-10 string denotes for the
    absent engine (spec 4.2, "accepts any decimal string"): an optional
    minus sign, digits with an optional point and fraction (or a point and a
    fraction), an optional exponent part; anything else is NaN (spec 7:
    parsing never throws for a format mismatch). *)
Definition Decimal_of_string (s : string) : Decimal :=
  let (n, body) :=
    match s with String "-" r => (true, r) | _ => (false, s) end in
  let (mant, ex) := split_at is_e_char body in
  let (ip, fp) := split_at is_dot_char mant in
  let frac := match fp with Some f => f | None => EmptyString end in
  match digits_of_string ip, digits_of_string frac with
  | Some di, Some df =>
      match di, fp, df with
      | [], None, _ | [], Some _, [] => DNaN
      | _, _, _ =>
          match ex with
          | None => mkDecimal n (di ++ df) (- Z.of_nat (List.length df))
          | Some t =>
              match parse_exponent t with
              | Some k => mkDecimal n (di ++ df) (k - Z.of_nat (List.length df))
              | None => DNaN
              end
          end
      end
  | _, _ => DNaN
  end.

(** Modelled from the spec: the integer a base-16 string denotes for the
    absent engine (spec 4.6 step 1, the mantissa of a quality), optionally
    negative; anything else is NaN. *)
Fixpoint hex_value (s : string) (acc : N) : option N :=
  match s with
  | EmptyString => Some acc
  | String c r =>
      match hex_of_ascii c with
      | Some h => hex_value r (16 * acc + h)%N
      | None => None
      end
  end.

Definition Decimal_of_hex (s : string) : Decimal :=
  let (n, body) :=
    match s with String "-" r => (true, r) | _ => (false, s) end in
  match body with
  | EmptyString => DNaN
  | String _ _ =>
      match hex_value body 0%N with
      | Some v => Decimal_of_N n v 0
      | None => DNaN
      end
  end.

(* ------------------------------------------------------------------ *)
(** ** JavaScript string helpers *)

Definition is_line_terminator (c : ascii) : bool :=
  match c with
  | "010"%char | "013"%char => true
  | _ => false
  end.

Definition is_js_space (c : ascii) : bool :=
  match c with
  | " "%char | "009"%char | "010"%char | "011"%char | "012"%char | "013"%char => true
  | _ => false
  end.

Fixpoint string_existsb (p : ascii -> bool) (s : string) : bool :=
  match s with
  | EmptyString => false
  | String c r => p c || string_existsb p r
  end.

Fixpoint string_rev_app (s acc : string) : string :=
  match s with
  | EmptyString => acc
  | String c r => string_rev_app r (String c acc)
  end.

Definition string_rev (s : string) : string := string_rev_app s EmptyString.

Fixpoint trim_left (s : string) : string :=
  match s with
  | String c r => if is_js_space c then trim_left r else s
  | EmptyString => EmptyString
  end.

Definition trim (s : string) : string :=
  string_rev (trim_left (string_rev (trim_left s))).

(** [s.substring(a, b)]: indices are clamped to [0, length] and swapped when
    out of order. *)
Definition js_substring (s : string) (a b : Z) : string :=
  let len := Z.of_nat (String.length s) in
  let a' := Z.max 0 (Z.min a len) in
  let b' := Z.max 0 (Z.min b len) in
  let lo := Z.min a' b' in
  let hi := Z.max a' b' in
  String.substring (Z.to_nat lo) (Z.to_nat (hi - lo)) s.

(** [s.substring(a)] *)
Definition js_substring_from (s : string) (a : Z) : string :=
  js_substring s a (Z.of_nat (String.length s)).

Definition nonempty_forall (p : ascii -> bool) (s : string) : bool :=
  match s with
  | EmptyString => false
  | String _ _ => string_forallb p s
  end.

(** Whether [Number(s)] is a number for a string [s] (ECMAScript
    StringNumericLiteral): surrounding white space, then nothing, a signed
    decimal literal or Infinity, or an unsigned 0x, 0o or 0b literal. *)
Definition js_numeric_literal (s : string) : bool :=
  match s with
  | EmptyString => true
  | String "0" (String ("x" | "X") r) => nonempty_forall is_hex_char r
  | String "0" (String ("o" | "O") r) =>
      nonempty_forall (fun c => match c with
                                | "0" | "1" | "2" | "3" | "4" | "5" | "6" | "7" => true
                                | _ => false end%char) r
  | String "0" (String ("b" | "B") r) =>
      nonempty_forall (fun c => match c with "0" | "1" => true | _ => false end%char) r
  | _ =>
      let body := match s with String ("+" | "-") r => r | _ => s end in
      match body with
      | String "-" _ => false
      | _ => String.eqb body "Infinity" || negb (dec_isNaN (Decimal_of_string body))
      end
  end.

(** The global [isNaN] applied to a string. *)
Definition js_isNaN (s : string) : bool := negb (js_numeric_literal (trim s)).

Definition is_slash (c : ascii) : bool :=
  match c with "/"%char => true | _ => false end.

Definition is_nonzero_digit (c : ascii) : bool :=
  match c with
  | "1" | "2" | "3" | "4" | "5" | "6" | "7" | "8" | "9" => true
  | _ => false
  end%char.

Definition is_zero_char (c : ascii) : bool :=
  match c with "0"%char => true | _ => false end.

(** The match of a regular expression of the shape [h t $] where [h] is one
    character class and [t] a starred class: the leftmost suffix whose head
    is in [h] and whose remaining characters are all in [t]. *)
Fixpoint match_suffix (h t : ascii -> bool) (s : string) : option string :=
  match s with
  | EmptyString => None
  | String c r =>
      if h c && string_forallb t r then Some s else match_suffix h t r
  end.

(* ------------------------------------------------------------------ *)
(** ** Value, IOUValue, XRPValue *)

Inductive ValueKind : Type := XRP | IOU.

(** Modelled from the spec: the classes of src/core/value.js, iouvalue.js and
    xrpvalue.js are not among the sources.  A Value wraps a decimal (spec
    4.2: "Both wrap BigDecimal"); its class decides how results are cut:
    an IOUValue to 16 significant digits toward zero, an XRPValue to whole
    drops, that is 6 decimal places toward zero (spec 3, 4.1).  The range is
    not enforced here: the source does that in [_check_limits]. *)
Record Value : Type := mkValue { kind : ValueKind; num : Decimal }.

(** Modelled from the spec: the canonicalization the absent Value classes
    apply after each operation (spec 4.1). *)
Definition canonicalize (k : ValueKind) (d : Decimal) : Value :=
  match k with
  | IOU => mkValue IOU (dec_toDigits 16 ROUND_DOWN d)
  | XRP => mkValue XRP (dec_round 6 ROUND_DOWN d)
  end.

(** The decimal places of a decimal: the digits it has after the point
    (none for NaN). *)
Definition dec_dp (a : Decimal) : Z :=
  match a with
  | DFin n c x =>
      match mkDecimal n c x with
      | DFin _ (_ :: _) x' => Z.max 0 (- x')
      | _ => 0
      end
  | DNaN => 0
  end.

(** Modelled from the spec: the error of a native value that does not fit
    in integer drops (spec 3); src/core/xrpvalue.js is not among the
    sources. *)
Definition precision_error : Exn :=
  Error "Value has more than 6 digits of precision past the decimal point".

(** Modelled from the spec: [new XRPValue(x)] for a number or decimal text
    [x] (src/core/xrpvalue.js is not among the sources).  A NativeValue is a
    decimal that fits in integer drops, 1 XRP being 10^6 drops (spec 3), and
    the Value classes validate what they are constructed from (spec 4.2): a
    decimal with more than 6 decimal places is refused.  NaN is taken, as
    the default argument [new XRPValue(NaN)] of the Amount constructor
    requires. *)
Definition XRPValue (d : Decimal) : result Value :=
  if (6 <? dec_dp d)%Z then Throw precision_error else Ok (mkValue XRP d).

(** Modelled from the spec: [new IOUValue(x, roundingMode)]
    (src/core/iouvalue.js is absent); without a rounding mode the engine's
    own applies, which cuts toward zero (spec 4.1). *)
Definition IOUValue (d : Decimal) (rm : option RoundingMode) : Value :=
  mkValue IOU
    (dec_toDigits 16 (match rm with Some m => m | None => ROUND_DOWN end) d).

(** Drops per XRP. *)
Definition rippleUnits : Decimal := DFin false [dg1] 6.

(** Modelled from the spec: the methods of the absent Value class (spec 4.1
    lists them); each result is canonicalized for the class of the
    receiver. *)
Module V.
Definition isNaN (v : Value) : bool := dec_isNaN (num v).
Definition isZero (v : Value) : bool := dec_isZero (num v).
Definition isNegative (v : Value) : bool := dec_isNegative (num v).
Definition negate (v : Value) : Value := mkValue (kind v) (dec_neg (num v)).
Definition abs (v : Value) : Value := canonicalize (kind v) (dec_abs (num v)).
Definition add (v w : Value) : Value := canonicalize (kind v) (dec_plus (num v) (num w)).
(** The second operand of a product or quotient: an XRPValue counts in
    drops (spec 8: 25.2 XRP times the amount "4" is 100.8 XRP; spec 4.5:
    dividing by the native unit divides by 10^6). *)
Definition operand (w : Value) : Decimal :=
  match kind w with
  | XRP => dec_times (num w) rippleUnits
  | IOU => num w
  end.
Definition multiply (v w : Value) : Value :=
  canonicalize (kind v) (dec_times (num v) (operand w)).
Definition divide (v w : Value) : Value :=
  canonicalize (kind v) (dec_div (num v) (operand w)).
Definition invert (v : Value) : Value := canonicalize (kind v) (dec_invert (num v)).
Definition round (v : Value) (dp : Z) (rm : RoundingMode) : Value :=
  canonicalize (kind v) (dec_round dp rm (num v)).
Definition equals (v w : Value) : bool := dec_eq (num v) (num w).
Definition greaterThan (v w : Value) : bool := dec_gt (num v) (num w).
Definition lessThan (v w : Value) : bool := dec_lt (num v) (num w).
(** -1, 0 or 1; null when either side is NaN. *)
Definition comparedTo (v w : Value) : option Z :=
  match dec_cmp (num v) (num w) with
  | Some Lt => Some (-1)
  | Some Eq => Some 0
  | Some Gt => Some 1
  | None => None
  end.
Definition getExponent (v : Value) : Z := dec_e (num v).
Definition toString (v : Value) : string := dec_toString (num v).
End V.

(** Modelled from the spec: utils.getMantissa16FromString (src/core/utils.js)
    is not among the sources; spec 4.7 calls its result "the 16-digit
    mantissa": the coefficient of the decimal the string denotes, filled with
    zeros on the right to 16 digits. *)
Definition getMantissa16FromString (s : string) : string :=
  match Decimal_of_string s with
  | DNaN => EmptyString
  | DFin _ c _ => string_of_digits (c ++ zeros (16 - List.length c))
  end.

(* ------------------------------------------------------------------ *)
(** ** Currency and UInt160 *)

(** Modelled from the spec: src/core/currency.js is not among the sources.
    Spec 4.4 gives a currency three variants, next to the invalid state every
    parsed entity has (spec 7). *)
Inductive Currency : Type :=
| CurInvalid
| CurNative
| CurIso (code : string)
| CurDemurrage (code160 : N).

(** Modelled from the spec: the methods of the absent Currency class that
    the Amount code calls (spec 4.4). *)
Module Cur.
Definition is_native (c : Currency) : bool :=
  match c with CurNative => true | _ => false end.
Definition is_valid (c : Currency) : bool :=
  match c with CurInvalid => false | _ => true end.
Definition has_interest (c : Currency) : bool :=
  match c with CurDemurrage _ => true | _ => false end.
Definition equals (c d : Currency) : bool :=
  match c, d with
  | CurNative, CurNative => true
  | CurIso a, CurIso b => String.eqb a b
  | CurDemurrage a, CurDemurrage b => N.eqb a b
  | _, _ => false
  end.
End Cur.

(** Modelled from the spec: src/core/uint160.js is not among the sources.  A
    160-bit value with a validity flag (spec 3); [None] is the invalid
    state. *)
Definition UInt160 : Type := option N.

(** Modelled from the spec: [is_valid] and [equals] of the absent UInt160
    (spec 4.3). *)
Module U160.
Definition is_valid (u : UInt160) : bool :=
  match u with Some _ => true | None => false end.
Definition equals (u v : UInt160) : bool :=
  match u, v with
  | Some a, Some b => N.eqb a b
  | _, _ => false
  end.
End U160.

(* ------------------------------------------------------------------ *)
(** ** Amount (src/core/amount.js) *)

Record Amount : Type := mkAmount {
  _value : Value;
  _is_native : bool;
  _currency : Currency;
  _issuer : UInt160
}.

(** The object literal [{value, currency, issuer}] of the JSON wire format. *)
Record AmountJson : Type := mkAmountJson {
  j_value : string;
  j_currency : string;
  j_issuer : option string   (* [None]: the issuer is not a string *)
}.

(** The JavaScript values the Amount methods are called with. *)
Inductive JsVal : Type :=
| JUndefined
| JNull
| JBool (b : bool)
| JNumber (d : Decimal)      (* a number, as the decimal its String() prints *)
| JString (s : string)
| JAmount (a : Amount)
| JValue (v : Value)         (* a Value object, such as bi_xns_unit *)
| JObject (o : AmountJson).  (* an object with an own [value] property *)

(** Options of [parse_quality]. *)
Record QualityOpts : Type := mkQualityOpts {
  inverse : bool;
  base_currency : Currency;       (* Currency.from_json(opts.base_currency) *)
  reference_date : option Z;      (* [None] when absent or falsy *)
  xrp_as_drops : bool
}.

Inductive CompareResult : Type :=
| CmpInvalid (a : Amount)     (* the invalid Amount returned for incomparable operands *)
| CmpNumber (c : option Z).

Definition xns_precision : Z := 6.
Definition cMinOffset : Z := -96.
Definition cMaxOffset : Z := 80.
Definition max_value : string := "9999999999999999e80".
Definition min_value : string := "1000000000000000e-96".

(** [new XRPValue(1e11)]: a whole number, which the constructor takes. *)
Definition MAX_XRP_VALUE : Value := mkValue XRP (DFin false [dg1] 11).
Definition MAX_IOU_VALUE : Value := IOUValue (Decimal_of_string max_value) None.
Definition MIN_IOU_VALUE : Value := IOUValue (Decimal_of_string min_value) None.
Definition bi_xns_unit : Value := IOUValue (DFin false [dg1] 6) None.

(** [new Currency()] and [new UInt160()]: not yet parsed, hence invalid. *)
Definition Currency_new : Currency := CurInvalid.
Definition UInt160_new : UInt160 := None.

(** [new Amount()]: the value defaults to [new XRPValue(NaN)]. *)
Definition Amount_new : Amount :=
  mkAmount (mkValue XRP DNaN) true Currency_new UInt160_new.

(** [new Amount(value)] with an argument: the constructor asserts
    [value instanceof Value]. *)
Definition Amount_new_with (value : JsVal) : result Amount :=
  match value with
  | JUndefined => Ok Amount_new
  | JValue v => Ok (mkAmount v true Currency_new UInt160_new)
  | _ => Throw AssertionError
  end.

(** [Amount.NaN()] *)
Definition Amount_NaN : Amount :=
  mkAmount (IOUValue DNaN None) true Currency_new UInt160_new.

Definition set_value (a : Amount) (v : Value) : Amount :=
  mkAmount v (_is_native a) (_currency a) (_issuer a).
Definition set_native (a : Amount) (n : bool) : Amount :=
  mkAmount (_value a) n (_currency a) (_issuer a).
Definition set_currency_field (a : Amount) (c : Currency) : Amount :=
  mkAmount (_value a) (_is_native a) c (_issuer a).
Definition set_issuer_field (a : Amount) (i : UInt160) : Amount :=
  mkAmount (_value a) (_is_native a) (_currency a) i.

Definition is_native (a : Amount) : bool := _is_native a.
Definition is_negative (a : Amount) : bool := V.isNegative (_value a).
Definition is_valid (a : Amount) : bool := negb (V.isNaN (_value a)).
Definition is_zero (a : Amount) : bool := V.isZero (_value a).
Definition is_positive (a : Amount) : bool := negb (is_zero a) && negb (is_negative a).
Definition is_valid_full (a : Amount) : bool :=
  is_valid a && Cur.is_valid (_currency a) && U160.is_valid (_issuer a).
Definition currency (a : Amount) : Currency := _currency a.
Definition issuer (a : Amount) : UInt160 := _issuer a.

(** True if Amounts are valid and both native or non-native. *)
Definition is_comparable (a v : Amount) : bool :=
  is_valid a && is_valid v && Bool.eqb (_is_native a) (_is_native v).

(** Make [d] a copy of [this]. *)
Definition copyTo (this d : Amount) (negate : bool) : Amount :=
  mkAmount (if negate then V.negate (_value this) else _value this)
           (_is_native this) (_currency this) (_issuer this).

Definition clone (this : Amount) (negate : bool) : Amount :=
  copyTo this Amount_new negate.

(** Return a new value. *)
Definition negate (this : Amount) : Amount := clone this true.

Definition exceeding_max (v : Value) : Exn :=
  Error ("Exceeding max value of " ++ V.toString v).
Definition exceeding_min (v : Value) : Exn :=
  Error ("Exceeding min value of " ++ V.toString v).

Section Amount.

(** [Amount.strict_mode], the process-wide flag. *)
Variable strict_mode : bool.

(** [Currency.from_json(j, shouldInterpretXrpAsIou)] and
    [UInt160.from_json(j)] on strings, and the decimal that
    [currency.get_interest_at(date).toString()] denotes: their code is not
    among the sources, and the last is floating-point. *)
Variable Currency_from_json : string -> bool -> Currency.
Variable UInt160_from_json : string -> UInt160.
Variable get_interest_at : Currency -> Z -> Decimal.

Definition _check_limits (this : Amount) : result Amount :=
  if negb strict_mode then Ok this
  else if V.isNaN (_value this) || V.isZero (_value this) then Ok this
  else
    let absval := V.abs (_value this) in
    if _is_native this then
      if V.greaterThan absval MAX_XRP_VALUE
      then Throw (exceeding_max MAX_XRP_VALUE)
      else Ok this
    else
      if V.lessThan absval MIN_IOU_VALUE
      then Throw (exceeding_min MIN_IOU_VALUE)
      else if V.greaterThan absval MAX_IOU_VALUE
      then Throw (exceeding_max MAX_IOU_VALUE)
      else Ok this.

(** [_set_value(value)]; the argument is not type-checked at run time, and
    only a Value has the methods [isZero] and [isNegative].  (When the check
    throws, the object keeps the value just assigned; every caller in this
    file works on an object of its own, which is then lost.) *)
Definition _set_value (this : Amount) (value : JsVal) : result Amount :=
  match value with
  | JValue v =>
      _check_limits
        (set_value this (if V.isZero v && V.isNegative v then V.negate v else v))
  | JUndefined | JNull => Throw (TypeError "Cannot read property 'isZero'")
  | _ => Throw (TypeError "value.isZero is not a function")
  end.

Definition _copy (this : Amount) (value : Value) : result Amount :=
  _set_value (clone this false) (JValue value).

Definition abs (this : Amount) : result Amount :=
  _copy this (V.abs (_value this)).

(** Parse a XRP value from untrusted input. *)
Definition parse_native (this : Amount) (j : string) : result Amount :=
  if negb (String.eqb j "") && negb (js_isNaN j) then
    if string_existsb is_dot_char j
    then Throw (Error "Native amounts must be specified in integer drops")
    else
      value <- XRPValue (Decimal_of_string j) ;;
      _set_value (set_native this true) (JValue (V.divide value bi_xns_unit))
  else _set_value this (JValue (IOUValue DNaN None)).

(** Parse a non-native value for the json wire format. *)
Definition parse_value (this : Amount) (j : Decimal) : result Amount :=
  _set_value (set_native this false) (JValue (IOUValue j (Some ROUND_DOWN))).

(** The groups of the shorthand pattern: value, currency and, when there
    is one, issuer, each non-empty and the first two free of slashes. *)
Definition match_shorthand (j : string) : option (string * string * option string) :=
  match split_at is_slash j with
  | (String _ _ as v, Some r) =>
      match split_at is_slash r with
      | (String _ _ as c, None) => Some (v, c, None)
      | (String _ _ as c, Some (String _ _ as i)) =>
          if string_existsb is_line_terminator i then None else Some (v, c, Some i)
      | _ => None
      end
  | _ => None
  end.

Definition parse_json_string (this : Amount) (j : string) : result Amount :=
  match match_shorthand j with
  | Some (v, c, i) =>
      let this1 := set_currency_field this (Currency_from_json c false) in
      let this2 :=
        set_issuer_field this1
          (UInt160_from_json (match i with Some i' => i' | None => "1" end)) in
      parse_value this2 (Decimal_of_string v)
  | None =>
      this1 <- parse_native this j ;;
      Ok (set_issuer_field
            (set_currency_field this1 (Currency_from_json "0" false))
            (UInt160_from_json "0"))
  end.

Definition parse_json (this : Amount) (j : JsVal) : result Amount :=
  match j with
  | JString s => parse_json_string this s
  | JNumber d => parse_json_string this (dec_toString d)
  | JNull => Ok this
  | JAmount a => Ok (copyTo a this false)
  | JObject o =>
      (* Parse the passed value to sanitize and copy it. *)
      let this1 := set_currency_field this (Currency_from_json (j_currency o) true) in
      let this2 :=
        match j_issuer o with
        | Some i => set_issuer_field this1 (UInt160_from_json i)
        | None => this1
        end in
      parse_value this2 (Decimal_of_string (j_value o))
  | JValue _ => Ok this      (* an object without an own [value] property *)
  | JUndefined | JBool _ => _set_value this (JValue (IOUValue DNaN None))
  end.

Definition from_json (j : JsVal) : result Amount := parse_json Amount_new j.

Definition add (this : Amount) (addend : JsVal) : result Amount :=
  addendAmount <- from_json addend ;;
  if negb (is_comparable this addendAmount) then Ok Amount_new
  else _copy this (V.add (_value this) (_value addendAmount)).

(** Correctness over speed, less code has less bugs, reuse add code. *)
Definition subtract (this : Amount) (subtrahend : JsVal) : result Amount :=
  s <- from_json subtrahend ;;
  add this (JAmount (negate s)).

Definition multiply (this : Amount) (multiplicand : JsVal) : result Amount :=
  multiplicandAmount <- from_json multiplicand ;;
  _copy this (V.multiply (_value this) (_value multiplicandAmount)).

Definition scale (this : Amount) (scaleFactor : JsVal) : result Amount :=
  multiply this scaleFactor.

Definition divide (this : Amount) (divisor : JsVal) : result Amount :=
  divisorAmount <- from_json divisor ;;
  _copy this (V.divide (_value this) (_value divisorAmount)).

Definition applyInterest (this : Amount) (referenceDate : Z) : result Amount :=
  if negb (Cur.has_interest (_currency this)) then Ok this
  else
    let interest := get_interest_at (_currency this) referenceDate in
    _copy this (V.multiply (_value this) (IOUValue interest None)).

Definition ratio_human (this : Amount) (denom : JsVal) (opts_reference_date : option Z)
  : result Amount :=
  let numerator := clone this false in
  denominator <- from_json denom ;;
  (* If either operand is NaN, the result is NaN. *)
  if negb (is_valid numerator) || negb (is_valid denominator)
  then Amount_new_with (JNumber DNaN)
  else if is_zero denominator
  then Amount_new_with (JNumber DNaN)
  else
    denominator <-
      match opts_reference_date with
      | Some d => applyInterest denominator d
      | None => Ok denominator
      end ;;
    numerator <-
      (if _is_native denominator then
         m <- multiply numerator (JValue bi_xns_unit) ;;
         _set_value numerator (JAmount m)
       else Ok numerator) ;;
    divide numerator (JAmount denominator).

Definition product_human (this : Amount) (factor : JsVal) (opts_reference_date : option Z)
  : result Amount :=
  fac <- from_json factor ;;
  (* If either operand is NaN, the result is NaN. *)
  if negb (is_valid this) || negb (is_valid fac) then Ok Amount_new
  else
    fac <-
      match opts_reference_date with
      | Some d => applyInterest fac d
      | None => Ok fac
      end ;;
    product <- multiply this (JAmount fac) ;;
    if _is_native fac then
      quotient <- divide product (JString (V.toString bi_xns_unit)) ;;
      _set_value product (JValue (_value quotient))
    else Ok product.

Definition _invert (this : Amount) : result Amount :=
  _set_value this (JValue (V.invert (_value this))).

Definition invert (this : Amount) : result Amount := _invert (clone this false).

Definition compareTo (this : Amount) (to : JsVal) : result CompareResult :=
  toAmount <- from_json to ;;
  if negb (is_comparable this toAmount) then Ok (CmpInvalid Amount_new)
  else Ok (CmpNumber (V.comparedTo (_value this) (_value toAmount))).

Definition equals_amount (this d : Amount) (ignore_issuer : bool) : bool :=
  is_valid this && is_valid d
  && Bool.eqb (_is_native this) (_is_native d)
  && V.equals (_value this) (_value d)
  && (_is_native this
      || (Cur.equals (_currency this) (_currency d)
          && (ignore_issuer || U160.equals (_issuer this) (_issuer d)))).

Definition equals (this : Amount) (d : JsVal) (ignore_issuer : bool) : result bool :=
  match d with
  | JAmount d' => Ok (equals_amount this d' ignore_issuer)
  | _ =>
      (* the recursive call drops [ignore_issuer] *)
      d' <- from_json d ;;
      Ok (equals_amount this d' false)
  end.

End Amount.

(** [parseInt(s, 16)]: leading white space, a sign, an optional 0x, then the
    longest run of hexadecimal digits; [None] is NaN. *)
Fixpoint hex_prefix (s : string) (acc : N) (seen : bool) : option N :=
  match s with
  | EmptyString => if seen then Some acc else None
  | String c r =>
      match hex_of_ascii c with
      | Some h => hex_prefix r (16 * acc + h)%N true
      | None => if seen then Some acc else None
      end
  end.

Definition parseInt16 (s : string) : option Z :=
  let s0 := trim_left s in
  let (n, s1) :=
    match s0 with
    | String "-" r => (true, r)
    | String "+" r => (false, r)
    | _ => (false, s0)
    end in
  let s2 := match s1 with String "0" (String ("x" | "X") r) => r | _ => s1 end in
  option_map (fun v => if n : bool then - Z.of_N v else Z.of_N v) (hex_prefix s2 0%N false).

(** [Number.prototype.toString] of an integer or NaN. *)
Definition number_toString (n : option Z) : string :=
  match n with
  | Some z => string_of_Z z
  | None => "NaN"
  end.

Section Quality.

Variable strict_mode : bool.
Variable get_interest_at : Currency -> Z -> Decimal.

(** Decode a price from a BookDirectory index. *)
Definition parse_quality (this : Amount) (quality : string)
           (counterCurrency : Currency) (counterIssuer : UInt160)
           (options : QualityOpts) : result Amount :=
  let baseCurrency := base_currency options in
  let len := Z.of_nat (String.length quality) in
  let mantissa_hex := js_substring_from quality (len - 14) in
  let offset_hex := js_substring quality (len - 16) (len - 14) in
  let mantissa := IOUValue (Decimal_of_hex mantissa_hex) None in
  let offset := option_map (fun n => n - 100) (parseInt16 offset_hex) in
  let this :=
    mkAmount (_value this) (Cur.is_native counterCurrency)
             counterCurrency counterIssuer in
  if _is_native this && Cur.is_native baseCurrency
  then Throw (Error "XRP/XRP quality is not allowed")
  else
    let valueStr := V.toString mantissa ++ "e" ++ number_toString offset in
    let nativeAdjusted := IOUValue (Decimal_of_string valueStr) None in
    let nativeAdjusted :=
      if inverse options then V.invert nativeAdjusted else nativeAdjusted in
    let nativeAdjusted :=
      if negb (xrp_as_drops options) then
        if _is_native this then V.divide nativeAdjusted bi_xns_unit
        else if Cur.is_valid baseCurrency && Cur.is_native baseCurrency
        then V.multiply nativeAdjusted bi_xns_unit
        else nativeAdjusted
      else nativeAdjusted in
    this <-
      (if _is_native this then
         rounded <- XRPValue (Decimal_of_string
                                (V.toString (V.round nativeAdjusted 6 ROUND_DOWN))) ;;
         _set_value strict_mode this (JValue rounded)
       else _set_value strict_mode this (JValue nativeAdjusted)) ;;
    match reference_date options with
    | Some date =>
        if Cur.is_valid baseCurrency && Cur.has_interest baseCurrency then
          let interest := get_interest_at baseCurrency date in
          _set_value strict_mode this
            (JValue (V.divide (_value this) (IOUValue interest None)))
        else Ok this
    | None => Ok this
    end.

Definition from_quality := parse_quality Amount_new.

End Quality.

(** Convert only value to JSON wire format. *)
Definition to_text (this : Amount) : string :=
  if negb (is_valid this) then "NaN"
  else if _is_native this then V.toString (V.multiply (_value this) bi_xns_unit)
  else
    (* not native *)
    let offset := V.getExponent (_value this) - 15 in
    let sign := if V.isNegative (_value this) then "-" else "" in
    let mantissa := getMantissa16FromString (V.toString (V.abs (_value this))) in
    if negb (offset =? 0)%Z && ((offset <? -25)%Z || (offset >? -4)%Z) then
      (* Use e notation. *)
      sign ++ mantissa ++ "e" ++ string_of_Z offset
    else
      let val := "000000000000000000000000000" ++ mantissa
                 ++ "00000000000000000000000" in
      let pre := js_substring val 0 (offset + 43) in
      let post := js_substring_from val (offset + 43) in
      (* Everything but leading zeros. *)
      let s_pre :=
        match_suffix is_nonzero_digit (fun c => negb (is_line_terminator c)) pre in
      (* Last non-zero plus trailing zeros. *)
      let s_post := match_suffix is_nonzero_digit is_zero_char post in
      sign ++ (match s_pre with Some m => m | None => "0" end)
      ++ (match s_post with
          | Some m =>
              "." ++ js_substring post 0
                       (1 + Z.of_nat (String.length post) - Z.of_nat (String.length m))
          | None => ""
          end).

(* ------------------------------------------------------------------ *)
(** ** Seed (src/core/seed.js) *)

Module Seed.

Inductive KeyType : Type := secp256k1 | ed25519.

(** A JavaScript string is kept as its UTF-8 bytes; [_value] is [None]
    for NaN. *)
Record Seed : Type := mkSeed {
  _value : option N;
  _type : KeyType
}.

Definition width : nat := 16.

(** [new Seed()] *)
Definition Seed_new : Seed := mkSeed None secp256k1.

(** Big-endian value of a byte array, as [new BN(bytes)]. *)
Definition N_of_bytes (l : list Byte.byte) : N :=
  fold_left (fun acc b => (256 * acc + Byte.to_N b)%N) l 0%N.

Definition set_value (this : Seed) (v : option N) : Seed := mkSeed v (_type this).

(** Modelled from the spec: [is_valid], [parse_hex] and [parse_bytes] come
    from UInt.prototype (src/core/uint.js), which is not among the sources.
    Spec 4.3: the validity flag tells whether parsing succeeded; a seed in
    hex is 32 characters (spec 4.3, parse flow step 2); bytes are taken
    when there are exactly [width] of them. *)
Definition is_valid (this : Seed) : bool :=
  match _value this with Some _ => true | None => false end.

Definition parse_hex (this : Seed) (j : string) : Seed :=
  if (String.length j =? 2 * width)%nat then set_value this (hex_value j 0%N)
  else set_value this None.

Definition parse_bytes (this : Seed) (j : list Byte.byte) : Seed :=
  if (List.length j =? width)%nat then set_value this (Some (N_of_bytes j))
  else set_value this None.

Definition starts_with_s (j : string) : bool :=
  match j with String "s" _ => true | _ => false end.

Section Codec.

(** [decodeSeed] of ripple-address-codec ([None] when it throws) and
    SHA-512 of hash.js: external packages. *)
Variable decodeSeed : string -> option (list Byte.byte * KeyType).
Variable sha512 : list Byte.byte -> list Byte.byte.

Definition parse_base58 (this : Seed) (j : string) : Seed :=
  if (String.length j =? 0)%nat || negb (starts_with_s j) then set_value this None
  else
    match decodeSeed j with
    | Some (bytes, type) => mkSeed (Some (N_of_bytes bytes)) type
    | None => set_value this None
    end.

Definition parse_passphrase (this : Seed) (j : string) : Seed :=
  let phraseBytes := list_byte_of_string j in
  let hash := sha512 phraseBytes in
  parse_bytes this (firstn 16 hash).

(** value = NaN on error.  [j] is [None] for an argument that is not a
    string. *)
Definition parse_json (this : Seed) (j : option string) : Seed :=
  match j with
  | Some j =>
      if (String.length j =? 0)%nat then set_value this None
      else
        let this1 := parse_base58 this j in
        let this2 := if negb (is_valid this1) then parse_hex this1 j else this1 in
        if negb (is_valid this2) && negb (starts_with_s j)
        then parse_passphrase this2 j
        else this2
  | None => set_value this None
  end.

Definition from_json (j : option string) : Seed := parse_json Seed_new j.

End Codec.

End Seed.

(* ------------------------------------------------------------------ *)
(** ** Stand-ins for the absent parsers, to run the model on inputs *)

Definition demo_Currency_from_json (s : string) (xrp_as_iou : bool) : Currency :=
  if String.eqb s "0" || String.eqb s "XRP" || String.eqb s ""
  then (if xrp_as_iou then CurInvalid else CurNative)
  else if (String.length s =? 3)%nat then CurIso s
  else CurInvalid.

Definition demo_UInt160_from_json (s : string) : UInt160 :=
  if String.eqb s "0" then Some 0%N
  else if String.eqb s "1" then Some 1%N
  else if (String.length s =? 40)%nat then hex_value s 0%N
  else None.

Definition demo_interest (c : Currency) (date : Z) : Decimal :=
  DFin false [dg1; dg0; dg1] (-2).

Definition demo_decodeSeed (s : string) : option (list Byte.byte * Seed.KeyType) :=
  if String.eqb s "sEd7" then Some (repeat Byte.x01 16, Seed.ed25519) else None.

Definition demo_sha512 (m : list Byte.byte) : list Byte.byte :=
  repeat (match m with b :: _ => b | [] => Byte.x00 end) 64.

Definition usd (v : Decimal) : Amount :=
  mkAmount (IOUValue v None) false (CurIso "USD") (Some 1%N).

Definition xrp (v : Decimal) : Amount :=
  mkAmount (mkValue XRP v) true CurNative (Some 0%N).

(** What [_set_value] stores: a negative zero is replaced by its negation. *)
Definition stored_value (v : Value) : Value :=
  if V.isZero v && V.isNegative v then V.negate v else v.

(** The number that digits denote in base [base], most significant first:
    each digit counts for the power of the base given by the number of
    digits that follow it. *)
Fixpoint positional (base : N) (l : list N) : N :=
  match l with
  | [] => 0
  | d :: r => d * base ^ N.of_nat (List.length r) + positional base r
  end%N.

(** The values of the characters of a string of hexadecimal digits. *)
Fixpoint hex_digits (s : string) : option (list N) :=
  match s with
  | EmptyString => Some []
  | String c r =>
      match hex_of_ascii c, hex_digits r with
      | Some h, Some l => Some (h :: l)
      | _, _ => None
      end
  end.



(** The errors that [_check_limits] throws. *)
Definition range_error (e : Exn) : Prop :=
  e = exceeding_max MAX_XRP_VALUE \/ e = exceeding_min MIN_IOU_VALUE
  \/ e = exceeding_max MAX_IOU_VALUE.

(** A digit list is [headed] when it does not start with a zero, and
    [ended] when it does not end with one. *)
Definition headed (l : list Digit) : Prop := strip_leading l = l.
Definition ended (l : list Digit) : Prop := strip_trailing l = l.

(** A plain integer string: an optional minus sign and one or more digits;
    its sign and digits. *)
Definition plain_integer (s : string) : option (bool * list Digit) :=
  match s with
  | String "-" r => option_map (pair true) (nonempty_digits r)
  | _ => option_map (pair false) (nonempty_digits s)
  end.

(** Multiplication by a power of ten. *)
Definition dec_shift (k : Z) (a : Decimal) : Decimal :=
  match a with
  | DFin n ((_ :: _) as c) x => DFin n c (x + k)
  | _ => a
  end.

(** The decimals the engine builds: no leading or trailing zero in the
    coefficient, and exponent 0 for zero. *)
Definition dec_normal (a : Decimal) : Prop :=
  match a with
  | DNaN => True
  | DFin _ [] x => x = 0
  | DFin _ c _ => headed c /\ ended c
  end.

(** The fixed-point text of spec 4.7, on digits: the 16 digits of the
    mantissa are placed in a window of zeros, 27 before them and 23 after
    them, and the window is split at [k]; the integer part is what precedes
    the split without its leading zeros ("0" if nothing is left), the
    fraction what follows it without its trailing zeros, after a point when
    something is left. *)
Definition fixed_point_text (md : list Digit) (k : nat) : string :=
  let w := (zeros 27 ++ md ++ zeros 23)%list in
  let ip := strip_leading (firstn k w) in
  let fp := strip_trailing (skipn k w) in
  (match ip with []%list => "0" | _ => string_of_digits ip end)
  ++ (match fp with []%list => "" | _ => "." ++ string_of_digits fp end).

(** The drops of a native value: the value times 10^6, an integer when the
    value has at most 6 decimal places. *)
Definition drops_of (d : Decimal) : Z :=
  match d with
  | DFin n c x => (if n then -1 else 1) * Z.of_N (N_of_digits c) * 10 ^ (x + 6)
  | DNaN => 0
  end.

(** The same text on characters, as the fixed-point branch of [to_text]
    cuts it out of the window once its two regular expressions are read as
    stripping zeros. *)
Fixpoint strip_leading_zero_chars (s : string) : string :=
  match s with
  | String c r => if is_zero_char c then strip_leading_zero_chars r else s
  | EmptyString => EmptyString
  end.

Fixpoint strip_trailing_zero_chars (s : string) : string :=
  match s with
  | EmptyString => EmptyString
  | String c r =>
      match strip_trailing_zero_chars r with
      | EmptyString => if is_zero_char c then EmptyString else String c EmptyString
      | String _ _ as t => String c t
      end
  end.

Definition fixed_point_window (mantissa : string) (k : Z) : string :=
  let window := "000000000000000000000000000" ++ mantissa
                ++ "00000000000000000000000" in
  let int_part := strip_leading_zero_chars (js_substring window 0 k) in
  let frac_part := strip_trailing_zero_chars (js_substring_from window k) in
  (match int_part with EmptyString => "0" | String _ _ as t => t end)
  ++ (match frac_part with EmptyString => "" | String _ _ as t => "." ++ t end).

(** The value of a string of hexadecimal digits (0 for any other
    string). *)
Definition hex_N (s : string) : N :=
  match hex_value s 0%N with Some v => v | None => 0%N end.

(** The price a quality string encodes, as spec 4.6 decodes it.  Of the last
    16 hex characters the first 2 are the exponent plus 100 and the other 14
    the mantissa, each read as a number in base 16. *)
Definition quality_mantissa (q : string) : N :=
  match hex_digits (String.substring (String.length q - 14) 14 q) with
  | Some l => positional 16 l
  | None => 0%N
  end.

Definition quality_exponent (q : string) : Z :=
  match hex_digits (String.substring (String.length q - 16) 2 q) with
  | Some l => Z.of_N (positional 16 l) - 100
  | None => 0
  end.

(** The power of ten by which the decoded price is scaled: unless
    [xrp_as_drops], it is divided by 10^6 when the counter currency is
    native, and else multiplied by 10^6 when the base currency is native. *)
Definition quality_shift (counter : Currency) (opts : QualityOpts) : Z :=
  if xrp_as_drops opts then 0
  else if Cur.is_native counter then -6
  else if Cur.is_native (base_currency opts) then 6
  else 0.

(** The issued value mantissa * 10^(exponent - 100) is inverted when
    [inverse] is set, and scaled; a native result is rounded to 6 decimal
    places toward zero and made a native value; and with a reference date
    and a base currency that has interest the result is divided by the
    interest factor. *)
Definition quality_price (get_interest_at : Currency -> Z -> Decimal)
           (q : string) (counter : Currency) (opts : QualityOpts) : Value :=
  let base := base_currency opts in
  let v0 := IOUValue (Decimal_of_N false (quality_mantissa q) (quality_exponent q)) None in
  let v1 := if inverse opts then V.invert v0 else v0 in
  let v2 := mkValue IOU (dec_shift (quality_shift counter opts) (num v1)) in
  let v3 :=
    if Cur.is_native counter then mkValue XRP (dec_round 6 ROUND_DOWN (num v2)) else v2 in
  match reference_date opts with
  | Some date =>
      if Cur.has_interest base
      then V.divide v3 (IOUValue (get_interest_at base date) None)
      else v3
  | None => v3
  end.

(** A positive number: neither NaN, nor zero, nor negative. *)
Definition dec_positive (d : Decimal) : Prop :=
  match d with
  | DFin false (_ :: _) _ => True
  | _ => False
  end.

(** A non-negative integer of at most 17 digits, in normal form. *)
Definition small_int (d : Decimal) : Prop :=
  match d with
  | DNaN => False
  | DFin n [] x => n = false /\ x = 0
  | DFin n c x =>
      n = false /\ (0 <= x)%Z /\ (Z.of_nat (List.length c) + x <= 17)%Z
      /\ headed c /\ ended c
  end.

(** The options with the reference date left out. *)
Definition without_date (opts : QualityOpts) : QualityOpts :=
  mkQualityOpts (inverse opts) (base_currency opts) None (xrp_as_drops opts).

(** The rational number a decimal denotes (0 for NaN). *)
Definition dec_Q (a : Decimal) : Q :=
  match a with
  | DNaN => 0
  | DFin n c x =>
      inject_Z ((if n then -1 else 1) * Z.of_N (N_of_digits c)) * (10 # 1) ^ x
  end%Q.

(* ------------------------------------------------------------------ *)
(** ** Amount: comparison for debugging, JSON output, human input *)

(** The value of a returned Amount, or the exception. *)
Definition value_of (r : result Amount) : result Value :=
  match r with
  | Ok a => Ok (_value a)
  | Throw e => Throw e
  end.

(** The number a comparison stands for. *)
Definition sign_of (c : comparison) : Z :=
  match c with
  | Lt => -1
  | Eq => 0
  | Gt => 1
  end.

(** What [Decimal_of_string] makes of the text that follows the sign. *)
Definition parse_unsigned (n : bool) (body : string) : Decimal :=
  let (mant, ex) := split_at is_e_char body in
  let (ip, fp) := split_at is_dot_char mant in
  let frac := match fp with Some f => f | None => EmptyString end in
  match digits_of_string ip, digits_of_string frac with
  | Some di, Some df =>
      match di, fp, df with
      | [], None, _ | [], Some _, [] => DNaN
      | _, _, _ =>
          match ex with
          | None => mkDecimal n (di ++ df) (- Z.of_nat (List.length df))
          | Some t =>
              match parse_exponent t with
              | Some k => mkDecimal n (di ++ df) (k - Z.of_nat (List.length df))
              | None => DNaN
              end
          end
      end
  | _, _ => DNaN
  end.

(** A decimal text: integer digits, then a point and fraction digits when
    there are some, then "e" and an exponent part when there is one. *)
Definition decimal_text (ip : list Digit) (fp : option (list Digit)) (ex : option string)
  : string :=
  string_of_digits ip
  ++ (match fp with Some f => String "." (string_of_digits f) | None => EmptyString end)
  ++ (match ex with Some t => String "e" t | None => EmptyString end).

(** [r] has the native flag, the currency and the issuer of [a]. *)
Definition same_unit (a r : Amount) : Prop :=
  _is_native r = _is_native a /\ _currency r = _currency a /\ _issuer r = _issuer a.

(** Within the limits that [_check_limits] enforces, the absolute value
    being read as a rational number: at most 10^11 for a native Amount, from
    10^-81 to 9999999999999999 * 10^80 for an issued one; an invalid or zero
    Amount is within the limits. *)
Definition within_limits (a : Amount) : Prop :=
  is_valid a = true -> is_zero a = false ->
  let q := dec_Q (num (V.abs (_value a))) in
  if _is_native a then (q <= (10 # 1) ^ 11)%Q
  else ((10 # 1) ^ (-81) <= q)%Q /\ (q <= (9999999999999999 # 1) * (10 # 1) ^ 80)%Q.

(** The values the Value classes hand out: in normal form, an IOUValue with
    at most 16 significant digits, an XRPValue with at most 6 decimal
    places. *)
Definition canonical (v : Value) : Prop :=
  dec_normal (num v)
  /\ match num v with
     | DFin _ ((_ :: _) as c) x =>
         match kind v with
         | IOU => (List.length c <= 16)%nat
         | XRP => (-6 <= x)%Z
         end
     | _ => True
     end.

(** What the stages of the decoding of a quality hand on: non-negative issued values in
    canonical form. *)
Definition issued_nonneg (v : Value) : Prop :=
  kind v = IOU /\ canonical v /\ V.isNegative v = false.

Section AmountOutput.

Variable strict_mode : bool.
Variable Currency_from_json : string -> bool -> Currency.
Variable UInt160_from_json : string -> UInt160.
Variable get_interest_at : Currency -> Z -> Decimal.

(** [currency.to_json()], [currency.to_hex()] and [issuer.to_json()]: their
    code is not among the sources. *)
Variable Currency_to_json : Currency -> string.
Variable Currency_to_hex : Currency -> string.
Variable UInt160_to_json : UInt160 -> string.

(** The checks of [not_equals_why] once the operand is an Amount. *)
Definition not_equals_why_amount (this d : Amount) (ignore_issuer : bool) : option string :=
  if negb (is_valid this) || negb (is_valid d) then Some "Invalid amount."
  else if negb (Bool.eqb (_is_native this) (_is_native d)) then Some "Native mismatch."
  else
    let type := if _is_native this then "XRP" else "Non-XRP" in
    if negb (V.isZero (_value this)) && V.equals (V.negate (_value this)) (_value d)
    then Some (type ++ " sign differs.")
    else if negb (V.equals (_value this) (_value d))
    then Some (type ++ " value differs.")
    else if negb (_is_native this) then
      if negb (Cur.equals (_currency this) (_currency d))
      then Some "Non-XRP currency differs."
      else if negb ignore_issuer && negb (U160.equals (_issuer this) (_issuer d))
      then Some ("Non-XRP issuer differs: " ++ UInt160_to_json (_issuer d)
                 ++ "/" ++ UInt160_to_json (_issuer this))
      else None
    else None.

(** For debugging.  [None] is undefined: the function ends without a
    [return] when it finds no difference. *)
Definition not_equals_why (this : Amount) (d : JsVal) (ignore_issuer : bool)
  : result (option string) :=
  match d with
  | JString _ =>
      (* the recursive call drops [ignore_issuer] *)
      d' <- from_json strict_mode Currency_from_json UInt160_from_json d ;;
      Ok (not_equals_why_amount this d' false)
  | JAmount d' => Ok (not_equals_why_amount this d' ignore_issuer)
  | _ => Ok (Some "Not an Amount")
  end.

(** [to_json]: a native Amount is its text, an issued one the object
    [{value, currency, issuer}], the issuer being left out when it is not
    valid. *)
Definition to_json (this : Amount) : JsVal :=
  if _is_native this then JString (to_text this)
  else
    JObject
      (mkAmountJson
         (to_text this)
         (if Cur.has_interest (_currency this)
          then Currency_to_hex (_currency this)
          else Currency_to_json (_currency this))
         (if U160.is_valid (_issuer this)
          then Some (UInt160_to_json (_issuer this))
          else None)).

End AmountOutput.

(* ------------------------------------------------------------------ *)
(** ** Amount.parse_human *)

(** [s.split(sep)] for a separator of one character. *)
Fixpoint js_split (sep : ascii) (s : string) : list string :=
  match s with
  | EmptyString => [EmptyString]
  | String c r =>
      if Ascii.eqb c sep then EmptyString :: js_split sep r
      else
        match js_split sep r with
        | w :: ws => String c w :: ws
        | [] => [String c EmptyString]
        end
  end.

Definition is_alpha_char (c : ascii) : bool :=
  let n := N_of_ascii c in
  ((65 <=? n) && (n <=? 90) || (97 <=? n) && (n <=? 122))%N.

(** [toUpperCase] on the characters it meets here, which have matched one of
    the patterns below and so are ASCII. *)
Definition ascii_upper (c : ascii) : ascii :=
  let n := N_of_ascii c in
  if ((97 <=? n) && (n <=? 122))%N then ascii_of_N (n - 32) else c.

Fixpoint toUpperCase (s : string) : string :=
  match s with
  | EmptyString => EmptyString
  | String c r => String (ascii_upper c) (toUpperCase r)
  end.

(** The pattern ^[a-fA-F0-9]{40}$ *)
Definition hex_RE (s : string) : bool :=
  (String.length s =? 40)%nat && string_forallb is_hex_char s.

(** The pattern ^([a-zA-Z]{3}|[0-9]{3})$ *)
Definition currency_RE (s : string) : bool :=
  (String.length s =? 3)%nat
  && (string_forallb is_alpha_char s || string_forallb is_digit_char s).

(** The value of a run of digits in a base up to 16. *)
Fixpoint radix_value (base : N) (s : string) (acc : N) : option N :=
  match s with
  | EmptyString => Some acc
  | String c r =>
      match hex_of_ascii c with
      | Some h => if (h <? base)%N then radix_value base r (base * acc + h)%N else None
      | None => None
      end
  end.

(** The least magnitude that [Number] rounds to Infinity: 2^1024 - 2^970. *)
Definition js_overflow : N := (2 ^ 1024 - 2 ^ 970)%N.

(** Whether [Number(t)] is finite for a trimmed string [t]: nothing, an
    unsigned 0x, 0o or 0b literal, or a signed decimal literal, below the
    magnitude that rounds to Infinity. *)
Definition finite_literal (t : string) : bool :=
  let radix (base : N) (r : string) :=
    match r with
    | EmptyString => false
    | String _ _ =>
        match radix_value base r 0%N with
        | Some v => (v <? js_overflow)%N
        | None => false
        end
    end in
  match t with
  | EmptyString => true
  | String "0" (String ("x" | "X") r) => radix 16%N r
  | String "0" (String ("o" | "O") r) => radix 8%N r
  | String "0" (String ("b" | "B") r) => radix 2%N r
  | _ =>
      let body := match t with String ("+" | "-") r => r | _ => t end in
      match body with
      | String "-" _ => false
      | _ =>
          match Decimal_of_string body with
          | DNaN => false
          | d => dec_lt (dec_abs d) (Decimal_of_N false js_overflow 0)
          end
      end
  end.

(** The global [isFinite] applied to a string. *)
Definition js_isFinite (s : string) : bool := finite_literal (trim s).

(** [isNumber] of [parse_human]. *)
Definition isNumber (s : string) : bool := js_isFinite s && negb (String.eqb s "").

(** The value and the currency that [parse_human] reads, before the
    currency is put in upper case; [None] where it returns [new Amount()]. *)
Definition human_value_currency (j : string) : option (string * string) :=
  let words := filter (fun word => negb (String.eqb word "")) (js_split " " j) in
  match words with
  | [w] =>
      if isNumber w then Some (w, "XRP")
      else
        let len := Z.of_nat (String.length w) in
        let value := js_substring w 0 (len - 3) in      (* slice(0, -3) *)
        let currency := js_substring_from w (len - 3) in  (* slice(-3) *)
        if isNumber value && currency_RE currency then Some (value, currency) else None
  | [w0; w1] =>
      if isNumber w0 && hex_RE w1 then Some (w0, w1)
      else if currency_RE w0 && isNumber w1 then Some (w1, w0)
      else if isNumber w0 && currency_RE w1 then Some (w0, w1)
      else None
  | _ => None
  end.

Section AmountHuman.

Variable strict_mode : bool.
Variable Currency_from_json : string -> bool -> Currency.
Variable get_interest_at : Currency -> Z -> Decimal.

Definition set_currency (this : Amount) (c : string) : Amount :=
  let cur := Currency_from_json c false in
  mkAmount (_value this) (Cur.is_native cur) cur (_issuer this).

(** Tries to correctly interpret an amount as entered by a user. *)
Definition parse_human (this : Amount) (j : string) (opts_reference_date : option Z)
  : result Amount :=
  match human_value_currency j with
  | None => Ok Amount_new
  | Some (value, currency) =>
      let currency := toUpperCase currency in
      let this := set_currency this currency in
      let this := set_native this (String.eqb currency "XRP") in
      newValue <-
        (if _is_native this then XRPValue (Decimal_of_string value)
         else Ok (IOUValue (Decimal_of_string value) None)) ;;
      this <- _set_value strict_mode this (JValue newValue) ;;
      (* Apply interest/demurrage *)
      match opts_reference_date with
      | Some date =>
          if Cur.has_interest (_currency this) then
            let interest := get_interest_at (_currency this) date in
            _set_value strict_mode this
              (JValue (V.divide (_value this) (IOUValue interest None)))
          else Ok this
      | None => Ok this
      end
  end.

Definition from_human := parse_human Amount_new.

End AmountHuman.

(* ------------------------------------------------------------------ *)
(** ** Seed: JSON output *)

(** Modelled from the spec: [to_bytes] comes from UInt.prototype
    (src/core/uint.js), which is not among the sources; spec 3 and 4.3 make
    it the big-endian bytes of the value, [width] of them. *)
Fixpoint bytes_of_N (w : nat) (v : N) : list Byte.byte :=
  match w with
  | O => []
  | S k =>
      bytes_of_N k (v / 256)
      ++ [match Byte.of_N (v mod 256) with Some b => b | None => Byte.x00 end]
  end.

Definition Seed_to_bytes (this : Seed.Seed) : option (list Byte.byte) :=
  option_map (bytes_of_N Seed.width) (Seed._value this).

Section SeedJson.

(** [encodeSeed] of ripple-address-codec, an external package. *)
Variable encodeSeed : list Byte.byte -> Seed.KeyType -> string.

(** [to_json]; [None] is NaN. *)
Definition Seed_to_json (this : Seed.Seed) : option string :=
  if negb (Seed.is_valid this) then None
  else option_map (fun bytes => encodeSeed bytes (Seed._type this)) (Seed_to_bytes this).

End SeedJson.

(* ------------------------------------------------------------------ *)
(** ** The error classes (errors.js) *)

Module Errors.

(** The constructors of the module, and the built-in Error. *)
Inductive Class : Type :=
| BuiltinError
| RippleError
| ValidationError
| NetworkError
| RippledNetworkError
| TransactionError
| NotFoundError
| MissingLedgerHistoryError
| TimeOutError
| ApiError.

Definition Class_eqb (c d : Class) : bool :=
  match c, d with
  | BuiltinError, BuiltinError | RippleError, RippleError
  | ValidationError, ValidationError | NetworkError, NetworkError
  | RippledNetworkError, RippledNetworkError | TransactionError, TransactionError
  | NotFoundError, NotFoundError | MissingLedgerHistoryError, MissingLedgerHistoryError
  | TimeOutError, TimeOutError | ApiError, ApiError => true
  | _, _ => false
  end.

(** The message a constructor is called with: nothing, or a string. *)
Inductive Message : Type :=
| undefined
| text (s : string).

(** The objects at hand: the prototype object of each class, made once
    when the module is loaded, and the instances that [new] makes. *)
Inductive Obj : Type :=
| Prototype (c : Class)
| Instance (c : Class) (message : Message).

(** [this.message = ...] in each constructor. *)
Definition constructed_message (c : Class) (message : Message) : Message :=
  match c with
  | RippledNetworkError =>
      match message with
      | undefined => text "Cannot connect to rippled"
      | _ => message
      end
  | MissingLedgerHistoryError =>
      match message with
      | undefined | text EmptyString =>
          text "Server is missing ledger history in the specified range"
      | _ => message
      end
  | _ => message
  end.

(** The class [P] of [X.prototype = new P()]. *)
Definition parent (c : Class) : option Class :=
  match c with
  | BuiltinError => None
  | RippleError => Some BuiltinError
  | RippledNetworkError => Some NetworkError
  | _ => Some RippleError
  end.

(** The name of [X.prototype.name = '...'], where there is such a line. *)
Definition assigned_name (c : Class) : option string :=
  match c with
  | BuiltinError => Some "Error"
  | RippleError => Some "RippleError"
  | ValidationError => Some "ValidationError"
  | NetworkError => Some "NetworkError"
  | RippledNetworkError => None
  | TransactionError => Some "TransactionError"
  | NotFoundError => Some "NotFoundError"
  | MissingLedgerHistoryError => Some "MissingLedgerHistoryError"
  | TimeOutError => Some "TimeOutError"
  | ApiError => Some "ApiError"
  end.

(** The prototype of an object. *)
Definition proto (o : Obj) : option Obj :=
  match o with
  | Instance c _ => Some (Prototype c)
  | Prototype c => option_map Prototype (parent c)
  end.

(** The own properties [name] and [message] of an object.  A prototype
    object made by [new P()] has the message that [P] sets when called
    without one; [new Error()] sets none. *)
Definition own_name (o : Obj) : option string :=
  match o with
  | Prototype c => assigned_name c
  | Instance _ _ => None
  end.

Definition own_message (o : Obj) : option Message :=
  match o with
  | Instance c m => Some (constructed_message c m)
  | Prototype BuiltinError => Some (text "")
  | Prototype RippleError => None
  | Prototype c => option_map (fun p => constructed_message p undefined) (parent c)
  end.

(** Reading a property: the own one, or that of the prototype, up the
    chain; [fuel] bounds the length of the chain. *)
Fixpoint get {A : Type} (own : Obj -> option A) (fuel : nat) (o : Obj) : option A :=
  match own o with
  | Some v => Some v
  | None =>
      match fuel, proto o with
      | S f, Some p => get own f p
      | _, _ => None
      end
  end.

Definition Obj_eqb (o p : Obj) : bool :=
  match o, p with
  | Prototype c, Prototype d => Class_eqb c d
  | _, _ => false
  end.

(** [o instanceof C]: the prototype object of [C] is on the prototype chain
    of [o]. *)
Fixpoint instance_of (fuel : nat) (o : Obj) (c : Class) : bool :=
  match proto o with
  | Some p =>
      Obj_eqb p (Prototype c)
      || match fuel with
         | S f => instance_of f p c
         | O => false
         end
  | None => false
  end.

End Errors.

(* ================================================================== *)
(** * Properties *)

(** ** Digits *)

Lemma digits_of_string_of_digits (l : list Digit) :
  digits_of_string (string_of_digits l) = Some l.
Proof.
  induction l as [| d l IH]; [reflexivity |].
  simpl. rewrite IH. now destruct d.
Qed.

Lemma string_of_digits_app (l m : list Digit) :
  string_of_digits (l ++ m)%list = string_of_digits l ++ string_of_digits m.
Proof. induction l as [| d l IH]; simpl; [reflexivity | now rewrite IH]. Qed.

Lemma string_of_digits_length (l : list Digit) :
  String.length (string_of_digits l) = List.length l.
Proof. induction l as [| d l IH]; simpl; [reflexivity | now rewrite IH]. Qed.

Lemma string_of_digits_forall (p : ascii -> bool) (l : list Digit) :
  (forall d, p (ascii_of_digit d) = true) ->
  string_forallb p (string_of_digits l) = true.
Proof.
  intros H. induction l as [| d l IH]; simpl; [reflexivity |].
  now rewrite H, IH.
Qed.

Lemma string_of_digits_exists (p : ascii -> bool) (l : list Digit) :
  (forall d, p (ascii_of_digit d) = false) ->
  string_existsb p (string_of_digits l) = false.
Proof.
  intros H. induction l as [| d l IH]; simpl; [reflexivity |].
  now rewrite H, IH.
Qed.

Lemma split_at_none (p : ascii -> bool) (s : string) :
  string_existsb p s = false -> split_at p s = (s, None).
Proof.
  induction s as [| c s IH]; simpl; [reflexivity |].
  intros H. apply orb_false_iff in H. destruct H as [Hc Hs].
  now rewrite Hc, (IH Hs).
Qed.

Lemma split_at_app (p : ascii -> bool) (s r : string) (c : ascii) :
  string_existsb p s = false -> p c = true ->
  split_at p (s ++ String c r) = (s, Some r).
Proof.
  intros Hs Hc. induction s as [| a s IH]; simpl.
  - now rewrite Hc.
  - simpl in Hs. apply orb_false_iff in Hs. destruct Hs as [Ha Hs].
    now rewrite Ha, (IH Hs).
Qed.

(** *** Leading and trailing zeros *)

Local Open Scope list_scope.

Lemma zeros_S (k : nat) : zeros (S k) = dg0 :: zeros k.
Proof. reflexivity. Qed.

Lemma strip_leading_zeros_app (k : nat) (l : list Digit) :
  strip_leading (zeros k ++ l) = strip_leading l.
Proof. induction k as [| k IH]; simpl; [reflexivity | exact IH]. Qed.

Lemma strip_leading_idem (l : list Digit) :
  strip_leading (strip_leading l) = strip_leading l.
Proof.
  induction l as [| d l IH]; [reflexivity |].
  simpl. destruct (is_dg0 d) eqn:E; [exact IH |]. simpl. now rewrite E.
Qed.

Lemma strip_leading_decomp (l : list Digit) :
  l = zeros (List.length l - List.length (strip_leading l)) ++ strip_leading l.
Proof.
  induction l as [| d l IH]; [reflexivity |].
  simpl strip_leading. destruct (is_dg0 d) eqn:E.
  - assert (Hle : (List.length (strip_leading l) <= List.length l)%nat).
    { clear. induction l as [| a l IH]; simpl; [lia |].
      destruct (is_dg0 a); simpl; lia. }
    change (List.length (d :: l)) with (S (List.length l)).
    rewrite Nat.sub_succ_l by exact Hle.
    rewrite zeros_S, <- app_comm_cons, <- IH. destruct d; try discriminate E. reflexivity.
  - now rewrite Nat.sub_diag.
Qed.

Lemma strip_leading_length (l : list Digit) :
  (List.length (strip_leading l) <= List.length l)%nat.
Proof.
  induction l as [| a l IH]; simpl; [lia |].
  destruct (is_dg0 a); simpl; lia.
Qed.

Lemma zeros_rev (k : nat) : rev (zeros k) = zeros k.
Proof.
  unfold zeros. induction k as [| k IH]; [reflexivity |].
  simpl. rewrite IH. clear. induction k; simpl; [reflexivity | now f_equal].
Qed.

Lemma zeros_length (k : nat) : List.length (zeros k) = k.
Proof. apply repeat_length. Qed.

Lemma zeros_plus (j k : nat) : zeros (j + k) = zeros j ++ zeros k.
Proof. apply repeat_app. Qed.

Lemma strip_trailing_app_zeros (l : list Digit) (k : nat) :
  strip_trailing (l ++ zeros k) = strip_trailing l.
Proof.
  unfold strip_trailing. now rewrite rev_app_distr, zeros_rev, strip_leading_zeros_app.
Qed.

Lemma strip_trailing_length (l : list Digit) :
  (List.length (strip_trailing l) <= List.length l)%nat.
Proof.
  unfold strip_trailing. rewrite length_rev.
  rewrite <- (length_rev l). apply strip_leading_length.
Qed.

Lemma strip_trailing_decomp (l : list Digit) :
  l = strip_trailing l ++ zeros (List.length l - List.length (strip_trailing l)).
Proof.
  unfold strip_trailing.
  rewrite <- (rev_involutive l) at 1.
  rewrite (strip_leading_decomp (rev l)) at 1.
  rewrite rev_app_distr, zeros_rev. now rewrite !length_rev.
Qed.

Lemma strip_trailing_idem (l : list Digit) :
  strip_trailing (strip_trailing l) = strip_trailing l.
Proof.
  unfold strip_trailing. now rewrite rev_involutive, strip_leading_idem.
Qed.

Lemma headed_strip (l : list Digit) : headed (strip_leading l).
Proof. apply strip_leading_idem. Qed.

Lemma ended_strip (l : list Digit) : ended (strip_trailing l).
Proof. apply strip_trailing_idem. Qed.

Lemma headed_cons (d : Digit) (l : list Digit) :
  headed (d :: l) <-> is_dg0 d = false.
Proof.
  unfold headed. simpl. destruct (is_dg0 d) eqn:E; split; auto; try discriminate.
  intros H. pose proof (strip_leading_length l) as L. rewrite H in L. simpl in L. lia.
Qed.

Lemma headed_app (l m : list Digit) : l <> [] -> headed l -> headed (l ++ m).
Proof.
  destruct l as [| d l]; [congruence |].
  intros _ H. apply headed_cons in H. now apply (headed_cons d (l ++ m)).
Qed.

Lemma ended_rev (l : list Digit) : ended l <-> headed (rev l).
Proof.
  unfold ended, headed, strip_trailing. split; intros H.
  - rewrite <- H at 2. now rewrite rev_involutive.
  - now rewrite H, rev_involutive.
Qed.

Lemma headed_strip_trailing (l : list Digit) : headed l -> headed (strip_trailing l).
Proof.
  intros H. destruct l as [| d l]; [exact H |].
  apply headed_cons in H.
  pose proof (strip_trailing_decomp (d :: l)) as E.
  destruct (strip_trailing (d :: l)) as [| d' l'] eqn:S.
  - reflexivity.
  - simpl in E. injection E as Ed _. apply headed_cons. now rewrite <- Ed.
Qed.

Lemma strip_trailing_nonempty (d : Digit) (l : list Digit) :
  is_dg0 d = false -> strip_trailing (d :: l) <> [].
Proof.
  intros H E. pose proof (strip_trailing_decomp (d :: l)) as D.
  rewrite E in D. simpl in D.
  injection D as Hd _. subst d. discriminate H.
Qed.

Local Open Scope string_scope.

(** *** Digits and numbers *)

Local Open Scope list_scope.

Lemma N_of_digit_lt (d : Digit) : (N_of_digit d < 10)%N.
Proof. destruct d; reflexivity. Qed.

Lemma digit_of_N_of_digit (d : Digit) : digit_of_N (N_of_digit d) = d.
Proof. destruct d; reflexivity. Qed.

Lemma is_dg0_N (d : Digit) : is_dg0 d = (N_of_digit d =? 0)%N.
Proof. destruct d; reflexivity. Qed.

Lemma fold_digits_acc (l : list Digit) (acc : N) :
  fold_left (fun a d => (10 * a + N_of_digit d)%N) l acc
  = (acc * 10 ^ N.of_nat (List.length l) + N_of_digits l)%N.
Proof.
  unfold N_of_digits. revert acc.
  induction l as [| d l IH]; intros acc.
  - simpl. lia.
  - cbn [fold_left List.length]. rewrite IH, (IH (10 * 0 + N_of_digit d)%N).
    rewrite Nat2N.inj_succ, N.pow_succ_r'. lia.
Qed.

Lemma N_of_digits_cons (d : Digit) (l : list Digit) :
  N_of_digits (d :: l) = (N_of_digit d * 10 ^ N.of_nat (List.length l) + N_of_digits l)%N.
Proof.
  unfold N_of_digits at 1. cbn [fold_left]. rewrite fold_digits_acc. lia.
Qed.

Lemma N_of_digits_app (l m : list Digit) :
  N_of_digits (l ++ m) = (N_of_digits l * 10 ^ N.of_nat (List.length m) + N_of_digits m)%N.
Proof.
  unfold N_of_digits at 1. rewrite fold_left_app.
  fold (N_of_digits l). apply fold_digits_acc.
Qed.

Lemma N_of_digits_zeros (k : nat) : N_of_digits (zeros k) = 0%N.
Proof.
  induction k as [| k IH]; [reflexivity |].
  rewrite zeros_S, N_of_digits_cons, IH. simpl. lia.
Qed.

Lemma N_of_digits_strip_leading (l : list Digit) :
  N_of_digits (strip_leading l) = N_of_digits l.
Proof.
  rewrite (strip_leading_decomp l) at 2.
  rewrite N_of_digits_app, N_of_digits_zeros. lia.
Qed.

Lemma N_of_digits_snoc (l : list Digit) (d : Digit) :
  N_of_digits (l ++ [d]) = (10 * N_of_digits l + N_of_digit d)%N.
Proof.
  rewrite N_of_digits_app.
  change (N.of_nat (List.length [d])) with 1%N.
  change (N_of_digits [d]) with (10 * 0 + N_of_digit d)%N.
  rewrite N.pow_1_r. lia.
Qed.

Lemma N_of_digits_headed_pos (l : list Digit) :
  headed l -> l <> [] -> (0 < N_of_digits l)%N.
Proof.
  destruct l as [| d l]; [congruence |].
  intros H _. apply headed_cons in H. rewrite is_dg0_N in H.
  apply N.eqb_neq in H. rewrite N_of_digits_cons.
  assert (0 < 10 ^ N.of_nat (List.length l))%N by (apply N.neq_0_lt_0, N.pow_nonzero; lia).
  nia.
Qed.

Lemma digits_fuel_acc (f : nat) (n : N) (acc : list Digit) :
  digits_fuel f n acc = digits_fuel f n [] ++ acc.
Proof.
  revert n acc. induction f as [| f IH]; intros n acc; [reflexivity |].
  simpl. destruct (n =? 0)%N; [reflexivity |].
  rewrite IH, (IH _ [_]), <- app_assoc. reflexivity.
Qed.

Lemma digits_fuel_enough (f g : nat) (n : N) :
  (n < 2 ^ N.of_nat f)%N -> (f <= g)%nat ->
  digits_fuel g n [] = digits_fuel f n [].
Proof.
  revert g n. induction f as [| f IH]; intros g n Hn Hg.
  - simpl in Hn. assert (n = 0%N) by lia. subst n.
    destruct g; reflexivity.
  - destruct g as [| g]; [lia |].
    simpl. destruct (n =? 0)%N eqn:E; [reflexivity |].
    rewrite digits_fuel_acc, (digits_fuel_acc f).
    f_equal. apply IH; [| lia].
    rewrite Nat2N.inj_succ, N.pow_succ_r' in Hn.
    apply N.Div0.div_lt_upper_bound. lia.
Qed.

Lemma digits_of_N_0 : digits_of_N 0 = [].
Proof. reflexivity. Qed.

Lemma lt_pow2_log2 (n : N) : (n < 2 ^ N.of_nat (S (N.to_nat (N.log2 n))))%N.
Proof.
  rewrite Nat2N.inj_succ, N2Nat.id.
  destruct (N.eq_dec n 0) as [-> | H]; [reflexivity |].
  apply N.log2_spec. lia.
Qed.

(** The digits of a positive number: those of its tenth, then its last. *)
Lemma digits_of_N_step (n : N) :
  n <> 0%N ->
  digits_of_N n = digits_of_N (n / 10) ++ [digit_of_N (n mod 10)].
Proof.
  intros H. unfold digits_of_N at 1.
  cbn [digits_fuel]. apply N.eqb_neq in H. rewrite H.
  rewrite digits_fuel_acc. f_equal.
  pose proof (lt_pow2_log2 n) as B.
  rewrite Nat2N.inj_succ, N.pow_succ_r' in B.
  assert (B' : (n / 10 < 2 ^ N.of_nat (N.to_nat (N.log2 n)))%N).
  { apply N.Div0.div_lt_upper_bound. lia. }
  unfold digits_of_N.
  set (g := Nat.max (N.to_nat (N.log2 n)) (S (N.to_nat (N.log2 (n / 10))))).
  rewrite <- (digits_fuel_enough _ g _ B') by (subst g; lia).
  rewrite <- (digits_fuel_enough _ g _ (lt_pow2_log2 (n / 10))) by (subst g; lia).
  reflexivity.
Qed.

Lemma N_of_digit_of_N (m : N) : (m < 10)%N -> N_of_digit (digit_of_N m) = m.
Proof.
  intros H. destruct m as [| p]; [reflexivity |].
  do 4 (destruct p as [p | p |]; try reflexivity; try lia).
Qed.

Lemma N_of_digits_of_N (n : N) : N_of_digits (digits_of_N n) = n.
Proof.
  induction n as [n IH] using (well_founded_induction N.lt_wf_0).
  destruct (N.eq_dec n 0) as [-> | H]; [reflexivity |].
  rewrite (digits_of_N_step n H), N_of_digits_snoc.
  rewrite IH by (apply N.div_lt; lia).
  assert (Hm : (n mod 10 < 10)%N) by (apply N.mod_lt; lia).
  pose proof (N_of_digit_of_N _ Hm) as H0.
  rewrite H0. rewrite (N.div_mod n 10) at 3 by lia. lia.
Qed.

Lemma digits_of_N_of_digits (l : list Digit) :
  digits_of_N (N_of_digits l) = strip_leading l.
Proof.
  induction l as [| d l IH] using rev_ind; [reflexivity |].
  rewrite N_of_digits_snoc.
  pose proof (N_of_digit_lt d) as Hd.
  destruct (N.eq_dec (10 * N_of_digits l + N_of_digit d) 0) as [E | E].
  - rewrite E, digits_of_N_0.
    assert (Hl : N_of_digits l = 0%N) by lia.
    assert (Hd0 : N_of_digit d = 0%N) by lia.
    rewrite Hl in IH. rewrite digits_of_N_0 in IH.
    pose proof (strip_leading_decomp l) as D.
    rewrite <- IH, app_nil_r in D.
    rewrite D, strip_leading_zeros_app.
    simpl. rewrite is_dg0_N, Hd0. reflexivity.
  - rewrite (digits_of_N_step _ E).
    replace ((10 * N_of_digits l + N_of_digit d) / 10)%N with (N_of_digits l).
    2:{ symmetry. rewrite N.mul_comm. rewrite N.div_add_l by lia.
        rewrite (N.div_small (N_of_digit d)) by exact Hd. lia. }
    replace ((10 * N_of_digits l + N_of_digit d) mod 10)%N with (N_of_digit d).
    2:{ symmetry. rewrite N.add_comm, N.mul_comm, N.Div0.mod_add.
        now apply N.mod_small. }
    rewrite IH, digit_of_N_of_digit.
    rewrite (strip_leading_decomp l) at 2.
    rewrite <- app_assoc, strip_leading_zeros_app.
    destruct (strip_leading l) as [| a r] eqn:S.
    + simpl. rewrite is_dg0_N.
      assert (Hl : N_of_digits l = 0%N).
      { rewrite <- N_of_digits_strip_leading, S. reflexivity. }
      rewrite Hl in E.
      destruct (N_of_digit d =? 0)%N eqn:Z; [apply N.eqb_eq in Z; lia | reflexivity].
    + assert (Ha : is_dg0 a = false).
      { apply (headed_cons a r). rewrite <- S. apply headed_strip. }
      simpl. now rewrite Ha.
Qed.

Lemma digits_of_N_headed (n : N) : headed (digits_of_N n).
Proof.
  pose proof (digits_of_N_of_digits (digits_of_N n)) as H.
  rewrite N_of_digits_of_N in H. unfold headed. now symmetry.
Qed.

Lemma digits_of_N_length (k : nat) (n : N) :
  (n < 10 ^ N.of_nat k)%N -> (List.length (digits_of_N n) <= k)%nat.
Proof.
  revert n. induction k as [| k IH]; intros n H.
  - simpl in H. assert (n = 0%N) by lia. subst n. simpl. lia.
  - destruct (N.eq_dec n 0) as [-> | E]; [simpl; lia |].
    rewrite (digits_of_N_step n E), length_app. simpl.
    rewrite Nat2N.inj_succ, N.pow_succ_r' in H.
    assert (n / 10 < 10 ^ N.of_nat k)%N by (apply N.Div0.div_lt_upper_bound; lia).
    specialize (IH _ H0). lia.
Qed.

Lemma digits_of_N_pow10 (n : N) (k : nat) :
  n <> 0%N -> digits_of_N (n * 10 ^ N.of_nat k) = digits_of_N n ++ zeros k.
Proof.
  intros H.
  rewrite <- (N_of_digits_of_N n) at 1.
  replace (N_of_digits (digits_of_N n) * 10 ^ N.of_nat k)%N
    with (N_of_digits (digits_of_N n ++ zeros k)).
  2:{ rewrite N_of_digits_app, N_of_digits_zeros, zeros_length. lia. }
  rewrite digits_of_N_of_digits.
  apply headed_app; [| apply digits_of_N_headed].
  intros E. apply H. rewrite <- (N_of_digits_of_N n), E. reflexivity.
Qed.

Local Open Scope string_scope.

(** ** Normal forms of the decimal engine *)

Local Open Scope list_scope.

Lemma mkDecimal_normal (n : bool) (c : list Digit) (x : Z) :
  c <> [] -> headed c -> ended c -> mkDecimal n c x = DFin n c x.
Proof.
  intros Hc Hh He. unfold mkDecimal. rewrite Hh, He.
  destruct c as [| d c]; [congruence |].
  rewrite Nat.sub_diag. f_equal. lia.
Qed.

Lemma mkDecimal_zero (n : bool) (c : list Digit) (x : Z) :
  strip_leading c = [] -> mkDecimal n c x = DFin n [] 0.
Proof. intros H. unfold mkDecimal. now rewrite H. Qed.

Lemma strip_leading_app_nonempty (c m : list Digit) :
  strip_leading c <> [] -> strip_leading (c ++ m) = strip_leading c ++ m.
Proof.
  induction c as [| d c IH]; simpl; [congruence |].
  destruct (is_dg0 d); [exact IH | reflexivity].
Qed.

Lemma strip_leading_all_zero (c : list Digit) :
  strip_leading c = [] -> c = zeros (List.length c).
Proof.
  intros H. pose proof (strip_leading_decomp c) as D.
  rewrite H, app_nil_r, Nat.sub_0_r in D. exact D.
Qed.

Lemma mkDecimal_app_zeros (n : bool) (c : list Digit) (k : nat) (x : Z) :
  mkDecimal n (c ++ zeros k) x = mkDecimal n c (x + Z.of_nat k).
Proof.
  destruct (strip_leading c) as [| d r] eqn:S.
  - rewrite (mkDecimal_zero n c) by exact S.
    apply mkDecimal_zero.
    rewrite (strip_leading_all_zero c S), <- zeros_plus.
    rewrite <- (app_nil_r (zeros _)). now rewrite strip_leading_zeros_app.
  - unfold mkDecimal.
    rewrite strip_leading_app_nonempty by (rewrite S; discriminate).
    rewrite S, strip_trailing_app_zeros.
    destruct (strip_trailing (d :: r)) eqn:T; [reflexivity |].
    f_equal. rewrite length_app, zeros_length.
    pose proof (strip_trailing_length (d :: r)) as L. rewrite T in L.
    lia.
Qed.

Lemma mkDecimal_shift (n : bool) (c : list Digit) (x k : Z) :
  mkDecimal n c (x + k) = dec_shift k (mkDecimal n c x).
Proof.
  unfold mkDecimal. destruct (strip_trailing (strip_leading c)); simpl; [reflexivity |].
  f_equal. lia.
Qed.

Lemma dec_toDigits_shift (sd : nat) (k : Z) (a : Decimal) :
  dec_toDigits sd ROUND_DOWN (dec_shift k a) = dec_shift k (dec_toDigits sd ROUND_DOWN a).
Proof.
  destruct a as [| n [| d c] x]; try reflexivity.
  unfold dec_shift at 1. unfold dec_toDigits.
  destruct (List.length (d :: c) <=? sd)%nat; [reflexivity |].
  unfold cut_digits, round_up.
  rewrite <- mkDecimal_shift. f_equal. lia.
Qed.

Lemma mkDecimal_is_normal (n : bool) (c : list Digit) (x : Z) :
  dec_normal (mkDecimal n c x).
Proof.
  unfold mkDecimal.
  destruct (strip_trailing (strip_leading c)) eqn:T; simpl; [reflexivity |].
  rewrite <- T. split.
  - apply headed_strip_trailing, headed_strip.
  - apply ended_strip.
Qed.

Lemma mkDecimal_sign (n : bool) (c : list Digit) (x : Z) :
  dec_isNegative (mkDecimal n c x) = n.
Proof.
  unfold mkDecimal. destruct (strip_trailing (strip_leading c)); now destruct n.
Qed.

Lemma mkDecimal_not_NaN (n : bool) (c : list Digit) (x : Z) :
  dec_isNaN (mkDecimal n c x) = false.
Proof. unfold mkDecimal. now destruct (strip_trailing (strip_leading c)). Qed.

(** The normal form of a digit list: its coefficient and the number of
    trailing zeros dropped. *)
Lemma mkDecimal_cases (n : bool) (c : list Digit) (x : Z) :
  (N_of_digits c = 0%N /\ mkDecimal n c x = DFin n [] 0)
  \/ (exists (c' : list Digit) (k : nat),
         c' <> [] /\ headed c' /\ ended c'
         /\ N_of_digits c = (N_of_digits c' * 10 ^ N.of_nat k)%N
         /\ mkDecimal n c x = DFin n c' (x + Z.of_nat k)).
Proof.
  unfold mkDecimal.
  destruct (strip_trailing (strip_leading c)) as [| d r] eqn:T.
  - left. split; [| reflexivity].
    rewrite <- N_of_digits_strip_leading.
    rewrite (strip_trailing_decomp (strip_leading c)), T. simpl.
    apply N_of_digits_zeros.
  - right. exists (d :: r), (List.length (strip_leading c) - List.length (d :: r))%nat.
    rewrite <- T. repeat split.
    + rewrite T. discriminate.
    + apply headed_strip_trailing, headed_strip.
    + apply ended_strip.
    + rewrite <- N_of_digits_strip_leading.
      rewrite (strip_trailing_decomp (strip_leading c)) at 1.
      rewrite N_of_digits_app, N_of_digits_zeros, zeros_length. lia.
Qed.

Local Open Scope string_scope.

(** ** The order of the engine is the order of the rationals *)

Lemma ten_nonzero : ~ (10 # 1 == 0)%Q.
Proof. discriminate. Qed.

Lemma dec_Q_scaled (n : bool) (c : list Digit) (x m : Z) :
  (m <= x)%Z ->
  (dec_Q (DFin n c x) == inject_Z (scaled n c (x - m)) * (10 # 1) ^ m)%Q.
Proof.
  intros H. unfold dec_Q, scaled.
  rewrite !inject_Z_mult.
  rewrite (Zpower_Qpower 10 (x - m)) by lia.
  change (inject_Z 10) with (10 # 1)%Q.
  replace x with ((x - m) + m)%Z at 1 by lia.
  rewrite (Qpower_plus _ _ _ ten_nonzero).
  ring.
Qed.

Lemma dec_cmp_Q (na nb : bool) (ca cb : list Digit) (xa xb : Z) :
  dec_cmp (DFin na ca xa) (DFin nb cb xb)
  = Some (dec_Q (DFin na ca xa) ?= dec_Q (DFin nb cb xb))%Q.
Proof.
  unfold dec_cmp. set (m := Z.min xa xb).
  pose proof (dec_Q_scaled na ca xa m ltac:(subst m; lia)) as Ha.
  pose proof (dec_Q_scaled nb cb xb m ltac:(subst m; lia)) as Hb.
  assert (P : (0 < (10 # 1) ^ m)%Q) by (apply Qpower_0_lt; reflexivity).
  f_equal. symmetry.
  destruct (Z.compare_spec (scaled na ca (xa - m)) (scaled nb cb (xb - m))) as [E | L | G].
  - apply Qeq_alt. rewrite Ha, Hb, E. reflexivity.
  - apply Qlt_alt. rewrite Ha, Hb. apply Qmult_lt_compat_r; [exact P |].
    now rewrite <- Zlt_Qlt.
  - apply Qgt_alt. rewrite Ha, Hb. apply Qmult_lt_compat_r; [exact P |].
    now rewrite <- Zlt_Qlt.
Qed.

Lemma dec_gt_Q (a b : Decimal) :
  dec_isNaN a = false -> dec_isNaN b = false ->
  (dec_gt a b = true <-> (dec_Q b < dec_Q a)%Q).
Proof.
  destruct a as [| na ca xa], b as [| nb cb xb]; try discriminate. intros _ _.
  unfold dec_gt. rewrite dec_cmp_Q.
  destruct (dec_Q (DFin na ca xa) ?= dec_Q (DFin nb cb xb))%Q eqn:C.
  - split; [discriminate |]. intros H. apply (proj1 (Qgt_alt _ _)) in H. congruence.
  - split; [discriminate |]. intros H. apply (proj1 (Qgt_alt _ _)) in H. congruence.
  - split; [| reflexivity]. intros _. now apply Qgt_alt.
Qed.

Lemma dec_lt_Q (a b : Decimal) :
  dec_isNaN a = false -> dec_isNaN b = false ->
  (dec_lt a b = true <-> (dec_Q a < dec_Q b)%Q).
Proof.
  destruct a as [| na ca xa], b as [| nb cb xb]; try discriminate. intros _ _.
  unfold dec_lt. rewrite dec_cmp_Q.
  destruct (dec_Q (DFin na ca xa) ?= dec_Q (DFin nb cb xb))%Q eqn:C.
  - split; [discriminate |]. intros H. apply (proj1 (Qlt_alt _ _)) in H. congruence.
  - split; [| reflexivity]. intros _. now apply Qlt_alt.
  - split; [discriminate |]. intros H. apply (proj1 (Qlt_alt _ _)) in H. congruence.
Qed.

Lemma cut_digits_not_NaN (rm : RoundingMode) (n : bool) (c : list Digit) (k : nat) (x : Z) :
  dec_isNaN (cut_digits rm n c k x) = false.
Proof.
  unfold cut_digits, Decimal_of_N.
  destruct (round_up rm (nth k c dg0)); apply mkDecimal_not_NaN.
Qed.

Lemma canonicalize_not_NaN (k : ValueKind) (d : Decimal) :
  dec_isNaN d = false -> V.isNaN (canonicalize k d) = false.
Proof.
  destruct d as [| n c x]; [discriminate |]. intros _.
  destruct k; unfold canonicalize, V.isNaN; cbn [num].
  - unfold dec_round.
    destruct (- x - 6 <=? 0)%Z; [reflexivity |].
    destruct (Z.of_nat (List.length c) <? - x - 6)%Z; [reflexivity |].
    apply cut_digits_not_NaN.
  - unfold dec_toDigits.
    destruct (List.length c <=? 16)%nat; [reflexivity |].
    apply cut_digits_not_NaN.
Qed.

Lemma abs_not_NaN (v : Value) : V.isNaN v = false -> V.isNaN (V.abs v) = false.
Proof.
  intros H. unfold V.abs. apply canonicalize_not_NaN.
  destruct v as [k []]; [discriminate H | reflexivity].
Qed.

Lemma MAX_XRP_VALUE_Q : (dec_Q (num MAX_XRP_VALUE) == (10 # 1) ^ 11)%Q.
Proof. vm_compute. reflexivity. Qed.

Lemma MIN_IOU_VALUE_Q : (dec_Q (num MIN_IOU_VALUE) == (10 # 1) ^ (-81))%Q.
Proof. vm_compute. reflexivity. Qed.

Lemma MAX_IOU_VALUE_Q :
  (dec_Q (num MAX_IOU_VALUE) == (9999999999999999 # 1) * (10 # 1) ^ 80)%Q.
Proof. vm_compute. reflexivity. Qed.

Lemma MIN_below_MAX : ((10 # 1) ^ (-81) < (9999999999999999 # 1) * (10 # 1) ^ 80)%Q.
Proof. vm_compute. reflexivity. Qed.

(** ** Basic facts about values *)

Lemma dec_isNaN_neg (d : Decimal) : dec_isNaN (dec_neg d) = dec_isNaN d.
Proof. destruct d; reflexivity. Qed.

Lemma dec_times_NaN_r (d : Decimal) : dec_times d DNaN = DNaN.
Proof. destruct d; reflexivity. Qed.

Lemma canonicalize_NaN (k : ValueKind) : V.isNaN (canonicalize k DNaN) = true.
Proof. destruct k; reflexivity. Qed.

Lemma operand_NaN (w : Value) : V.isNaN w = true -> V.operand w = DNaN.
Proof.
  destruct w as [k d]; unfold V.isNaN, V.operand; simpl.
  destruct d; [intros _ | discriminate].
  destruct k; reflexivity.
Qed.

Lemma multiply_NaN (v w : Value) :
  V.isNaN v = true \/ V.isNaN w = true -> V.isNaN (V.multiply v w) = true.
Proof.
  unfold V.multiply. intros [H | H].
  - destruct v as [k d]; unfold V.isNaN in H; simpl in *.
    destruct d; [apply canonicalize_NaN | discriminate].
  - rewrite (operand_NaN _ H), dec_times_NaN_r. apply canonicalize_NaN.
Qed.

Lemma isNaN_not_zero (v : Value) : V.isNaN v = true -> V.isZero v = false.
Proof. destruct v as [k []]; [reflexivity | discriminate]. Qed.

Lemma is_valid_negate (a : Amount) : is_valid (negate a) = is_valid a.
Proof.
  unfold is_valid, negate, clone, copyTo, V.isNaN, V.negate; simpl.
  now rewrite dec_isNaN_neg.
Qed.

Lemma copyTo_id (a d : Amount) : copyTo a d false = a.
Proof. destruct a; reflexivity. Qed.

Lemma clone_id (a : Amount) : clone a false = a.
Proof. apply copyTo_id. Qed.

Lemma is_valid_Amount_new : is_valid Amount_new = false.
Proof. reflexivity. Qed.

Lemma dec_times_not_NaN (a b : Decimal) :
  dec_isNaN a = false -> dec_isNaN b = false -> dec_isNaN (dec_times a b) = false.
Proof.
  destruct a, b; try discriminate. intros _ _. apply mkDecimal_not_NaN.
Qed.

Lemma operand_not_NaN (w : Value) :
  V.isNaN w = false -> dec_isNaN (V.operand w) = false.
Proof.
  destruct w as [[] d]; unfold V.isNaN, V.operand; cbn [kind num]; intros H.
  - now apply dec_times_not_NaN.
  - exact H.
Qed.

Lemma multiply_not_NaN (v w : Value) :
  V.isNaN v = false -> V.isNaN w = false -> V.isNaN (V.multiply v w) = false.
Proof.
  intros Hv Hw. unfold V.multiply. apply canonicalize_not_NaN.
  apply dec_times_not_NaN; [exact Hv | now apply operand_not_NaN].
Qed.

Lemma stored_value_isNaN (v : Value) : V.isNaN (stored_value v) = V.isNaN v.
Proof.
  unfold stored_value. destruct (V.isZero v && V.isNegative v); [| reflexivity].
  unfold V.isNaN, V.negate. cbn [num]. apply dec_isNaN_neg.
Qed.

Lemma _set_value_nonstrict (this : Amount) (v : Value) :
  _set_value false this (JValue v) = Ok (set_value this (stored_value v)).
Proof. reflexivity. Qed.

(** ** What the range check lets through *)

Lemma stored_value_nonzero (v : Value) : V.isZero v = false -> stored_value v = v.
Proof. unfold stored_value. now intros ->. Qed.

Lemma _set_value_throws_only_range (strict : bool) (this : Amount) (v : Value) (e : Exn) :
  _set_value strict this (JValue v) = Throw e ->
  strict = true
  /\ (e = exceeding_max MAX_XRP_VALUE \/ e = exceeding_min MIN_IOU_VALUE
      \/ e = exceeding_max MAX_IOU_VALUE).
Proof.
  unfold _set_value, _check_limits.
  destruct strict; simpl; [| discriminate].
  repeat match goal with
         | |- context [if ?b then _ else _] => destruct b
         end; intros H; inversion H; auto.
Qed.

Lemma _set_value_nonneg (strict : bool) (this : Amount) (v : Value) :
  V.isNegative v = false ->
  _set_value strict this (JValue v) = _check_limits strict (set_value this v).
Proof. intros H. unfold _set_value. now rewrite H, andb_false_r. Qed.

Lemma _check_limits_ok (strict : bool) (this a : Amount) :
  _check_limits strict this = Ok a -> a = this.
Proof.
  unfold _check_limits.
  repeat match goal with
         | |- context [if ?b then _ else _] => destruct b
         end; intros H; now inversion H.
Qed.

Lemma _set_value_ok (strict : bool) (this r : Amount) (v : Value) :
  _set_value strict this (JValue v) = Ok r -> r = set_value this (stored_value v).
Proof. unfold _set_value. fold (stored_value v). apply _check_limits_ok. Qed.

Lemma _check_limits_within (x : Amount) :
  _check_limits true x = Ok x -> within_limits x.
Proof.
  unfold _check_limits, within_limits, is_valid, is_zero. cbn [negb].
  intros H Hv Hz. apply negb_true_iff in Hv. rewrite Hv, Hz in H. cbn [orb] in H.
  pose proof (abs_not_NaN _ Hv) as HA. unfold V.isNaN in HA.
  cbv zeta. unfold V.greaterThan, V.lessThan in H.
  destruct (_is_native x).
  - destruct (dec_gt (num (V.abs (_value x))) (num MAX_XRP_VALUE)) eqn:G; [discriminate H |].
    apply Qnot_lt_le. intros L. rewrite <- MAX_XRP_VALUE_Q in L.
    apply (proj2 (dec_gt_Q _ (num MAX_XRP_VALUE) HA eq_refl)) in L. congruence.
  - destruct (dec_lt (num (V.abs (_value x))) (num MIN_IOU_VALUE)) eqn:L; [discriminate H |].
    destruct (dec_gt (num (V.abs (_value x))) (num MAX_IOU_VALUE)) eqn:G; [discriminate H |].
    split.
    + apply Qnot_lt_le. intros K. rewrite <- MIN_IOU_VALUE_Q in K.
      apply (proj2 (dec_lt_Q _ (num MIN_IOU_VALUE) HA eq_refl)) in K. congruence.
    + apply Qnot_lt_le. intros K. rewrite <- MAX_IOU_VALUE_Q in K.
      apply (proj2 (dec_gt_Q _ (num MAX_IOU_VALUE) HA eq_refl)) in K. congruence.
Qed.

(** *** Sequencing *)


Lemma bind_ok {A B : Type} (r : result A) (k : A -> result B) (b : B) :
  bind r k = Ok b -> exists a, r = Ok a /\ k a = Ok b.
Proof. destruct r as [a | e]; [| discriminate]. intros H. now exists a. Qed.

(** The range check lets through exactly what is within the limits. *)
Lemma within_limits_check (x : Amount) :
  within_limits x -> _check_limits true x = Ok x.
Proof.
  unfold _check_limits, within_limits, is_valid, is_zero. cbn [negb].
  intros H.
  destruct (V.isNaN (_value x)) eqn:Hv; [reflexivity |].
  destruct (V.isZero (_value x)) eqn:Hz; [reflexivity |]. cbn [orb].
  specialize (H eq_refl eq_refl). cbv zeta in H.
  pose proof (abs_not_NaN _ Hv) as HA. unfold V.isNaN in HA.
  unfold V.greaterThan, V.lessThan.
  destruct (_is_native x).
  - destruct (dec_gt (num (V.abs (_value x))) (num MAX_XRP_VALUE)) eqn:G; [| reflexivity].
    apply (proj1 (dec_gt_Q _ (num MAX_XRP_VALUE) HA eq_refl)) in G.
    rewrite MAX_XRP_VALUE_Q in G. now apply Qlt_not_le in G.
  - destruct H as [Lo Hi].
    destruct (dec_lt (num (V.abs (_value x))) (num MIN_IOU_VALUE)) eqn:L.
    { apply (proj1 (dec_lt_Q _ (num MIN_IOU_VALUE) HA eq_refl)) in L.
      rewrite MIN_IOU_VALUE_Q in L. now apply Qlt_not_le in L. }
    destruct (dec_gt (num (V.abs (_value x))) (num MAX_IOU_VALUE)) eqn:G; [| reflexivity].
    apply (proj1 (dec_gt_Q _ (num MAX_IOU_VALUE) HA eq_refl)) in G.
    rewrite MAX_IOU_VALUE_Q in G. now apply Qlt_not_le in G.
Qed.

(** In strict mode [_set_value] stores what is within the limits and throws
    a range error for what is not. *)
Lemma _set_value_strict (this : Amount) (v : Value) :
  let r := set_value this (stored_value v) in
  (within_limits r -> _set_value true this (JValue v) = Ok r)
  /\ (~ within_limits r ->
      exists e, _set_value true this (JValue v) = Throw e /\ range_error e).
Proof.
  cbv zeta. split.
  - intros W. unfold _set_value. fold (stored_value v). now apply within_limits_check.
  - intros W. destruct (_set_value true this (JValue v)) as [t | e] eqn:E.
    + exfalso. apply W. pose proof (_set_value_ok _ _ _ _ E) as T. subst t.
      apply _check_limits_within. exact E.
    + exists e. split; [reflexivity |].
      now destruct (_set_value_throws_only_range _ _ _ _ E).
Qed.

(** ** The XRPValue constructor *)

Lemma dec_dp_mkDecimal (n : bool) (c : list Digit) (x : Z) :
  (dec_dp (mkDecimal n c x) <= Z.max 0 (- x))%Z.
Proof.
  destruct (mkDecimal_cases n c x) as [[_ ->] | (c' & k & Hc & Hh & He & _ & ->)].
  - cbn. lia.
  - unfold dec_dp. rewrite mkDecimal_normal by assumption.
    destruct c'; [congruence | lia].
Qed.

Lemma dec_dp_normal (n : bool) (d : Digit) (c : list Digit) (x : Z) :
  dec_normal (DFin n (d :: c) x) -> dec_dp (DFin n (d :: c) x) = Z.max 0 (- x).
Proof.
  intros [Hh He]. unfold dec_dp.
  now rewrite mkDecimal_normal by (try discriminate; assumption).
Qed.

Lemma XRPValue_ok (d : Decimal) (v : Value) : XRPValue d = Ok v -> v = mkValue XRP d.
Proof. unfold XRPValue. destruct (6 <? dec_dp d)%Z; [discriminate | now intros [= <-]]. Qed.

Lemma XRPValue_fits (d : Decimal) :
  (dec_dp d <= 6)%Z -> XRPValue d = Ok (mkValue XRP d).
Proof.
  intros H. unfold XRPValue.
  now replace (6 <? dec_dp d)%Z with false by (symmetry; apply Z.ltb_ge; exact H).
Qed.

(** A decimal with at most 6 decimal places is taken. *)
Lemma XRPValue_mkDecimal (n : bool) (c : list Digit) (x : Z) :
  (-6 <= x)%Z -> XRPValue (mkDecimal n c x) = Ok (mkValue XRP (mkDecimal n c x)).
Proof.
  intros H. apply XRPValue_fits. pose proof (dec_dp_mkDecimal n c x). lia.
Qed.

Section AmountFacts.

Variable strict_mode : bool.
Variable Currency_from_json : string -> bool -> Currency.
Variable UInt160_from_json : string -> UInt160.
Variable get_interest_at : Currency -> Z -> Decimal.

Local Notation "'from_json''" :=
  (from_json strict_mode Currency_from_json UInt160_from_json).
Local Notation "'add''" :=
  (add strict_mode Currency_from_json UInt160_from_json).
Local Notation "'subtract''" :=
  (subtract strict_mode Currency_from_json UInt160_from_json).
Local Notation "'multiply''" :=
  (multiply strict_mode Currency_from_json UInt160_from_json).
Local Notation "'divide''" :=
  (divide strict_mode Currency_from_json UInt160_from_json).
Local Notation "'compareTo''" :=
  (compareTo strict_mode Currency_from_json UInt160_from_json).
Local Notation "'equals''" :=
  (equals strict_mode Currency_from_json UInt160_from_json).

Lemma from_json_Amount (a : Amount) : from_json' (JAmount a) = Ok a.
Proof. unfold from_json, parse_json. now rewrite copyTo_id. Qed.

(** Storing NaN never fails and leaves an invalid Amount. *)
Lemma _set_value_NaN (this : Amount) (v : Value) :
  V.isNaN v = true ->
  _set_value strict_mode this (JValue v) = Ok (set_value this v).
Proof.
  intros H. unfold _set_value, _check_limits.
  rewrite (isNaN_not_zero _ H). simpl.
  rewrite H. simpl. now destruct strict_mode.
Qed.

Lemma _copy_NaN (this : Amount) (v : Value) :
  V.isNaN v = true ->
  exists r, _copy strict_mode this v = Ok r /\ is_valid r = false.
Proof.
  intros H. unfold _copy. rewrite (_set_value_NaN _ _ H).
  eexists; split; [reflexivity |].
  unfold is_valid; simpl. now rewrite H.
Qed.

Lemma not_comparable_negate (a b : Amount) :
  is_comparable a b = false -> is_comparable a (negate b) = false.
Proof.
  unfold is_comparable. rewrite is_valid_negate. now destruct b.
Qed.

(** *** Equality *)

(** C9, as amended.  An invalid Amount equals no Amount: [equals] is false
    for every Amount operand, the Amount itself included, and an invalid
    Amount as operand makes it false as well.  An operand that is not an
    Amount is first parsed with [from_json]: [equals] is false when the
    parse returns, and throws what the parse throws. *)
Theorem equals_invalid_false (a : Amount) :
  is_valid a = false ->
  (forall (d : Amount) (ignore_issuer : bool),
      equals' a (JAmount d) ignore_issuer = Ok false)
  /\ (forall ignore_issuer : bool, equals' a (JAmount a) ignore_issuer = Ok false)
  /\ (forall (d : Amount) (ignore_issuer : bool),
         equals' d (JAmount a) ignore_issuer = Ok false)
  /\ (forall (j : JsVal) (ignore_issuer : bool),
         equals' a j ignore_issuer
         = match from_json' j with
           | Ok _ => Ok false
           | Throw e => Throw e
           end).
Proof.
  intros H.
  assert (E : forall d ig, equals_amount a d ig = false).
  { intros d ig. unfold equals_amount. now rewrite H. }
  repeat split.
  - intros d ig. unfold equals. now rewrite E.
  - intros ig. unfold equals. now rewrite E.
  - intros d ig. unfold equals, equals_amount. rewrite H.
    now rewrite andb_false_r.
  - intros j ig. unfold equals.
    destruct j; try (destruct (from_json' _); cbn [bind]; rewrite ?E; reflexivity).
    now rewrite from_json_Amount, E.
Qed.

(** *** Incomparable operands *)

(** C1, as amended.  For operands that are not comparable (one native and
    one issued, or either invalid), [add], [subtract] and [compareTo] return
    the invalid Amount and do not throw; that Amount is comparable with
    nothing, so it propagates through further [add], [subtract] and
    [compareTo], on either side.  [multiply] has no such check: the product
    of two valid Amounts, one native and one issued included, is a valid
    Amount, which is returned when strict mode is off or the product is
    within the limits, while in strict mode a product outside the limits
    throws the range error. *)
Theorem incomparable_operands_invalid (a b : Amount) :
  is_comparable a b = false ->
  add' a (JAmount b) = Ok Amount_new
  /\ subtract' a (JAmount b) = Ok Amount_new
  /\ compareTo' a (JAmount b) = Ok (CmpInvalid Amount_new)
  /\ is_valid Amount_new = false
  /\ (forall c : Amount,
         add' Amount_new (JAmount c) = Ok Amount_new
         /\ add' c (JAmount Amount_new) = Ok Amount_new
         /\ subtract' Amount_new (JAmount c) = Ok Amount_new
         /\ subtract' c (JAmount Amount_new) = Ok Amount_new
         /\ compareTo' Amount_new (JAmount c) = Ok (CmpInvalid Amount_new)
         /\ compareTo' c (JAmount Amount_new) = Ok (CmpInvalid Amount_new))
  /\ (is_valid a = true -> is_valid b = true ->
      let p := set_value a (stored_value (V.multiply (_value a) (_value b))) in
      is_valid p = true
      /\ (strict_mode = false \/ within_limits p -> multiply' a (JAmount b) = Ok p)
      /\ (strict_mode = true -> ~ within_limits p ->
          exists e, multiply' a (JAmount b) = Throw e /\ range_error e)).
Proof.
  assert (ADD : forall x y, is_comparable x y = false -> add' x (JAmount y) = Ok Amount_new).
  { intros x y H. unfold add. rewrite from_json_Amount. simpl. now rewrite H. }
  assert (SUB : forall x y, is_comparable x y = false ->
                            subtract' x (JAmount y) = Ok Amount_new).
  { intros x y H. unfold subtract. rewrite from_json_Amount. simpl.
    apply ADD. now apply not_comparable_negate. }
  assert (CMP : forall x y, is_comparable x y = false ->
                            compareTo' x (JAmount y) = Ok (CmpInvalid Amount_new)).
  { intros x y H. unfold compareTo. rewrite from_json_Amount. simpl. now rewrite H. }
  assert (NL : forall c, is_comparable Amount_new c = false) by reflexivity.
  assert (NR : forall c, is_comparable c Amount_new = false).
  { intros c. unfold is_comparable. rewrite is_valid_Amount_new.
    now rewrite andb_false_r. }
  intros H.
  split; [now apply ADD |]. split; [now apply SUB |]. split; [now apply CMP |].
  split; [reflexivity |].
  split; [intros c; repeat split; auto |].
  intros Ha Hb. cbv zeta.
  assert (M : multiply' a (JAmount b)
              = _set_value strict_mode a (JValue (V.multiply (_value a) (_value b)))).
  { unfold multiply. rewrite from_json_Amount. cbn [bind]. unfold _copy.
    now rewrite clone_id. }
  split; [| split].
  - unfold is_valid in *. cbn [_value set_value].
    rewrite stored_value_isNaN, multiply_not_NaN; auto; now apply negb_true_iff.
  - rewrite M. intros [Hs | W].
    + rewrite Hs. apply _set_value_nonstrict.
    + destruct strict_mode; [| apply _set_value_nonstrict].
      now apply (proj1 (_set_value_strict a _)).
  - rewrite M. intros -> W. now apply (proj2 (_set_value_strict a _)).
Qed.

End AmountFacts.

(** Witness of the amended C9 at [new Amount()]. *)
Lemma equals_invalid_false_witness :
  is_valid Amount_new = false
  /\ equals true demo_Currency_from_json demo_UInt160_from_json
       Amount_new (JAmount Amount_new) false = Ok false.
Proof.
  split; [reflexivity |].
  apply (equals_invalid_false true demo_Currency_from_json demo_UInt160_from_json
           Amount_new); reflexivity.
Defined.

(** C9 as the spec states it fails: [equals] of the invalid Amount
    [new Amount()] and the operand "1.5" does not return false, it throws:
    the operand is parsed as a native amount, which must be in integer
    drops. *)
Lemma equals_invalid_operand_throws :
  is_valid Amount_new = false
  /\ equals true demo_Currency_from_json demo_UInt160_from_json
       Amount_new (JString "1.5") false
     = Throw (Error "Native amounts must be specified in integer drops")
  /\ equals false demo_Currency_from_json demo_UInt160_from_json
       Amount_new (JString "1.5") false
     = Throw (Error "Native amounts must be specified in integer drops").
Proof. repeat split. Qed.

(** C1 as the spec states it fails: the product of a valid native amount
    (1 XRP) and a valid issued amount (2 USD), which are not comparable, is
    not an invalid Amount, in strict mode or out of it; nor is their
    quotient. *)
Lemma multiply_native_by_issued_is_valid :
  let a := xrp (DFin false [dg1] 0) in
  let b := usd (DFin false [dg2] 0) in
  is_valid a = true /\ is_valid b = true
  /\ _is_native a = true /\ _is_native b = false
  /\ is_comparable a b = false
  /\ (exists r, multiply true demo_Currency_from_json demo_UInt160_from_json
                  a (JAmount b) = Ok r /\ is_valid r = true)
  /\ (exists r, multiply false demo_Currency_from_json demo_UInt160_from_json
                  a (JAmount b) = Ok r /\ is_valid r = true)
  /\ (exists r, divide true demo_Currency_from_json demo_UInt160_from_json
                  a (JAmount b) = Ok r /\ is_valid r = true).
Proof.
  repeat split; try reflexivity.
  - eexists; split; [vm_compute; reflexivity | reflexivity].
  - eexists; split; [vm_compute; reflexivity | reflexivity].
  - eexists; split; [vm_compute; reflexivity | reflexivity].
Qed.

(** Witness of the amended C1: 1 XRP against 2 USD. *)
Lemma incomparable_operands_invalid_witness :
  is_comparable (xrp (DFin false [dg1] 0)) (usd (DFin false [dg2] 0)) = false
  /\ add true demo_Currency_from_json demo_UInt160_from_json
       (xrp (DFin false [dg1] 0)) (JAmount (usd (DFin false [dg2] 0))) = Ok Amount_new
  /\ multiply true demo_Currency_from_json demo_UInt160_from_json
       (xrp (DFin false [dg1] 0)) (JAmount (usd (DFin false [dg2] 0)))
     = Ok (xrp (DFin false [dg2] 0)).
Proof.
  pose proof (incomparable_operands_invalid true demo_Currency_from_json
                demo_UInt160_from_json (xrp (DFin false [dg1] 0)) (usd (DFin false [dg2] 0))
                eq_refl) as T.
  split; [reflexivity |]. split; [exact (proj1 T) |].
  refine (proj1 (proj2 (proj2 (proj2 (proj2 (proj2 (proj2 T)))) eq_refl eq_refl))
            (or_intror _)).
  intros _ _. vm_compute. discriminate.
Defined.

(** ** Range checks *)

Lemma MAX_XRP_VALUE_num : num MAX_XRP_VALUE = DFin false [dg1] 11.
Proof. reflexivity. Qed.

Lemma MIN_IOU_VALUE_num : num MIN_IOU_VALUE = DFin false [dg1] (-81).
Proof. reflexivity. Qed.

Lemma MAX_IOU_VALUE_num :
  num MAX_IOU_VALUE
  = DFin false [dg9; dg9; dg9; dg9; dg9; dg9; dg9; dg9;
                dg9; dg9; dg9; dg9; dg9; dg9; dg9; dg9] 80.
Proof. reflexivity. Qed.

(** The range check of [_set_value] in terms of the engine's comparisons. *)
Lemma _set_value_limits_bool (this : Amount) (v : Value) :
  V.isNaN v = false ->
  V.isZero v = false ->
  let absval := num (V.abs v) in
  (_is_native this = true ->
   _set_value true this (JValue v)
   = if dec_gt absval (num MAX_XRP_VALUE) then Throw (exceeding_max MAX_XRP_VALUE)
     else Ok (set_value this v))
  /\ (_is_native this = false ->
      _set_value true this (JValue v)
      = if dec_lt absval (num MIN_IOU_VALUE) then Throw (exceeding_min MIN_IOU_VALUE)
        else if dec_gt absval (num MAX_IOU_VALUE) then Throw (exceeding_max MAX_IOU_VALUE)
        else Ok (set_value this v))
  /\ _set_value false this (JValue v) = Ok (set_value this v).
Proof.
  intros HN HZ. cbv zeta.
  unfold _set_value, _check_limits. rewrite HZ. simpl.
  rewrite HN, HZ. simpl.
  repeat split.
  - intros ->. reflexivity.
  - intros ->. reflexivity.
Qed.

(** C3.  With strict mode on, storing a value that is neither NaN nor zero
    throws when the Amount is native and the absolute value exceeds 10^11
    (XRP), and when it is issued and the absolute value is below 10^-81 or
    above 9999999999999999 * 10^80; inside these bounds the value is stored.
    With strict mode off nothing is checked and every value is stored.  The
    absolute value is read as a rational number. *)
Theorem _set_value_checks_limits (this : Amount) (v : Value) :
  V.isNaN v = false ->
  V.isZero v = false ->
  let q := dec_Q (num (V.abs v)) in
  (_is_native this = true ->
   (((10 # 1) ^ 11 < q)%Q ->
    _set_value true this (JValue v) = Throw (exceeding_max MAX_XRP_VALUE))
   /\ ((q <= (10 # 1) ^ 11)%Q ->
       _set_value true this (JValue v) = Ok (set_value this v)))
  /\ (_is_native this = false ->
      ((q < (10 # 1) ^ (-81))%Q ->
       _set_value true this (JValue v) = Throw (exceeding_min MIN_IOU_VALUE))
      /\ (((9999999999999999 # 1) * (10 # 1) ^ 80 < q)%Q ->
          _set_value true this (JValue v) = Throw (exceeding_max MAX_IOU_VALUE))
      /\ (((10 # 1) ^ (-81) <= q)%Q ->
          (q <= (9999999999999999 # 1) * (10 # 1) ^ 80)%Q ->
          _set_value true this (JValue v) = Ok (set_value this v)))
  /\ _set_value false this (JValue v) = Ok (set_value this v).
Proof.
  intros HN HZ q.
  destruct (_set_value_limits_bool this v HN HZ) as (Hx & Hi & Hoff).
  pose proof (abs_not_NaN v HN) as HA. unfold V.isNaN in HA.
  assert (GX : dec_gt (num (V.abs v)) (num MAX_XRP_VALUE) = true <-> ((10 # 1) ^ 11 < q)%Q).
  { rewrite dec_gt_Q by (exact HA || reflexivity). now rewrite MAX_XRP_VALUE_Q. }
  assert (LI : dec_lt (num (V.abs v)) (num MIN_IOU_VALUE) = true <-> (q < (10 # 1) ^ (-81))%Q).
  { rewrite dec_lt_Q by (exact HA || reflexivity). now rewrite MIN_IOU_VALUE_Q. }
  assert (GI : dec_gt (num (V.abs v)) (num MAX_IOU_VALUE) = true
               <-> ((9999999999999999 # 1) * (10 # 1) ^ 80 < q)%Q).
  { rewrite dec_gt_Q by (exact HA || reflexivity). now rewrite MAX_IOU_VALUE_Q. }
  split; [| split; [| exact Hoff]].
  - intros Hn. rewrite (Hx Hn). split.
    + intros H. apply GX in H. now rewrite H.
    + intros H.
      replace (dec_gt (num (V.abs v)) (num MAX_XRP_VALUE)) with false; [reflexivity |].
      symmetry. apply not_true_is_false. intros G. apply GX in G.
      now apply (Qlt_not_le _ _ G).
  - intros Hn. rewrite (Hi Hn). repeat split.
    + intros H. apply LI in H. now rewrite H.
    + intros H.
      replace (dec_lt (num (V.abs v)) (num MIN_IOU_VALUE)) with false.
      * apply GI in H. now rewrite H.
      * symmetry. apply not_true_is_false. intros L. apply LI in L.
        apply (Qlt_irrefl q). eapply Qlt_trans; [exact L |].
        eapply Qlt_trans; [exact MIN_below_MAX | exact H].
    + intros Hlo Hhi.
      replace (dec_lt (num (V.abs v)) (num MIN_IOU_VALUE)) with false.
      * replace (dec_gt (num (V.abs v)) (num MAX_IOU_VALUE)) with false; [reflexivity |].
        symmetry. apply not_true_is_false. intros G. apply GI in G.
        now apply (Qlt_not_le _ _ G).
      * symmetry. apply not_true_is_false. intros L. apply LI in L.
        now apply (Qlt_not_le _ _ L).
Qed.

(** Witness of C3: 10^12 XRP is refused in strict mode. *)
Lemma _set_value_checks_limits_witness :
  V.isNaN (mkValue XRP (DFin false [dg1] 12)) = false
  /\ V.isZero (mkValue XRP (DFin false [dg1] 12)) = false
  /\ _set_value true (xrp (DFin false [] 0)) (JValue (mkValue XRP (DFin false [dg1] 12)))
     = Throw (exceeding_max MAX_XRP_VALUE).
Proof.
  split; [reflexivity | split; [reflexivity |]].
  apply (proj1 (proj1 (_set_value_checks_limits (xrp (DFin false [] 0))
                         (mkValue XRP (DFin false [dg1] 12)) eq_refl eq_refl) eq_refl)).
  vm_compute. reflexivity.
Defined.

(** The bounds of spec 8 (properties 8 and 9) on the model. *)
Example native_1e11_accepted :
  is_ok (_set_value true (xrp DNaN) (JValue (mkValue XRP (DFin false [dg1] 11)))) = true.
Proof. reflexivity. Qed.

Example issued_1e_81_accepted :
  is_ok (_set_value true (usd DNaN) (JValue (IOUValue (DFin false [dg1] (-81)) None))) = true.
Proof. reflexivity. Qed.

Example issued_1e_82_refused :
  _set_value true (usd DNaN) (JValue (IOUValue (DFin false [dg1] (-82)) None))
  = Throw (exceeding_min MIN_IOU_VALUE).
Proof. reflexivity. Qed.

(** ** ratio_human *)

(** C4, on the code.  [ratio_human] does not return an invalid Amount: when
    an operand is invalid or the denominator is zero it evaluates
    [new Amount(NaN)], whose constructor asserts that its argument is a
    Value, and throws; when the denominator is a valid, non-zero native
    amount it passes an Amount to [_set_value] and throws a TypeError. *)
Theorem ratio_human_throws
        (strict : bool) (cfj : string -> bool -> Currency) (ufj : string -> UInt160)
        (gia : Currency -> Z -> Decimal)
        (a : Amount) (d : JsVal) (den : Amount) (reference_date : option Z) :
  from_json strict cfj ufj d = Ok den ->
  (is_valid a = false \/ is_valid den = false \/ is_zero den = true ->
   ratio_human strict cfj ufj gia a d reference_date = Throw AssertionError)
  /\ (is_valid a = true -> is_valid den = true -> is_zero den = false ->
      _is_native den = true -> Cur.has_interest (_currency den) = false ->
      ratio_human strict cfj ufj gia a d reference_date
      = Throw (TypeError "value.isZero is not a function")).
Proof.
  intros Hd. unfold ratio_human. rewrite Hd. simpl. rewrite clone_id. split.
  - intros [H | [H | H]]; rewrite ?H; simpl; try reflexivity.
    + destruct (negb (is_valid a)); reflexivity.
    + destruct (negb (is_valid a) || negb (is_valid den)); reflexivity.
  - intros Ha Hv Hz Hn Hi. rewrite Ha, Hv, Hz. simpl.
    assert (E : match reference_date with
                | Some d0 => applyInterest strict gia den d0
                | None => Ok den
                end = Ok den).
    { destruct reference_date; [| reflexivity].
      unfold applyInterest. now rewrite Hi. }
    rewrite E. simpl. rewrite Hn.
    unfold multiply, from_json, parse_json. simpl.
    destruct (_copy_NaN strict a (V.multiply (_value a) (mkValue XRP DNaN)))
      as (r & -> & _).
    + apply multiply_NaN. now right.
    + reflexivity.
Qed.

(** Witness of C4: 100 USD over zero drops, and 100 USD over 10 drops. *)
Lemma ratio_human_throws_witness :
  from_json true demo_Currency_from_json demo_UInt160_from_json (JString "0")
  = Ok (xrp (DFin false [] 0))
  /\ ratio_human true demo_Currency_from_json demo_UInt160_from_json demo_interest
       (usd (DFin false [dg1] 2)) (JString "0") None = Throw AssertionError.
Proof.
  split; [reflexivity |].
  apply (ratio_human_throws true demo_Currency_from_json demo_UInt160_from_json
           demo_interest (usd (DFin false [dg1] 2)) (JString "0")
           (xrp (DFin false [] 0)) None).
  - reflexivity.
  - right; right; reflexivity.
Defined.

Example ratio_human_native_denominator :
  ratio_human true demo_Currency_from_json demo_UInt160_from_json demo_interest
    (usd (DFin false [dg1] 2)) (JString "10") None
  = Throw (TypeError "value.isZero is not a function").
Proof. reflexivity. Qed.

Example ratio_human_issued_denominator :
  option_map to_text
    (match ratio_human true demo_Currency_from_json demo_UInt160_from_json demo_interest
             (usd (DFin false [dg1] 2)) (JString "10/USD") None with
     | Ok r => Some r | Throw _ => None end)
  = Some "10".
Proof. vm_compute. reflexivity. Qed.

(** ** Negative zero *)

(** What [_set_value] stores is never a negative zero. *)
Lemma _set_value_zero_not_negative (strict : bool) (this r : Amount) (v : Value) :
  _set_value strict this (JValue v) = Ok r ->
  is_zero r = true -> is_negative r = false.
Proof.
  unfold _set_value, _check_limits.
  set (w := if V.isZero v && V.isNegative v then V.negate v else v).
  assert (W : V.isZero w = true -> V.isNegative w = false).
  { subst w. destruct v as [k [| [] [] x]]; simpl; auto; discriminate. }
  intros H.
  assert (R : _value r = w).
  { revert H.
    repeat match goal with
           | |- context [if ?b then _ else _] => destruct b
           end; intros H; inversion H; reflexivity. }
  unfold is_zero, is_negative. rewrite R. exact W.
Qed.

(** C10, on the code.  [negate] copies the negated value with [copyTo], not
    with [_set_value]: the negation of the zero Amount that [from_json("0")]
    returns is a zero that is negative. *)
Theorem negate_zero_is_negative :
  exists a : Amount,
    from_json true demo_Currency_from_json demo_UInt160_from_json (JString "0") = Ok a
    /\ is_zero a = true /\ is_negative a = false
    /\ is_zero (negate a) = true /\ is_negative (negate a) = true.
Proof. eexists. repeat split. Qed.

(** ** parse_quality: errors *)






(** ** Native amounts from JSON strings *)

Lemma digit_of_ascii_inv (c : ascii) (d : Digit) :
  digit_of_ascii c = Some d -> c = ascii_of_digit d.
Proof.
  destruct c as [[] [] [] [] [] [] [] []]; simpl; intros H;
    try discriminate H; injection H as <-; reflexivity.
Qed.

Lemma digits_of_string_inv (s : string) (ds : list Digit) :
  digits_of_string s = Some ds -> s = string_of_digits ds.
Proof.
  revert ds. induction s as [| c s IH]; intros ds H.
  - injection H as <-. reflexivity.
  - simpl in H. destruct (digit_of_ascii c) as [d |] eqn:Hc; [| discriminate].
    destruct (digits_of_string s) as [l |]; [| discriminate].
    injection H as <-. simpl. now rewrite (digit_of_ascii_inv _ _ Hc), (IH l).
Qed.

Lemma nonempty_digits_inv (s : string) (ds : list Digit) :
  nonempty_digits s = Some ds -> s = string_of_digits ds /\ ds <> [].
Proof.
  destruct s as [| c s]; [discriminate |].
  intros H. unfold nonempty_digits in H. split.
  - now apply digits_of_string_inv.
  - intros ->. apply digits_of_string_inv in H. discriminate.
Qed.

Lemma digits_no_e (l : list Digit) : string_existsb is_e_char (string_of_digits l) = false.
Proof. apply string_of_digits_exists. now intros []. Qed.

Lemma digits_no_dot (l : list Digit) : string_existsb is_dot_char (string_of_digits l) = false.
Proof. apply string_of_digits_exists. now intros []. Qed.

Lemma digits_no_slash (l : list Digit) : string_existsb is_slash (string_of_digits l) = false.
Proof. apply string_of_digits_exists. now intros []. Qed.

(** An unsigned run of digits denotes the integer it spells. *)
Lemma Decimal_of_digit_string (n : bool) (ds : list Digit) :
  ds <> [] ->
  (let (mant, ex) := split_at is_e_char (string_of_digits ds) in
   let (ip, fp) := split_at is_dot_char mant in
   let frac := match fp with Some f => f | None => EmptyString end in
   match digits_of_string ip, digits_of_string frac with
   | Some di, Some df =>
       match di, fp, df with
       | [], None, _ | [], Some _, [] => DNaN
       | _, _, _ =>
           match ex with
           | None => mkDecimal n (di ++ df) (- Z.of_nat (List.length df))
           | Some t =>
               match parse_exponent t with
               | Some k => mkDecimal n (di ++ df) (k - Z.of_nat (List.length df))
               | None => DNaN
               end
           end
       end
   | _, _ => DNaN
   end) = mkDecimal n ds 0.
Proof.
  intros H.
  rewrite (split_at_none _ _ (digits_no_e ds)).
  rewrite (split_at_none _ _ (digits_no_dot ds)).
  rewrite digits_of_string_of_digits. simpl.
  destruct ds as [| d ds]; [congruence |].
  now rewrite app_nil_r.
Qed.

Lemma Decimal_of_string_plain (s : string) (n : bool) (ds : list Digit) :
  plain_integer s = Some (n, ds) ->
  Decimal_of_string s = mkDecimal n ds 0
  /\ string_existsb is_dot_char s = false
  /\ string_existsb is_slash s = false
  /\ s <> EmptyString.
Proof.
  unfold plain_integer. intros H.
  assert (C : (exists r, s = String "-" r /\ n = true /\ nonempty_digits r = Some ds)
              \/ (n = false /\ nonempty_digits s = Some ds)).
  { destruct s as [| c r]; [discriminate |].
    destruct c as [[] [] [] [] [] [] [] []];
      try solve [right; destruct (nonempty_digits _);
                 [injection H as <- <-; auto | discriminate]].
    left. exists r. destruct (nonempty_digits r); [injection H as <- <-; auto | discriminate]. }
  destruct C as [(r & -> & -> & Hr) | (-> & Hs)].
  - apply nonempty_digits_inv in Hr. destruct Hr as [-> Hne].
    repeat split.
    + unfold Decimal_of_string. now apply Decimal_of_digit_string.
    + simpl. apply digits_no_dot.
    + simpl. apply digits_no_slash.
    + discriminate.
  - apply nonempty_digits_inv in Hs. destruct Hs as [-> Hne].
    repeat split.
    + unfold Decimal_of_string.
      destruct ds as [| d ds]; [congruence |].
      replace (match string_of_digits (d :: ds) with
               | String "-" r => (true, r)
               | _ => (false, string_of_digits (d :: ds))
               end) with (false, string_of_digits (d :: ds)) by (now destruct d).
      now apply Decimal_of_digit_string.
    + apply digits_no_dot.
    + apply digits_no_slash.
    + destruct ds; [congruence | discriminate].
Qed.

Local Open Scope list_scope.

(** Dividing a whole number of drops by the drops of one XRP moves the
    decimal point by six places. *)
Lemma divide_by_xns_unit (n : bool) (ds : list Digit) :
  V.divide (mkValue XRP (mkDecimal n ds 0)) bi_xns_unit
  = mkValue XRP (mkDecimal n ds (-6)).
Proof.
  unfold V.divide, canonicalize. cbn [kind num]. f_equal.
  change (V.operand bi_xns_unit) with (DFin false [dg1] 6).
  replace (mkDecimal n ds (-6)) with (dec_shift (-6) (mkDecimal n ds 0))
    by (symmetry; apply (mkDecimal_shift n ds 0 (-6))).
  destruct (mkDecimal_cases n ds 0) as [[_ ->] | (c & k & Hc & Hh & He & _ & ->)].
  - now destruct n.
  - unfold dec_div, dec_shift.
    destruct c as [| d c]; [congruence |].
    change (N_of_digits [dg1]) with 1%N. rewrite N.div_1_r.
    change (Z.to_N (Z.of_nat (List.length [dg1] + DIV_GUARD))) with (N.of_nat 41).
    rewrite digits_of_N_pow10
      by (apply N.neq_0_lt_0, N_of_digits_headed_pos; [exact Hh | discriminate]).
    rewrite digits_of_N_of_digits, Hh, mkDecimal_app_zeros, xorb_false_r.
    rewrite mkDecimal_normal by (auto; discriminate).
    unfold dec_round.
    replace (- (0 + Z.of_nat k - 6 - Z.of_nat (List.length [dg1] + DIV_GUARD) + Z.of_nat 41) - 6
             <=? 0)%Z with true.
    2:{ symmetry. apply Z.leb_le. unfold DIV_GUARD. simpl List.length. lia. }
    f_equal. unfold DIV_GUARD. simpl List.length. lia.
Qed.

(** A whole number of drops exceeds the native maximum exactly when it is
    above 10^17. *)
Lemma drops_exceed_max (n : bool) (ds : list Digit) :
  V.isZero (mkValue XRP (mkDecimal n ds (-6))) = false ->
  V.greaterThan (V.abs (mkValue XRP (mkDecimal n ds (-6)))) MAX_XRP_VALUE
  = (10 ^ 17 <? N_of_digits ds)%N.
Proof.
  unfold V.isZero, V.greaterThan, V.abs, canonicalize. cbn [kind num].
  replace (mkDecimal n ds (-6)) with (dec_shift (-6) (mkDecimal n ds 0))
    by (symmetry; apply (mkDecimal_shift n ds 0 (-6))).
  destruct (mkDecimal_cases n ds 0) as [[_ ->] | (c & k & Hc & Hh & He & Hn & ->)];
    [discriminate |].
  intros _. destruct c as [| d c]; [congruence |].
  unfold dec_shift, dec_abs, dec_round.
  replace (- (0 + Z.of_nat k + -6) - 6 <=? 0)%Z with true
    by (symmetry; apply Z.leb_le; lia).
  rewrite MAX_XRP_VALUE_num. unfold dec_gt, dec_cmp, scaled.
  change (Z.of_N (N_of_digits [dg1])) with 1%Z.
  rewrite Hn. set (C := N_of_digits (d :: c)).
  assert (HC : (0 < C)%N) by (apply N_of_digits_headed_pos; [exact Hh | discriminate]).
  destruct (Z.le_gt_cases (0 + Z.of_nat k + -6) 11) as [L | G].
  - rewrite Z.min_l by exact L. rewrite Z.sub_diag, Z.pow_0_r.
    replace (11 - (0 + Z.of_nat k + -6))%Z with (Z.of_nat (17 - k)) by lia.
    assert (E : (10 ^ 17 = 10 ^ N.of_nat (17 - k) * 10 ^ N.of_nat k)%N).
    { rewrite <- N.pow_add_r. f_equal. lia. }
    rewrite E.
    assert (P : (0 < 10 ^ N.of_nat k)%N) by (apply N.neq_0_lt_0, N.pow_nonzero; lia).
    assert (Q : (10 ^ Z.of_nat (17 - k) = Z.of_N (10 ^ N.of_nat (17 - k)))%Z).
    { rewrite N2Z.inj_pow. f_equal. lia. }
    rewrite Q.
    destruct (10 ^ N.of_nat (17 - k) * 10 ^ N.of_nat k <? C * 10 ^ N.of_nat k)%N eqn:B.
    + apply N.ltb_lt in B.
      assert (10 ^ N.of_nat (17 - k) < C)%N by nia.
      replace (1 * (Z.of_N C * 1) ?= 1 * (1 * Z.of_N (10 ^ N.of_nat (17 - k))))%Z with Gt;
        [reflexivity |].
      symmetry. apply Z.compare_gt_iff. lia.
    + apply N.ltb_ge in B.
      assert (C <= 10 ^ N.of_nat (17 - k))%N by nia.
      destruct (1 * (Z.of_N C * 1) ?= 1 * (1 * Z.of_N (10 ^ N.of_nat (17 - k))))%Z eqn:K;
        try reflexivity.
      apply Z.compare_gt_iff in K. lia.
  - rewrite Z.min_r by lia. rewrite Z.sub_diag, Z.pow_0_r.
    replace (0 + Z.of_nat k + -6 - 11)%Z with (Z.of_nat (k - 17)) by lia.
    assert (Q : (10 ^ Z.of_nat (k - 17) = Z.of_N (10 ^ N.of_nat (k - 17)))%Z).
    { rewrite N2Z.inj_pow. f_equal. lia. }
    rewrite Q.
    assert (E : (10 ^ N.of_nat k = 10 ^ 17 * 10 ^ N.of_nat (k - 17))%N).
    { rewrite <- N.pow_add_r. f_equal. lia. }
    assert (P : (10 <= 10 ^ N.of_nat (k - 17))%N).
    { replace (N.of_nat (k - 17)) with (N.succ (N.of_nat (k - 18))) by lia.
      rewrite N.pow_succ_r'.
      assert (0 < 10 ^ N.of_nat (k - 18))%N by (apply N.neq_0_lt_0, N.pow_nonzero; lia).
      lia. }
    replace (10 ^ 17 <? C * 10 ^ N.of_nat k)%N with true.
    2:{ symmetry. apply N.ltb_lt. rewrite E. nia. }
    replace (1 * (Z.of_N C * Z.of_N (10 ^ N.of_nat (k - 17))) ?= 1 * (1 * 1))%Z with Gt;
      [reflexivity |].
    symmetry. apply Z.compare_gt_iff. nia.
Qed.

Local Open Scope string_scope.

Lemma match_shorthand_no_slash (s : string) :
  string_existsb is_slash s = false -> match_shorthand s = None.
Proof.
  intros H. unfold match_shorthand. rewrite (split_at_none _ _ H).
  now destruct s.
Qed.

Lemma mkDecimal_isZero (n : bool) (ds : list Digit) (x : Z) :
  dec_isZero (mkDecimal n ds x) = (N_of_digits ds =? 0)%N.
Proof.
  destruct (mkDecimal_cases n ds x) as [[E ->] | (c & k & Hc & Hh & He & Hn & ->)].
  - now rewrite E.
  - destruct c as [| d c]; [congruence |]. simpl. symmetry. apply N.eqb_neq.
    rewrite Hn.
    pose proof (N_of_digits_headed_pos (d :: c) Hh Hc).
    assert (0 < 10 ^ N.of_nat k)%N by (apply N.neq_0_lt_0, N.pow_nonzero; lia).
    nia.
Qed.

(** C5, as amended.  For a numeric string without a slash, [from_json]
    throws when the string contains a decimal point; when it is a plain
    integer string it returns a valid native Amount whose value is that many
    drops (the integer times 10^-6 XRP), with the native currency and the
    zero issuer, unless strict mode is on and the integer exceeds 10^17
    drops in magnitude, in which case the range error is thrown. *)
Theorem from_json_numeric_string
        (strict : bool) (cfj : string -> bool -> Currency) (ufj : string -> UInt160)
        (s : string) :
  js_isNaN s = false ->
  string_existsb is_slash s = false ->
  (string_existsb is_dot_char s = true ->
   from_json strict cfj ufj (JString s)
   = Throw (Error "Native amounts must be specified in integer drops"))
  /\ (forall (n : bool) (ds : list Digit),
         plain_integer s = Some (n, ds) ->
         let a := mkAmount (stored_value (mkValue XRP (mkDecimal n ds (-6))))
                           true (cfj "0" false) (ufj "0") in
         is_valid a = true
         /\ _is_native a = true
         /\ from_json strict cfj ufj (JString s)
            = if strict && (10 ^ 17 <? N_of_digits ds)%N
              then Throw (exceeding_max MAX_XRP_VALUE)
              else Ok a).
Proof.
  intros Hnum Hslash.
  unfold from_json, parse_json, parse_json_string.
  rewrite (match_shorthand_no_slash _ Hslash). unfold parse_native.
  rewrite Hnum. split.
  - intros Hdot. rewrite Hdot.
    destruct s; [discriminate Hdot | reflexivity].
  - intros n ds Hp.
    destruct (Decimal_of_string_plain _ _ _ Hp) as (Hd & Hdot & _ & Hne).
    rewrite Hdot, Hd, (XRPValue_mkDecimal _ _ 0) by lia.
    cbn [bind]. rewrite divide_by_xns_unit.
    replace (negb (s =? "")) with true by (destruct s; [congruence | reflexivity]).
    cbn [negb andb]. cbv zeta.
    set (v := mkValue XRP (mkDecimal n ds (-6))).
    assert (Hv : V.isNaN (stored_value v) = false).
    { unfold stored_value, V.isNaN, V.negate, v. cbn [num].
      destruct (V.isZero _ && V.isNegative _); cbn [num];
        rewrite ?dec_isNaN_neg; apply mkDecimal_not_NaN. }
    split; [unfold is_valid; cbn [_value]; now rewrite Hv |].
    split; [reflexivity |].
    unfold _set_value. fold (stored_value v). unfold _check_limits.
    cbn [set_value set_native _value _is_native _currency _issuer Amount_new].
    rewrite Hv. cbn [orb].
    destruct strict; [| reflexivity]. cbn [negb andb].
    destruct (V.isZero v) eqn:Z.
    + assert (Z' : V.isZero (stored_value v) = true).
      { unfold stored_value. rewrite Z.
        destruct (V.isNegative v); [| exact Z].
        unfold V.isZero, V.negate in *. cbn [num] in *.
        destruct (num v) as [| ? [] ?]; auto. }
      rewrite Z'.
      unfold V.isZero, v in Z. cbn [num] in Z. rewrite mkDecimal_isZero in Z.
      apply N.eqb_eq in Z. rewrite Z. reflexivity.
    + rewrite (stored_value_nonzero v Z), Z.
      unfold v. rewrite (drops_exceed_max n ds Z).
      now destruct (10 ^ 17 <? N_of_digits ds)%N.
Qed.

(** Witness of C5: 25200000 drops. *)
Lemma from_json_numeric_string_witness :
  js_isNaN "25200000" = false
  /\ string_existsb is_slash "25200000" = false
  /\ from_json true demo_Currency_from_json demo_UInt160_from_json (JString "25200000")
     = Ok (xrp (DFin false [dg2; dg5; dg2] (-1))).
Proof.
  split; [reflexivity | split; [reflexivity |]].
  exact (proj2 (proj2 (proj2
    (from_json_numeric_string true demo_Currency_from_json demo_UInt160_from_json
       "25200000" eq_refl eq_refl)
    false [dg2; dg5; dg2; dg0; dg0; dg0; dg0; dg0] eq_refl))).
Defined.

(** C5 as the spec states it fails: in strict mode the plain integer string
    100000000000000001 (10^17 + 1 drops) is refused. *)
Lemma from_json_integer_out_of_range :
  js_isNaN "100000000000000001" = false
  /\ string_existsb is_slash "100000000000000001" = false
  /\ plain_integer "100000000000000001"
     = Some (false, [dg1; dg0; dg0; dg0; dg0; dg0; dg0; dg0; dg0;
                     dg0; dg0; dg0; dg0; dg0; dg0; dg0; dg0; dg1])
  /\ from_json true demo_Currency_from_json demo_UInt160_from_json
       (JString "100000000000000001")
     = Throw (exceeding_max MAX_XRP_VALUE).
Proof. repeat split. Qed.

Example from_json_float_refused :
  from_json true demo_Currency_from_json demo_UInt160_from_json (JString "1.5")
  = Throw (Error "Native amounts must be specified in integer drops").
Proof. reflexivity. Qed.

(** ** to_text: the characters of the text *)

Lemma string_forallb_app (p : ascii -> bool) (s t : string) :
  string_forallb p (s ++ t) = string_forallb p s && string_forallb p t.
Proof.
  induction s as [| c s IH]; simpl; [reflexivity |].
  now rewrite IH, andb_assoc.
Qed.

Lemma string_forallb_substring (p : ascii -> bool) (s : string) (n m : nat) :
  string_forallb p s = true -> string_forallb p (String.substring n m s) = true.
Proof.
  revert n m. induction s as [| c s IH]; intros n m H.
  - destruct n, m; reflexivity.
  - simpl in H. apply andb_true_iff in H. destruct H as [Hc Hs].
    destruct n as [| n]; simpl.
    + destruct m as [| m]; [reflexivity |]. simpl. rewrite Hc. now apply IH.
    + now apply IH.
Qed.

Lemma string_forallb_js_substring (p : ascii -> bool) (s : string) (a b : Z) :
  string_forallb p s = true -> string_forallb p (js_substring s a b) = true.
Proof. intros H. unfold js_substring. now apply string_forallb_substring. Qed.

Lemma string_forallb_impl (p q : ascii -> bool) (s : string) :
  (forall c, p c = true -> q c = true) ->
  string_forallb p s = true -> string_forallb q s = true.
Proof.
  intros I. induction s as [| c s IH]; simpl; [reflexivity |].
  intros H. apply andb_true_iff in H. destruct H as [Hc Hs].
  now rewrite (I _ Hc), (IH Hs).
Qed.

Lemma getMantissa16_digits (s : string) :
  string_forallb is_digit_char (getMantissa16FromString s) = true.
Proof.
  unfold getMantissa16FromString. destruct (Decimal_of_string s); [reflexivity |].
  apply string_of_digits_forall. now intros [].
Qed.

Lemma digit_char_cases (c : ascii) :
  is_digit_char c = true ->
  (is_zero_char c = true /\ is_nonzero_digit c = false)
  \/ (is_zero_char c = false /\ is_nonzero_digit c = true).
Proof.
  destruct c as [[] [] [] [] [] [] [] []]; simpl; intros H;
    try discriminate H; auto.
Qed.

Lemma digit_char_not_terminator (c : ascii) :
  is_digit_char c = true -> negb (is_line_terminator c) = true.
Proof.
  destruct c as [[] [] [] [] [] [] [] []]; simpl; intros H;
    try discriminate H; reflexivity.
Qed.

(** On a string of digits, the pattern [1-9].*$ finds what is left after
    the leading zeros. *)
Lemma match_leading (s : string) :
  string_forallb is_digit_char s = true ->
  match match_suffix is_nonzero_digit (fun c => negb (is_line_terminator c)) s with
  | Some m => m
  | None => "0"
  end
  = match strip_leading_zero_chars s with
    | EmptyString => "0"
    | String _ _ as t => t
    end.
Proof.
  induction s as [| c s IH]; [reflexivity |].
  intros H. simpl in H. apply andb_true_iff in H. destruct H as [Hc Hs].
  simpl.
  rewrite (string_forallb_impl _ _ _ digit_char_not_terminator Hs), andb_true_r.
  destruct (digit_char_cases c Hc) as [[-> ->] | [-> ->]]; [now apply IH | reflexivity].
Qed.

Lemma strip_trailing_all_zero (s : string) :
  string_forallb is_zero_char s = true -> strip_trailing_zero_chars s = EmptyString.
Proof.
  induction s as [| c s IH]; [reflexivity |].
  simpl. intros H. apply andb_true_iff in H. destruct H as [Hc Hs].
  now rewrite (IH Hs), Hc.
Qed.

Lemma strip_trailing_nonzero (s : string) :
  string_forallb is_zero_char s = false -> strip_trailing_zero_chars s <> EmptyString.
Proof.
  induction s as [| c s IH]; [discriminate |].
  simpl. intros H.
  destruct (strip_trailing_zero_chars s) eqn:T; [| discriminate].
  destruct (is_zero_char c); [| discriminate].
  simpl in H. now apply IH in H.
Qed.

Lemma match_suffix_length (h t : ascii -> bool) (s m : string) :
  match_suffix h t s = Some m -> (String.length m <= String.length s)%nat.
Proof.
  revert m. induction s as [| c s IH]; intros m; [discriminate |].
  simpl. destruct (h c && string_forallb t s).
  - intros H. injection H as <-. simpl. lia.
  - intros H. apply IH in H. lia.
Qed.

Lemma js_substring_0 (s : string) (b : Z) :
  (0 <= b)%Z ->
  js_substring s 0 b
  = String.substring 0 (Z.to_nat (Z.min b (Z.of_nat (String.length s)))) s.
Proof.
  intros H. unfold js_substring.
  set (len := Z.of_nat (String.length s)).
  assert (0 <= len)%Z by (subst len; lia).
  replace (Z.max 0 (Z.min 0 len)) with 0%Z by lia.
  replace (Z.max 0 (Z.min b len)) with (Z.min b len) by lia.
  replace (Z.min 0 (Z.min b len)) with 0%Z by lia.
  replace (Z.max 0 (Z.min b len)) with (Z.min b len) by lia.
  now rewrite Z.sub_0_r.
Qed.

Lemma js_substring_cons (c : ascii) (s : string) (k : Z) :
  (0 <= k)%Z -> js_substring (String c s) 0 (1 + k) = String c (js_substring s 0 k).
Proof.
  intros H. rewrite !js_substring_0 by lia.
  change (String.length (String c s)) with (S (String.length s)).
  replace (Z.to_nat (Z.min (1 + k) (Z.of_nat (S (String.length s)))))
    with (S (Z.to_nat (Z.min k (Z.of_nat (String.length s))))) by lia.
  reflexivity.
Qed.

(** On a string of digits, the pattern [1-9]0*$ finds the last digit that
    is not zero, and the fraction printed is what precedes the trailing
    zeros. *)
Lemma match_trailing (s : string) :
  string_forallb is_digit_char s = true ->
  match match_suffix is_nonzero_digit is_zero_char s with
  | Some m =>
      "." ++ js_substring s 0 (1 + Z.of_nat (String.length s) - Z.of_nat (String.length m))
  | None => ""
  end
  = match strip_trailing_zero_chars s with
    | EmptyString => ""
    | String _ _ as t => "." ++ t
    end.
Proof.
  induction s as [| c s IH]; [reflexivity |].
  intros H. simpl in H. apply andb_true_iff in H. destruct H as [Hc Hs].
  specialize (IH Hs).
  cbn [match_suffix strip_trailing_zero_chars].
  destruct (string_forallb is_zero_char s) eqn:Z.
  - rewrite (strip_trailing_all_zero s Z), andb_true_r.
    destruct (digit_char_cases c Hc) as [[-> ->] | [-> ->]].
    + rewrite (strip_trailing_all_zero s Z) in IH.
      destruct (match_suffix is_nonzero_digit is_zero_char s); [| reflexivity].
      simpl in IH. discriminate IH.
    + replace (1 + Z.of_nat (String.length (String c s))
               - Z.of_nat (String.length (String c s)))%Z with (1 + 0)%Z by lia.
      rewrite js_substring_cons by lia.
      f_equal. f_equal. unfold js_substring. simpl. now destruct s.
  - rewrite andb_false_r.
    pose proof (strip_trailing_nonzero s Z) as NZ.
    destruct (strip_trailing_zero_chars s) as [| a t] eqn:T; [congruence |].
    destruct (match_suffix is_nonzero_digit is_zero_char s) as [m |] eqn:M;
      [| discriminate IH].
    pose proof (match_suffix_length _ _ _ _ M) as L.
    replace (1 + Z.of_nat (String.length (String c s)) - Z.of_nat (String.length m))%Z
      with (1 + (1 + Z.of_nat (String.length s) - Z.of_nat (String.length m)))%Z
      by (simpl String.length; lia).
    rewrite js_substring_cons by lia.
    simpl in IH. injection IH as IH. simpl. now rewrite IH.
Qed.

Lemma string_existsb_app (p : ascii -> bool) (s t : string) :
  string_existsb p (s ++ t) = string_existsb p s || string_existsb p t.
Proof.
  induction s as [| c s IH]; simpl; [reflexivity |].
  now rewrite IH, orb_assoc.
Qed.

Lemma digits_only_no_e (s : string) :
  string_forallb is_digit_char s = true -> string_existsb is_e_char s = false.
Proof.
  induction s as [| c s IH]; [reflexivity |].
  simpl. intros H. apply andb_true_iff in H. destruct H as [Hc Hs].
  rewrite (IH Hs), orb_false_r.
  destruct c as [[] [] [] [] [] [] [] []]; try discriminate Hc; reflexivity.
Qed.

Lemma strip_leading_zero_chars_digits (s : string) :
  string_forallb is_digit_char s = true ->
  string_forallb is_digit_char (strip_leading_zero_chars s) = true.
Proof.
  induction s as [| c s IH]; [reflexivity |].
  intros H. pose proof H as H'. simpl in H'.
  apply andb_true_iff in H'. destruct H' as [_ Hs].
  simpl. destruct (is_zero_char c); [now apply IH | exact H].
Qed.

Lemma strip_trailing_zero_chars_digits (s : string) :
  string_forallb is_digit_char s = true ->
  string_forallb is_digit_char (strip_trailing_zero_chars s) = true.
Proof.
  induction s as [| c s IH]; [reflexivity |].
  simpl. intros H. apply andb_true_iff in H. destruct H as [Hc Hs].
  specialize (IH Hs).
  destruct (strip_trailing_zero_chars s) as [| a t].
  - destruct (is_zero_char c); [reflexivity |]. simpl. now rewrite Hc.
  - cbn [string_forallb] in *. now rewrite Hc, IH.
Qed.

Lemma fixed_point_window_no_e (m : string) (k : Z) :
  string_forallb is_digit_char m = true ->
  string_existsb is_e_char (fixed_point_window m k) = false.
Proof.
  intros H. unfold fixed_point_window. cbv zeta.
  set (w := "000000000000000000000000000" ++ m ++ "00000000000000000000000").
  assert (D : string_forallb is_digit_char w = true).
  { subst w. rewrite !string_forallb_app, H. reflexivity. }
  rewrite string_existsb_app.
  pose proof (strip_leading_zero_chars_digits _
                (string_forallb_js_substring _ w 0 k D)) as A.
  pose proof (strip_trailing_zero_chars_digits _
                (string_forallb_js_substring _ w k (Z.of_nat (String.length w)) D)) as B.
  unfold js_substring_from.
  apply digits_only_no_e in A. apply digits_only_no_e in B.
  destruct (strip_leading_zero_chars _); destruct (strip_trailing_zero_chars _);
    simpl in *; rewrite ?A, ?B; reflexivity.
Qed.

(** ** parse_quality: reading the quality string *)

Local Open Scope list_scope.

Lemma mkDecimal_cases_list (n : bool) (c : list Digit) (x : Z) :
  mkDecimal n c x = DFin n [] 0
  \/ (exists (c' : list Digit) (k : nat),
         c' <> [] /\ headed c' /\ ended c'
         /\ strip_leading c = c' ++ zeros k
         /\ mkDecimal n c x = DFin n c' (x + Z.of_nat k)).
Proof.
  unfold mkDecimal.
  destruct (strip_trailing (strip_leading c)) as [| d r] eqn:T; [now left |].
  right. exists (d :: r), (List.length (strip_leading c) - List.length (d :: r))%nat.
  rewrite <- T. repeat split.
  - rewrite T. discriminate.
  - apply headed_strip_trailing, headed_strip.
  - apply ended_strip.
  - apply strip_trailing_decomp.
Qed.

Lemma small_int_of_N (m : N) :
  (m < 10 ^ 17)%N -> small_int (Decimal_of_N false m 0).
Proof.
  intros H. unfold Decimal_of_N.
  pose proof (digits_of_N_length 17 m H) as L.
  destruct (mkDecimal_cases_list false (digits_of_N m) 0)
    as [-> | (c & k & Hc & Hh & He & Hs & ->)]; [now split |].
  destruct c as [| d c]; [congruence |].
  pose proof (strip_leading_length (digits_of_N m)) as L'.
  rewrite Hs, length_app, zeros_length in L'.
  repeat split; auto; lia.
Qed.

Lemma small_int_toDigits (d : Decimal) :
  small_int d ->
  small_int (dec_toDigits 16 ROUND_DOWN d)
  /\ match dec_toDigits 16 ROUND_DOWN d with
     | DFin _ c _ => (List.length c <= 16)%nat
     | DNaN => True
     end.
Proof.
  destruct d as [| n [| a c] x];
    [contradiction | intros [-> ->]; split; [now split | simpl; lia] |].
  intros (-> & Hx & Hl & Hh & He).
  unfold dec_toDigits.
  destruct (List.length (a :: c) <=? 16)%nat eqn:B.
  - apply Nat.leb_le in B. split; [repeat split; auto | exact B].
  - apply Nat.leb_gt in B. unfold cut_digits, round_up.
    pose proof (firstn_le_length 16 (a :: c)) as F.
    destruct (mkDecimal_cases_list false (firstn 16 (a :: c))
                (x + Z.of_nat (List.length (a :: c) - 16)))
      as [-> | (c' & k & Hc & Hh' & He' & Hs & ->)]; [split; [now split | simpl; lia] |].
    destruct c' as [| d' c']; [congruence |].
    pose proof (strip_leading_length (firstn 16 (a :: c))) as L'.
    rewrite Hs, length_app, zeros_length in L'.
    rewrite length_firstn in L'.
    split; [repeat split; auto; lia | lia].
Qed.

Lemma small_int_toString (n : bool) (d : Digit) (c : list Digit) (x : Z) :
  small_int (DFin n (d :: c) x) ->
  dec_toString (DFin n (d :: c) x) = string_of_digits ((d :: c) ++ zeros (Z.to_nat x)).
Proof.
  intros (-> & Hx & Hl & _ & _).
  unfold dec_toString, dec_e.
  set (e := (Z.of_nat (List.length (d :: c)) - 1 + x)%Z).
  assert (0 <= e <= 16)%Z by (subst e; simpl List.length in *; lia).
  replace (e <=? -7)%Z with false by (symmetry; apply Z.leb_gt; lia).
  replace (21 <=? e)%Z with false by (symmetry; apply Z.leb_gt; lia).
  replace (e <? 0)%Z with false by (symmetry; apply Z.ltb_ge; lia).
  replace (0 <=? x)%Z with true by (symmetry; apply Z.leb_le; lia).
  reflexivity.
Qed.

Lemma string_of_N_digits (n : N) :
  exists l, l <> [] /\ string_of_N n = string_of_digits l /\ N_of_digits l = n.
Proof.
  unfold string_of_N. destruct (digits_of_N n) as [| d l] eqn:E.
  - exists [dg0]. repeat split; [discriminate |].
    rewrite <- (N_of_digits_of_N n), E. reflexivity.
  - exists (d :: l). repeat split; [discriminate |].
    rewrite <- E. apply N_of_digits_of_N.
Qed.

Local Open Scope string_scope.

Lemma nonempty_digits_of_digits (l : list Digit) :
  l <> [] -> nonempty_digits (string_of_digits l) = Some l.
Proof.
  destruct l as [| d l]; [congruence |]. intros _.
  unfold nonempty_digits. cbn [string_of_digits].
  apply (digits_of_string_of_digits (d :: l)).
Qed.

Lemma parse_exponent_string_of_Z (z : Z) : parse_exponent (string_of_Z z) = Some z.
Proof.
  unfold string_of_Z.
  destruct (string_of_N_digits (Z.abs_N z)) as (l & Hl & -> & Hn).
  destruct (z <? 0)%Z eqn:S.
  - cbn [parse_exponent]. rewrite (nonempty_digits_of_digits l Hl).
    simpl. rewrite Hn. f_equal. apply Z.ltb_lt in S. lia.
  - replace (parse_exponent (string_of_digits l))
      with (option_map (fun l0 => Z.of_N (N_of_digits l0))
                       (nonempty_digits (string_of_digits l))).
    + rewrite (nonempty_digits_of_digits l Hl). simpl. rewrite Hn.
      f_equal. apply Z.ltb_ge in S. lia.
    + destruct l as [| d l]; [congruence |]. now destruct d.
Qed.

(** A run of digits followed by an exponent part denotes the integer
    scaled. *)
Lemma Decimal_of_string_sci (l : list Digit) (off : Z) :
  l <> []%list ->
  Decimal_of_string (string_of_digits l ++ "e" ++ string_of_Z off)
  = mkDecimal false l off.
Proof.
  intros Hl. unfold Decimal_of_string.
  replace (match string_of_digits l ++ "e" ++ string_of_Z off with
           | String "-" r => (true, r)
           | _ => (false, string_of_digits l ++ "e" ++ string_of_Z off)
           end)
    with (false, string_of_digits l ++ "e" ++ string_of_Z off)
    by (destruct l as [| d l]; [congruence | now destruct d]).
  change ("e" ++ string_of_Z off) with (String "e" (string_of_Z off)).
  rewrite (split_at_app is_e_char _ _ "e" (digits_no_e l) eq_refl).
  rewrite (split_at_none _ _ (digits_no_dot l)).
  rewrite digits_of_string_of_digits. simpl digits_of_string. cbv iota.
  rewrite parse_exponent_string_of_Z.
  destruct l as [| d l]; [congruence |].
  rewrite app_nil_r. simpl List.length. f_equal. lia.
Qed.

(** Printing the mantissa, appending the exponent and reading the text
    back scales the mantissa. *)
Lemma mantissa_text_roundtrip (m : N) (off : Z) :
  (m < 10 ^ 17)%N ->
  IOUValue (Decimal_of_string
              (V.toString (IOUValue (Decimal_of_N false m 0) None)
               ++ "e" ++ string_of_Z off)) None
  = IOUValue (Decimal_of_N false m off) None.
Proof.
  intros Hm. unfold IOUValue, V.toString. cbn [num]. f_equal.
  unfold Decimal_of_N at 2.
  replace (mkDecimal false (digits_of_N m) off)
    with (dec_shift off (mkDecimal false (digits_of_N m) 0))
    by (symmetry; apply (mkDecimal_shift false (digits_of_N m) 0 off)).
  rewrite dec_toDigits_shift. fold (Decimal_of_N false m 0).
  destruct (small_int_toDigits _ (small_int_of_N m Hm)) as [S L].
  destruct (dec_toDigits 16 ROUND_DOWN (Decimal_of_N false m 0)) as [| n [| d c] x];
    [contradiction | |].
  - destruct S as [-> ->].
    change (dec_toString (DFin false []%list 0)) with (string_of_digits [dg0]).
    rewrite Decimal_of_string_sci by discriminate. reflexivity.
  - rewrite (small_int_toString _ _ _ _ S).
    rewrite Decimal_of_string_sci by discriminate.
    destruct S as (-> & Hx & Hl & Hh & He).
    rewrite mkDecimal_app_zeros, mkDecimal_normal by (auto; discriminate).
    rewrite Z2Nat.id by exact Hx.
    unfold dec_toDigits, dec_shift.
    replace (List.length (d :: c) <=? 16)%nat with true
      by (symmetry; now apply Nat.leb_le).
    f_equal. lia.
Qed.

(** *** Slicing the quality string *)

Lemma substring_length (n m : nat) (s : string) :
  (n + m <= String.length s)%nat -> String.length (String.substring n m s) = m.
Proof.
  revert n m. induction s as [| c s IH]; intros n m H.
  - simpl in H. assert (n = 0 /\ m = 0)%nat as [-> ->] by lia. reflexivity.
  - destruct n as [| n]; simpl.
    + destruct m as [| m]; [reflexivity |]. simpl. f_equal.
      apply IH. simpl in H. lia.
    + apply IH. simpl in H. lia.
Qed.

Lemma js_substring_in_range (s : string) (a b : Z) :
  (0 <= a <= b)%Z -> (b <= Z.of_nat (String.length s))%Z ->
  js_substring s a b = String.substring (Z.to_nat a) (Z.to_nat (b - a)) s.
Proof.
  intros Ha Hb. unfold js_substring.
  set (len := Z.of_nat (String.length s)) in *.
  replace (Z.max 0 (Z.min a len)) with a by lia.
  replace (Z.max 0 (Z.min b len)) with b by lia.
  replace (Z.min a b) with a by lia.
  replace (Z.max a b) with b by lia.
  reflexivity.
Qed.

Lemma hex_value_bound (s : string) (acc : N) :
  string_forallb is_hex_char s = true ->
  exists v, hex_value s acc = Some v
            /\ (v < (acc + 1) * 16 ^ N.of_nat (String.length s))%N.
Proof.
  revert acc. induction s as [| c s IH]; intros acc H.
  - exists acc. split; [reflexivity |]. simpl. lia.
  - simpl in H. apply andb_true_iff in H. destruct H as [Hc Hs].
    unfold is_hex_char in Hc. cbn [hex_value].
    destruct (hex_of_ascii c) as [h |] eqn:E; [| discriminate].
    assert (Hh : (h < 16)%N).
    { unfold hex_of_ascii in E.
      destruct (digit_of_ascii c) as [d |].
      - injection E as <-. pose proof (N_of_digit_lt d). lia.
      - destruct c as [[] [] [] [] [] [] [] []]; try discriminate E;
          injection E as <-; reflexivity. }
    destruct (IH (16 * acc + h)%N Hs) as (v & -> & Hv).
    exists v. split; [reflexivity |].
    change (String.length (String c s)) with (S (String.length s)).
    rewrite Nat2N.inj_succ, N.pow_succ_r'. nia.
Qed.

Lemma hex_N_bound (s : string) :
  string_forallb is_hex_char s = true ->
  hex_value s 0%N = Some (hex_N s) /\ (hex_N s < 16 ^ N.of_nat (String.length s))%N.
Proof.
  intros H. destruct (hex_value_bound s 0%N H) as (v & E & B).
  unfold hex_N. rewrite E. split; [reflexivity | lia].
Qed.

Lemma hex_prefix_all (s : string) (acc : N) (seen : bool) :
  string_forallb is_hex_char s = true ->
  seen = true \/ s <> EmptyString ->
  hex_prefix s acc seen = hex_value s acc.
Proof.
  revert acc seen. induction s as [| c s IH]; intros acc seen H N.
  - destruct N as [-> | N]; [reflexivity | congruence].
  - simpl in H. apply andb_true_iff in H. destruct H as [Hc Hs].
    unfold is_hex_char in Hc. cbn [hex_prefix hex_value].
    destruct (hex_of_ascii c); [| discriminate].
    apply IH; auto.
Qed.

Lemma hex_char_plain (c : ascii) (r : string) :
  is_hex_char c = true ->
  trim_left (String c r) = String c r
  /\ match String c r with
     | String "-" r' => (true, r')
     | String "+" r' => (false, r')
     | _ => (false, String c r)
     end = (false, String c r)
  /\ match String c r with
     | String "-" r' => (true, r')
     | _ => (false, String c r)
     end = (false, String c r).
Proof.
  destruct c as [[] [] [] [] [] [] [] []]; intros H; try discriminate H;
    repeat split.
Qed.

Lemma hex_no_0x (c1 c2 : ascii) (r : string) :
  is_hex_char c2 = true ->
  match String c1 (String c2 r) with
  | String "0" (String ("x" | "X") r') => r'
  | _ => String c1 (String c2 r)
  end = String c1 (String c2 r).
Proof.
  intros H.
  destruct c1 as [[] [] [] [] [] [] [] []]; try reflexivity.
  destruct c2 as [[] [] [] [] [] [] [] []]; try reflexivity; discriminate H.
Qed.

Lemma parseInt16_hex (t : string) :
  string_forallb is_hex_char t = true -> String.length t = 2%nat ->
  parseInt16 t = Some (Z.of_N (hex_N t)).
Proof.
  intros H L.
  destruct t as [| c1 [| c2 [| c3 r]]]; try discriminate L.
  pose proof H as H'. simpl in H'.
  apply andb_true_iff in H'. destruct H' as [H1 H2].
  apply andb_true_iff in H2. destruct H2 as [H2 _].
  unfold parseInt16.
  destruct (hex_char_plain c1 (String c2 "") H1) as (-> & -> & _).
  rewrite (hex_no_0x c1 c2 "" H2).
  rewrite hex_prefix_all by (auto; right; discriminate).
  now rewrite (proj1 (hex_N_bound _ H)).
Qed.

Lemma Decimal_of_hex_all (t : string) :
  string_forallb is_hex_char t = true -> t <> EmptyString ->
  Decimal_of_hex t = Decimal_of_N false (hex_N t) 0.
Proof.
  intros H N. destruct t as [| c r]; [congruence |].
  pose proof H as H'. simpl in H'. apply andb_true_iff in H'. destruct H' as [Hc _].
  unfold Decimal_of_hex.
  destruct (hex_char_plain c r Hc) as (_ & _ & ->).
  now rewrite (proj1 (hex_N_bound _ H)).
Qed.

(** *** Signs *)

Lemma dec_toDigits_sign (sd : nat) (d : Decimal) :
  dec_isNegative (dec_toDigits sd ROUND_DOWN d) = dec_isNegative d.
Proof.
  destruct d as [| n c x]; [reflexivity |]. unfold dec_toDigits.
  destruct (List.length c <=? sd)%nat; [reflexivity |].
  unfold cut_digits, round_up. rewrite mkDecimal_sign. now destruct n.
Qed.

Lemma dec_div_nonneg (a b : Decimal) :
  dec_isNegative a = false -> dec_isNegative b = false ->
  dec_isNegative (dec_div a b) = false.
Proof.
  destruct a as [| na ca xa], b as [| nb [| d cb] xb]; try reflexivity.
  intros Ha Hb. unfold dec_div. rewrite mkDecimal_sign.
  destruct na, nb; try discriminate; reflexivity.
Qed.

Lemma dec_times_nonneg (a b : Decimal) :
  dec_isNegative a = false -> dec_isNegative b = false ->
  dec_isNegative (dec_times a b) = false.
Proof.
  destruct a as [| na ca xa], b as [| nb cb xb]; try reflexivity.
  intros Ha Hb. unfold dec_times. rewrite mkDecimal_sign.
  destruct na, nb; try discriminate; reflexivity.
Qed.

Lemma IOUValue_nonneg (d : Decimal) :
  dec_isNegative d = false -> V.isNegative (IOUValue d None) = false.
Proof. intros H. unfold V.isNegative, IOUValue. cbn [num]. now rewrite dec_toDigits_sign. Qed.

Lemma invert_IOU_nonneg (v : Value) :
  kind v = IOU -> V.isNegative v = false ->
  V.isNegative (V.invert v) = false /\ kind (V.invert v) = IOU.
Proof.
  intros Kv Hv. unfold V.invert. rewrite Kv. unfold canonicalize.
  split; [| reflexivity]. unfold V.isNegative. cbn [num].
  rewrite dec_toDigits_sign. now apply dec_div_nonneg.
Qed.

Lemma native_is_valid (c : Currency) :
  Cur.is_valid c && Cur.is_native c = Cur.is_native c.
Proof. now destruct c. Qed.

Lemma interest_is_valid (c : Currency) :
  Cur.is_valid c && Cur.has_interest c = Cur.has_interest c.
Proof. now destruct c. Qed.

(** ** Seed.from_json *)






Lemma hex_value_positional (s : string) (acc : N) :
  hex_value s acc
  = match hex_digits s with
    | Some l => Some (acc * 16 ^ N.of_nat (List.length l) + positional 16 l)%N
    | None => None
    end.
Proof.
  revert acc. induction s as [| c s IH]; intros acc.
  - simpl. f_equal. lia.
  - cbn [hex_value hex_digits]. destruct (hex_of_ascii c) as [h |]; [| reflexivity].
    rewrite IH. destruct (hex_digits s) as [l |]; [| reflexivity].
    cbn [positional List.length]. f_equal.
    rewrite Nat2N.inj_succ, N.pow_succ_r'. lia.
Qed.



Example Seed_from_json_s_prefix_not_decoding :
  Seed.is_valid (Seed.from_json demo_decodeSeed demo_sha512 (Some "sfoo")) = false.
Proof. reflexivity. Qed.

Example Seed_from_json_hex :
  Seed.from_json demo_decodeSeed demo_sha512 (Some "000102030405060708090A0B0C0D0E0F")
  = Seed.mkSeed (Some 5233100606242806050955395731361295%N) Seed.secp256k1.
Proof. reflexivity. Qed.

(* ================================================================== *)
(** * Further properties of Amount *)

(** ** Sums and differences *)

Lemma dec_plus_comm (a b : Decimal) : dec_plus a b = dec_plus b a.
Proof.
  destruct a as [| na ca xa], b as [| nb cb xb]; try reflexivity.
  unfold dec_plus. rewrite (Z.min_comm xb xa), (andb_comm nb na).
  now rewrite (Z.add_comm (scaled nb cb _)).
Qed.

Lemma dec_plus_neg (n : bool) (c : list Digit) (x : Z) :
  dec_plus (DFin n c x) (dec_neg (DFin n c x)) = DFin false [] 0.
Proof.
  unfold dec_plus, dec_neg, scaled.
  replace ((if n then -1 else 1) * (Z.of_N (N_of_digits c) * 10 ^ (x - Z.min x x))
           + (if negb n then -1 else 1) * (Z.of_N (N_of_digits c) * 10 ^ (x - Z.min x x)))
    with 0 by (destruct n; cbn [negb]; lia).
  now destruct n.
Qed.

Lemma canonicalize_zero (k : ValueKind) (n : bool) :
  canonicalize k (DFin n [] 0) = mkValue k (DFin n [] 0).
Proof. destruct k; reflexivity. Qed.

Lemma is_comparable_sym (a b : Amount) : is_comparable a b = is_comparable b a.
Proof.
  unfold is_comparable.
  destruct (is_valid a), (is_valid b), (_is_native a), (_is_native b); reflexivity.
Qed.

(** The range check looks at the value and the native flag only. *)
Lemma _check_limits_value (strict : bool) (a b : Amount) :
  _value a = _value b -> _is_native a = _is_native b ->
  value_of (_check_limits strict a) = value_of (_check_limits strict b).
Proof.
  intros Hv Hn. unfold _check_limits. rewrite Hv, Hn.
  destruct (negb strict); [simpl; now rewrite Hv |].
  destruct (V.isNaN (_value b) || V.isZero (_value b)); [simpl; now rewrite Hv |].
  destruct (_is_native b).
  - destruct (V.greaterThan _ _); [reflexivity | simpl; now rewrite Hv].
  - destruct (V.lessThan _ _); [reflexivity |].
    destruct (V.greaterThan _ _); [reflexivity | simpl; now rewrite Hv].
Qed.

(** X1.  [a.subtract(a)] is zero for every valid Amount, in either mode: the
    difference keeps the native flag, the currency and the issuer of [a], and
    its zero is not negative. *)
Theorem subtract_self
        (strict : bool) (cfj : string -> bool -> Currency) (ufj : string -> UInt160)
        (a : Amount) :
  is_valid a = true ->
  subtract strict cfj ufj a (JAmount a)
  = Ok (set_value a (mkValue (kind (_value a)) (DFin false [] 0))).
Proof.
  intros Hv. unfold subtract. rewrite from_json_Amount. cbn [bind].
  unfold add. rewrite from_json_Amount. cbn [bind].
  replace (is_comparable a (negate a)) with true.
  2:{ unfold is_comparable. rewrite is_valid_negate, Hv. simpl.
      now destruct (_is_native a). }
  cbn [negb]. unfold _copy. rewrite clone_id.
  unfold V.add, negate, clone, copyTo. cbn [_value].
  unfold V.negate. cbn [num kind].
  destruct a as [[k d] nat cur iss]. cbn [_value num kind] in *.
  destruct d as [| n c x]; [discriminate Hv |].
  rewrite dec_plus_neg, canonicalize_zero.
  unfold _set_value, _check_limits, set_value. cbn.
  now destruct strict.
Qed.

Lemma subtract_self_witness :
  is_valid (usd (DFin false [dg1; dg0; dg0; dg4] (-1))) = true
  /\ subtract true demo_Currency_from_json demo_UInt160_from_json
       (usd (DFin false [dg1; dg0; dg0; dg4] (-1)))
       (JAmount (usd (DFin false [dg1; dg0; dg0; dg4] (-1))))
     = Ok (usd (DFin false [] 0)).
Proof.
  split; [reflexivity |].
  exact (subtract_self true demo_Currency_from_json demo_UInt160_from_json
           (usd (DFin false [dg1; dg0; dg0; dg4] (-1))) eq_refl).
Defined.

Lemma dec_times_comm (a b : Decimal) : dec_times a b = dec_times b a.
Proof.
  destruct a as [| na ca xa], b as [| nb cb xb]; try reflexivity.
  unfold dec_times. now rewrite (xorb_comm nb na), (N.mul_comm (N_of_digits cb)),
    (Z.add_comm xb xa).
Qed.

(** X2.  Addition commutes in the value: for operands of one Value class,
    [a.add(b)] and [b.add(a)] return the same value, or throw the same range
    error.  So does multiplication for issued operands. *)
Theorem add_commutes
        (strict : bool) (cfj : string -> bool -> Currency) (ufj : string -> UInt160)
        (a b : Amount) :
  kind (_value a) = kind (_value b) ->
  value_of (add strict cfj ufj a (JAmount b)) = value_of (add strict cfj ufj b (JAmount a))
  /\ (kind (_value a) = IOU -> _is_native a = _is_native b ->
      value_of (multiply strict cfj ufj a (JAmount b))
      = value_of (multiply strict cfj ufj b (JAmount a))).
Proof.
  intros Hk. split.
  - unfold add. rewrite !from_json_Amount. cbn [bind].
    rewrite (is_comparable_sym b a).
    destruct (is_comparable a b) eqn:C; [| reflexivity].
    cbn [negb]. unfold _copy, _set_value. rewrite !clone_id.
    unfold V.add. rewrite Hk, (dec_plus_comm (num (_value b))).
    apply _check_limits_value; [reflexivity |].
    unfold is_comparable in C.
    destruct (is_valid a), (is_valid b); try discriminate C.
    now apply eqb_prop.
  - intros Ka Hn. unfold multiply. rewrite !from_json_Amount. cbn [bind].
    unfold _copy, _set_value. rewrite !clone_id.
    unfold V.multiply, V.operand. rewrite <- Hk, Ka.
    rewrite (dec_times_comm (num (_value b))).
    apply _check_limits_value; [reflexivity | exact Hn].
Qed.

Lemma add_commutes_witness :
  kind (_value (usd (DFin false [dg1; dg5] (-1)))) = kind (_value (usd (DFin false [dg2] 0)))
  /\ value_of (add true demo_Currency_from_json demo_UInt160_from_json
                 (usd (DFin false [dg1; dg5] (-1))) (JAmount (usd (DFin false [dg2] 0))))
     = value_of (add true demo_Currency_from_json demo_UInt160_from_json
                   (usd (DFin false [dg2] 0)) (JAmount (usd (DFin false [dg1; dg5] (-1)))))
  /\ value_of (multiply true demo_Currency_from_json demo_UInt160_from_json
                 (usd (DFin false [dg1; dg5] (-1))) (JAmount (usd (DFin false [dg2] 0))))
     = value_of (multiply true demo_Currency_from_json demo_UInt160_from_json
                   (usd (DFin false [dg2] 0)) (JAmount (usd (DFin false [dg1; dg5] (-1))))).
Proof.
  pose proof (add_commutes true demo_Currency_from_json demo_UInt160_from_json
                (usd (DFin false [dg1; dg5] (-1))) (usd (DFin false [dg2] 0)) eq_refl) as T.
  split; [reflexivity |].
  split; [exact (proj1 T) | exact (proj2 T eq_refl eq_refl)].
Defined.

(** ** Order and equality *)

Lemma is_valid_num (a : Amount) :
  is_valid a = true -> exists n c x, num (_value a) = DFin n c x.
Proof.
  unfold is_valid, V.isNaN. destruct (num (_value a)) as [| n c x]; [discriminate |].
  intros _. now exists n, c, x.
Qed.

(** X3.  For comparable Amounts [compareTo] returns -1, 0 or 1 as the value
    of the receiver is below, equal to or above the value of the operand as
    rational numbers, never null; and the two directions of the comparison
    are opposite. *)
Theorem compareTo_order
        (strict : bool) (cfj : string -> bool -> Currency) (ufj : string -> UInt160)
        (a b : Amount) :
  is_comparable a b = true ->
  let c := (dec_Q (num (_value a)) ?= dec_Q (num (_value b)))%Q in
  compareTo strict cfj ufj a (JAmount b) = Ok (CmpNumber (Some (sign_of c)))
  /\ compareTo strict cfj ufj b (JAmount a) = Ok (CmpNumber (Some (- sign_of c))).
Proof.
  intros C c. unfold compareTo. rewrite !from_json_Amount. cbn [bind].
  rewrite (is_comparable_sym b a), C. cbn [negb].
  unfold is_comparable in C.
  destruct (is_valid a) eqn:Va; [| discriminate C].
  destruct (is_valid b) eqn:Vb; [| discriminate C].
  destruct (is_valid_num a Va) as (na & ca & xa & Ea).
  destruct (is_valid_num b Vb) as (nb & cb & xb & Eb).
  unfold V.comparedTo. subst c. rewrite Ea, Eb, !dec_cmp_Q.
  rewrite <- (Qcompare_antisym (dec_Q (DFin na ca xa)) (dec_Q (DFin nb cb xb))).
  destruct (dec_Q (DFin na ca xa) ?= dec_Q (DFin nb cb xb))%Q; split; reflexivity.
Qed.

Lemma compareTo_order_witness :
  is_comparable (usd (DFin false [dg1; dg5] (-1))) (usd (DFin false [dg2] 0)) = true
  /\ compareTo true demo_Currency_from_json demo_UInt160_from_json
       (usd (DFin false [dg1; dg5] (-1))) (JAmount (usd (DFin false [dg2] 0)))
     = Ok (CmpNumber (Some (-1))).
Proof.
  split; [reflexivity |].
  exact (proj1 (compareTo_order true demo_Currency_from_json demo_UInt160_from_json
                  (usd (DFin false [dg1; dg5] (-1))) (usd (DFin false [dg2] 0)) eq_refl)).
Defined.

Lemma dec_eq_sym (a b : Decimal) : dec_eq a b = dec_eq b a.
Proof.
  destruct a as [| na ca xa], b as [| nb cb xb]; try reflexivity.
  unfold dec_eq, dec_cmp. rewrite (Z.min_comm xb xa).
  rewrite (Z.compare_antisym (scaled na ca _) (scaled nb cb _)).
  now destruct (scaled na ca _ ?= scaled nb cb _)%Z.
Qed.

Lemma Cur_equals_sym (c d : Currency) : Cur.equals c d = Cur.equals d c.
Proof.
  destruct c, d; simpl; try reflexivity; [apply String.eqb_sym | apply N.eqb_sym].
Qed.

Lemma U160_equals_sym (u v : UInt160) : U160.equals u v = U160.equals v u.
Proof. destruct u, v; simpl; try reflexivity. apply N.eqb_sym. Qed.

(** X4.  [equals] is symmetric on Amounts: [a.equals(b, ignore_issuer)] and
    [b.equals(a, ignore_issuer)] agree. *)
Theorem equals_symmetric
        (strict : bool) (cfj : string -> bool -> Currency) (ufj : string -> UInt160)
        (a b : Amount) (ignore_issuer : bool) :
  equals strict cfj ufj a (JAmount b) ignore_issuer
  = equals strict cfj ufj b (JAmount a) ignore_issuer.
Proof.
  unfold equals, equals_amount, V.equals. f_equal.
  rewrite (dec_eq_sym (num (_value b))), (Cur_equals_sym (_currency b)),
    (U160_equals_sym (_issuer b)).
  destruct (is_valid a), (is_valid b), (_is_native a), (_is_native b); reflexivity.
Qed.





Local Open Scope list_scope.

(** A decimal in normal form that is not zero differs from its negation. *)
Lemma dec_eq_neg_false (a b : Decimal) :
  dec_normal a -> dec_isZero a = false -> dec_eq a b = true ->
  dec_eq (dec_neg a) b = false.
Proof.
  destruct a as [| n c x]; [discriminate |].
  destruct b as [| nb cb xb]; [discriminate |].
  destruct c as [| d c]; [discriminate |].
  intros [Hh _] _. unfold dec_eq, dec_neg, dec_cmp.
  set (m := Z.min x xb).
  destruct (scaled n (d :: c) (x - m) ?= scaled nb cb (xb - m))%Z eqn:E;
    try discriminate.
  intros _. apply Z.compare_eq in E. rewrite <- E.
  assert (P : (0 < N_of_digits (d :: c))%N)
    by (apply N_of_digits_headed_pos; [exact Hh | discriminate]).
  assert (T : 0 < 10 ^ (x - m)) by (apply Z.pow_pos_nonneg; subst m; lia).
  unfold scaled.
  destruct (_ ?= _)%Z eqn:K; try reflexivity.
  apply Z.compare_eq in K. destruct n; cbn [negb] in K; nia.
Qed.

Local Open Scope string_scope.

(** X5.  [not_equals_why] finds no difference exactly when [equals] holds:
    for an Amount operand and a receiver whose value is in normal form, it
    returns undefined if and only if [equals] returns true. *)
Theorem not_equals_why_iff_equals
        (strict : bool) (cfj : string -> bool -> Currency) (ufj : string -> UInt160)
        (u2j : UInt160 -> string) (a d : Amount) (ignore_issuer : bool) :
  dec_normal (num (_value a)) ->
  (not_equals_why strict cfj ufj u2j a (JAmount d) ignore_issuer = Ok None
   <-> equals strict cfj ufj a (JAmount d) ignore_issuer = Ok true).
Proof.
  intros Hn. unfold not_equals_why, equals, not_equals_why_amount, equals_amount.
  pose proof (dec_eq_neg_false (num (_value a)) (num (_value d)) Hn) as L.
  unfold V.equals, V.isZero, V.negate in *. cbn [num] in *.
  destruct (is_valid a), (is_valid d); cbn [negb orb andb];
    try (split; intros H; discriminate H).
  destruct (Bool.eqb (_is_native a) (_is_native d)); cbn [negb orb andb];
    try (split; intros H; discriminate H).
  destruct (dec_isZero (num (_value a))) eqn:Z; cbn [negb andb].
  - destruct (dec_eq (num (_value a)) (num (_value d))); cbn [negb andb];
      try (split; intros H; discriminate H).
    destruct (_is_native a); cbn [negb orb]; [split; reflexivity |].
    destruct (Cur.equals _ _); cbn [negb andb];
      try (split; intros H; discriminate H).
    destruct ignore_issuer; cbn [negb andb orb]; [split; reflexivity |].
    destruct (U160.equals _ _); cbn [negb]; split; intros H;
      try discriminate H; reflexivity.
  - destruct (dec_eq (num (_value a)) (num (_value d))) eqn:E.
    + rewrite (L eq_refl eq_refl). cbn [negb andb].
      destruct (_is_native a); cbn [negb orb]; [split; reflexivity |].
      destruct (Cur.equals _ _); cbn [negb andb];
        try (split; intros H; discriminate H).
      destruct ignore_issuer; cbn [negb andb orb]; [split; reflexivity |].
      destruct (U160.equals _ _); cbn [negb]; split; intros H;
        try discriminate H; reflexivity.
    + cbn [negb andb].
      destruct (dec_eq (dec_neg (num (_value a))) (num (_value d)));
        split; intros H; discriminate H.
Qed.

Lemma not_equals_why_iff_equals_witness :
  dec_normal (num (_value (usd (DFin false [dg1; dg5] (-1)))))
  /\ not_equals_why true demo_Currency_from_json demo_UInt160_from_json
       (fun _ => "r") (usd (DFin false [dg1; dg5] (-1)))
       (JAmount (usd (DFin false [dg1; dg5] (-1)))) false = Ok None.
Proof.
  assert (N : dec_normal (num (_value (usd (DFin false [dg1; dg5] (-1))))))
    by (split; reflexivity).
  split; [exact N |].
  exact (proj2 (not_equals_why_iff_equals true demo_Currency_from_json
                  demo_UInt160_from_json (fun _ => "r")
                  (usd (DFin false [dg1; dg5] (-1)))
                  (usd (DFin false [dg1; dg5] (-1))) false N) eq_refl).
Defined.

(** ** Canonical values *)

Local Open Scope list_scope.

Lemma cut_digits_down (n : bool) (c : list Digit) (k : nat) (x : Z) :
  cut_digits ROUND_DOWN n c k x = mkDecimal n (firstn k c) x.
Proof. reflexivity. Qed.

Lemma mkDecimal_bounds (n : bool) (c : list Digit) (x : Z) :
  match mkDecimal n c x with
  | DFin _ ((_ :: _) as c') x' => (List.length c' <= List.length c)%nat /\ (x <= x')%Z
  | _ => True
  end.
Proof.
  destruct (mkDecimal_cases_list n c x) as [-> | (c' & k & Hc & _ & _ & Hs & ->)];
    [exact I |].
  destruct c' as [| d c']; [congruence |].
  pose proof (strip_leading_length c) as L.
  rewrite Hs, length_app in L. split; lia.
Qed.

Lemma canonicalize_kind (k : ValueKind) (d : Decimal) : kind (canonicalize k d) = k.
Proof. now destruct k. Qed.

(** What the Value classes hand out is canonical. *)
Lemma canonicalize_canonical (k : ValueKind) (d : Decimal) :
  dec_normal d -> canonical (canonicalize k d).
Proof.
  intros N. destruct d as [| n c x]; [destruct k; split; exact I |].
  destruct k; unfold canonicalize, canonical; cbn [num kind].
  - unfold dec_round.
    destruct (- x - 6 <=? 0)%Z eqn:R.
    + split; [exact N |]. destruct c; [exact I |]. apply Z.leb_le in R. lia.
    + destruct (Z.of_nat (List.length c) <? - x - 6)%Z; [split; [reflexivity | exact I] |].
      rewrite cut_digits_down. split; [apply mkDecimal_is_normal |].
      pose proof (mkDecimal_bounds n (firstn (Z.to_nat (Z.of_nat (List.length c) - (- x - 6))) c)
                    (- (6))) as B.
      destruct (mkDecimal _ _ _) as [| ? [| ? ?] ?]; try exact I. lia.
  - unfold dec_toDigits.
    destruct (List.length c <=? 16)%nat eqn:L.
    + split; [exact N |]. destruct c; [exact I |]. now apply Nat.leb_le.
    + rewrite cut_digits_down. split; [apply mkDecimal_is_normal |].
      pose proof (mkDecimal_bounds n (firstn 16 c)
                    (x + Z.of_nat (List.length c - 16))) as B.
      pose proof (firstn_le_length 16 c) as F.
      destruct (mkDecimal _ _ _) as [| ? [| ? ?] ?]; try exact I. lia.
Qed.

(** A canonical value is left as it is by its class. *)
Lemma canonicalize_fix (v : Value) :
  canonical v -> canonicalize (kind v) (num v) = v.
Proof.
  destruct v as [k d]. unfold canonical. cbn [kind num]. intros [N C].
  destruct d as [| n [| a c] x]; [now destruct k | |].
  - simpl in N. subst x. now destruct k.
  - destruct k; unfold canonicalize; f_equal.
    + unfold dec_round. replace (- x - 6 <=? 0)%Z with true; [reflexivity |].
      symmetry. apply Z.leb_le. lia.
    + unfold dec_toDigits. replace (List.length (a :: c) <=? 16)%nat with true;
        [reflexivity |].
      symmetry. now apply Nat.leb_le.
Qed.

(** Cutting a value twice is cutting it once. *)
Lemma canonicalize_idem (k : ValueKind) (d : Decimal) :
  canonicalize k (num (canonicalize k d)) = canonicalize k d.
Proof.
  destruct d as [| n c x]; [now destruct k |].
  destruct k; unfold canonicalize; cbn [num]; f_equal.
  - remember (dec_round 6 ROUND_DOWN (DFin n c x)) as r eqn:E.
    unfold dec_round in E.
    destruct (- x - 6 <=? 0)%Z eqn:R.
    + subst r. unfold dec_round. now rewrite R.
    + destruct (Z.of_nat (List.length c) <? - x - 6)%Z; [now subst r |].
      rewrite cut_digits_down in E.
      pose proof (mkDecimal_bounds n (firstn (Z.to_nat (Z.of_nat (List.length c) - (- x - 6))) c)
                    (- (6))) as B.
      pose proof (mkDecimal_is_normal n
                    (firstn (Z.to_nat (Z.of_nat (List.length c) - (- x - 6))) c) (- (6))) as N.
      rewrite <- E in B, N.
      destruct r as [| n' [| a' c'] x']; try reflexivity.
      * simpl in N. now subst x'.
      * unfold dec_round. replace (- x' - 6 <=? 0)%Z with true; [reflexivity |].
        symmetry. apply Z.leb_le. lia.
  - remember (dec_toDigits 16 ROUND_DOWN (DFin n c x)) as r eqn:E.
    unfold dec_toDigits in E.
    destruct (List.length c <=? 16)%nat eqn:L.
    + subst r. unfold dec_toDigits. now rewrite L.
    + rewrite cut_digits_down in E.
      pose proof (mkDecimal_bounds n (firstn 16 c)
                    (x + Z.of_nat (List.length c - 16))) as B.
      pose proof (firstn_le_length 16 c) as F.
      rewrite <- E in B.
      destruct r as [| n' [| a' c'] x']; try reflexivity.
      unfold dec_toDigits. replace (List.length (a' :: c') <=? 16)%nat with true;
        [reflexivity |].
      symmetry. apply Nat.leb_le. lia.
Qed.

Lemma dec_round_sign (dp : Z) (d : Decimal) :
  dec_isNegative (dec_round dp ROUND_DOWN d) = dec_isNegative d.
Proof.
  destruct d as [| n c x]; [reflexivity |]. unfold dec_round.
  destruct (- x - dp <=? 0)%Z; [reflexivity |].
  destruct (Z.of_nat (List.length c) <? - x - dp)%Z; [now destruct n |].
  rewrite cut_digits_down, mkDecimal_sign. now destruct n.
Qed.

Lemma canonicalize_sign (k : ValueKind) (d : Decimal) :
  V.isNegative (canonicalize k d) = dec_isNegative d.
Proof.
  destruct k; unfold canonicalize, V.isNegative; cbn [num];
    [apply dec_round_sign | apply dec_toDigits_sign].
Qed.

Lemma dec_abs_nonneg (d : Decimal) : dec_isNegative d = false -> dec_abs d = d.
Proof. destruct d as [| [] c x]; try reflexivity. discriminate. Qed.

Lemma abs_not_negative (v : Value) : V.isNegative (V.abs v) = false.
Proof. unfold V.abs. rewrite canonicalize_sign. now destruct (num v). Qed.

Lemma abs_abs (v : Value) : V.abs (V.abs v) = V.abs v.
Proof.
  assert (K : kind (V.abs v) = kind v) by apply canonicalize_kind.
  assert (S : dec_abs (num (V.abs v)) = num (V.abs v))
    by apply dec_abs_nonneg, abs_not_negative.
  unfold V.abs at 1. rewrite K, S. unfold V.abs. apply canonicalize_idem.
Qed.

Local Open Scope string_scope.

(** ** abs *)

Lemma stored_value_nonneg (v : Value) : V.isNegative v = false -> stored_value v = v.
Proof. unfold stored_value. intros ->. now rewrite andb_false_r. Qed.

(** What [_copy] returns: the receiver with the value stored. *)
Lemma _copy_ok (strict : bool) (this r : Amount) (v : Value) :
  _copy strict this v = Ok r -> r = set_value this (stored_value v).
Proof.
  unfold _copy, _set_value. rewrite clone_id. fold (stored_value v).
  apply _check_limits_ok.
Qed.

Lemma abs_negate (v : Value) : V.abs (V.negate v) = V.abs v.
Proof. unfold V.abs, V.negate. cbn [kind num]. now destruct (num v). Qed.

(** X6.  The Amount [abs] returns is not negative, has the native flag, the
    currency and the issuer of the receiver, and is its own absolute
    value; and [abs] does not see the sign: it returns the same for an
    Amount and for its negation. *)
Theorem abs_idempotent (strict : bool) (a r : Amount) :
  abs strict a = Ok r ->
  is_negative r = false /\ same_unit a r /\ abs strict r = Ok r
  /\ abs strict (negate a) = Ok r.
Proof.
  intros H0.
  assert (Hneg : abs strict (negate a) = abs strict a).
  { unfold abs, negate, clone, copyTo, _copy, _set_value. cbn [_value].
    rewrite abs_negate. now destruct a. }
  rewrite Hneg. revert H0.
  unfold abs. intros H. pose proof (_copy_ok _ _ _ _ H) as E.
  rewrite (stored_value_nonneg (V.abs (_value a)) (abs_not_negative _)) in E.
  subst r. split; [apply abs_not_negative |].
  split; [now split |].
  cbn [set_value _value]. rewrite abs_abs.
  unfold _copy in *. rewrite !clone_id in *.
  rewrite !_set_value_nonneg in * by apply abs_not_negative.
  split; [destruct a; exact H | exact H].
Qed.

Lemma abs_idempotent_witness :
  abs true (usd (DFin true [dg1; dg5] (-1))) = Ok (usd (DFin false [dg1; dg5] (-1)))
  /\ is_negative (usd (DFin false [dg1; dg5] (-1))) = false
  /\ abs true (usd (DFin false [dg1; dg5] (-1))) = Ok (usd (DFin false [dg1; dg5] (-1))).
Proof.
  assert (H : abs true (usd (DFin true [dg1; dg5] (-1)))
              = Ok (usd (DFin false [dg1; dg5] (-1)))) by reflexivity.
  split; [exact H |].
  pose proof (abs_idempotent true _ _ H) as T.
  split; [exact (proj1 T) | exact (proj1 (proj2 (proj2 T)))].
Defined.

(** ** What arithmetic keeps *)

Lemma same_unit_refl (a : Amount) : same_unit a a.
Proof. now split. Qed.

Lemma _copy_same_unit (strict : bool) (this r : Amount) (v : Value) :
  _copy strict this v = Ok r -> same_unit this r.
Proof. intros H. apply _copy_ok in H. subst r. now split. Qed.

Lemma _set_value_same_unit (strict : bool) (this r : Amount) (j : JsVal) :
  _set_value strict this j = Ok r -> same_unit this r.
Proof.
  destruct j; try discriminate. intros H. apply _set_value_ok in H. subst r. now split.
Qed.

Lemma same_unit_trans (a b c : Amount) : same_unit a b -> same_unit b c -> same_unit a c.
Proof. unfold same_unit. intros (-> & -> & ->) (-> & -> & ->). auto. Qed.

(** X8.  The Amount an arithmetic operation returns has the native flag,
    the currency and the issuer of the receiver, whatever the operand is;
    [add], [subtract] and [product_human] may instead return the empty
    invalid Amount. *)
Theorem arithmetic_keeps_unit
        (strict : bool) (cfj : string -> bool -> Currency) (ufj : string -> UInt160)
        (gia : Currency -> Z -> Decimal)
        (a : Amount) (j : JsVal) (date : option Z) (r : Amount) :
  (add strict cfj ufj a j = Ok r -> r = Amount_new \/ same_unit a r)
  /\ (subtract strict cfj ufj a j = Ok r -> r = Amount_new \/ same_unit a r)
  /\ (multiply strict cfj ufj a j = Ok r -> same_unit a r)
  /\ (divide strict cfj ufj a j = Ok r -> same_unit a r)
  /\ (forall d, applyInterest strict gia a d = Ok r -> same_unit a r)
  /\ (product_human strict cfj ufj gia a j date = Ok r -> r = Amount_new \/ same_unit a r)
  /\ (ratio_human strict cfj ufj gia a j date = Ok r -> same_unit a r).
Proof.
  assert (A : forall x, add strict cfj ufj a x = Ok r -> r = Amount_new \/ same_unit a r).
  { intros x H. unfold add in H. apply bind_ok in H. destruct H as (b & _ & H).
    destruct (negb (is_comparable a b)).
    - left. now inversion H.
    - right. now apply _copy_same_unit in H. }
  assert (M : forall t x, multiply strict cfj ufj a x = Ok t -> same_unit a t).
  { intros t x H. unfold multiply in H. apply bind_ok in H. destruct H as (b & _ & H).
    now apply _copy_same_unit in H. }
  assert (D : forall t x, divide strict cfj ufj t x = Ok r -> same_unit t r).
  { intros t x H. unfold divide in H. apply bind_ok in H. destruct H as (b & _ & H).
    now apply _copy_same_unit in H. }
  split; [apply A |].
  split.
  { intros H. unfold subtract in H. apply bind_ok in H. destruct H as (b & _ & H).
    now apply A in H. }
  split; [apply M |].
  split; [apply D |].
  split.
  { intros d H. unfold applyInterest in H.
    destruct (negb (Cur.has_interest (_currency a))).
    - inversion H. apply same_unit_refl.
    - now apply _copy_same_unit in H. }
  split.
  - intros H. unfold product_human in H.
    apply bind_ok in H. destruct H as (fac & _ & H).
    destruct (negb (is_valid a) || negb (is_valid fac)); [left; now inversion H |].
    right. apply bind_ok in H. destruct H as (fac' & _ & H).
    apply bind_ok in H. destruct H as (product & P & H).
    apply M in P.
    destruct (_is_native fac').
    + apply bind_ok in H. destruct H as (quotient & _ & H).
      apply _set_value_same_unit in H. now apply (same_unit_trans a product r).
    + injection H as <-. exact P.
  - intros H. unfold ratio_human in H. rewrite clone_id in H.
    apply bind_ok in H. destruct H as (den & _ & H).
    destruct (negb (is_valid a) || negb (is_valid den)); [discriminate H |].
    destruct (is_zero den); [discriminate H |].
    apply bind_ok in H. destruct H as (den' & _ & H).
    apply bind_ok in H. destruct H as (num' & N & H).
    destruct (_is_native den').
    + apply bind_ok in N. destruct N as (m & _ & N). discriminate N.
    + inversion N. subst num'. now apply D in H.
Qed.

Lemma arithmetic_keeps_unit_witness :
  multiply true demo_Currency_from_json demo_UInt160_from_json
    (usd (DFin false [dg1; dg5] (-1))) (JString "2/EUR/1")
  = Ok (usd (DFin false [dg3] 0))
  /\ same_unit (usd (DFin false [dg1; dg5] (-1))) (usd (DFin false [dg3] 0)).
Proof.
  assert (H : multiply true demo_Currency_from_json demo_UInt160_from_json
                (usd (DFin false [dg1; dg5] (-1))) (JString "2/EUR/1")
              = Ok (usd (DFin false [dg3] 0))) by reflexivity.
  split; [exact H |].
  exact (proj1 (proj2 (proj2
    (arithmetic_keeps_unit true demo_Currency_from_json demo_UInt160_from_json
       demo_interest (usd (DFin false [dg1; dg5] (-1))) (JString "2/EUR/1") None
       (usd (DFin false [dg3] 0))))) H).
Defined.

(** ** Strict mode *)

Lemma _check_limits_lax (x r : Amount) :
  _check_limits true x = Ok r -> _check_limits false x = Ok r.
Proof. intros H. apply _check_limits_ok in H. now subst r. Qed.

Lemma _set_value_lax (this r : Amount) (j : JsVal) :
  _set_value true this j = Ok r -> _set_value false this j = Ok r.
Proof. destruct j; try discriminate. apply _check_limits_lax. Qed.

Lemma bind_lax {A B : Type} (rs rl : result A) (ks kl : A -> result B) (b : B) :
  (forall a, rs = Ok a -> rl = Ok a) ->
  (forall a b, ks a = Ok b -> kl a = Ok b) ->
  bind rs ks = Ok b -> bind rl kl = Ok b.
Proof.
  intros Hr Hk H. apply bind_ok in H. destruct H as (a & Ha & Hb).
  rewrite (Hr a Ha). now apply Hk.
Qed.

Lemma _copy_lax (this r : Amount) (v : Value) :
  _copy true this v = Ok r -> _copy false this v = Ok r.
Proof. apply _set_value_lax. Qed.

Lemma from_json_lax (cfj : string -> bool -> Currency) (ufj : string -> UInt160)
      (j : JsVal) (r : Amount) :
  from_json true cfj ufj j = Ok r -> from_json false cfj ufj j = Ok r.
Proof.
  assert (S : forall this s t, parse_json_string true cfj ufj this s = Ok t ->
                               parse_json_string false cfj ufj this s = Ok t).
  { intros this s t. unfold parse_json_string.
    destruct (match_shorthand s) as [[[v c] i] |].
    - apply _set_value_lax.
    - apply bind_lax; [| auto]. intros a. unfold parse_native.
      destruct (negb (s =? "") && negb (js_isNaN s)); [| apply _set_value_lax].
      destruct (string_existsb is_dot_char s); [discriminate |].
      apply bind_lax; [auto | intros v b; apply _set_value_lax]. }
  unfold from_json, parse_json. destruct j; auto; apply _set_value_lax.
Qed.

(** X9.  Strict mode only adds range errors: whatever a constructor
    ([from_json], [parse_quality], [parse_human]) or an arithmetic operation
    returns with [strict_mode] on, it returns with [strict_mode] off. *)
Theorem strict_mode_only_throws
        (cfj : string -> bool -> Currency) (ufj : string -> UInt160)
        (gia : Currency -> Z -> Decimal)
        (a : Amount) (j : JsVal) (date : option Z)
        (q : string) (cc : Currency) (ci : UInt160) (opts : QualityOpts)
        (h : string) (r : Amount) :
  (from_json true cfj ufj j = Ok r -> from_json false cfj ufj j = Ok r)
  /\ (add true cfj ufj a j = Ok r -> add false cfj ufj a j = Ok r)
  /\ (subtract true cfj ufj a j = Ok r -> subtract false cfj ufj a j = Ok r)
  /\ (multiply true cfj ufj a j = Ok r -> multiply false cfj ufj a j = Ok r)
  /\ (divide true cfj ufj a j = Ok r -> divide false cfj ufj a j = Ok r)
  /\ (abs true a = Ok r -> abs false a = Ok r)
  /\ (invert true a = Ok r -> invert false a = Ok r)
  /\ (product_human true cfj ufj gia a j date = Ok r ->
      product_human false cfj ufj gia a j date = Ok r)
  /\ (parse_quality true gia a q cc ci opts = Ok r ->
      parse_quality false gia a q cc ci opts = Ok r)
  /\ (parse_human true cfj gia a h date = Ok r ->
      parse_human false cfj gia a h date = Ok r).
Proof.
  assert (A : forall x t, add true cfj ufj a x = Ok t -> add false cfj ufj a x = Ok t).
  { intros x t. unfold add. apply bind_lax; [intros ?; apply from_json_lax |].
    intros b t'. destruct (negb (is_comparable a b)); [auto | apply _copy_lax]. }
  assert (M : forall x t, multiply true cfj ufj a x = Ok t -> multiply false cfj ufj a x = Ok t).
  { intros x t. unfold multiply. apply bind_lax; [intros ?; apply from_json_lax |].
    intros b t'. apply _copy_lax. }
  assert (D : forall u x t, divide true cfj ufj u x = Ok t -> divide false cfj ufj u x = Ok t).
  { intros u x t. unfold divide. apply bind_lax; [intros ?; apply from_json_lax |].
    intros b t'. apply _copy_lax. }
  assert (I : forall u d t, applyInterest true gia u d = Ok t ->
                            applyInterest false gia u d = Ok t).
  { intros u d t. unfold applyInterest.
    destruct (negb (Cur.has_interest (_currency u))); [auto | apply _copy_lax]. }
  split; [apply from_json_lax |].
  split; [apply A |].
  split.
  { unfold subtract. apply bind_lax; [intros ?; apply from_json_lax |].
    intros s t. apply A. }
  split; [apply M |].
  split; [apply D |].
  split; [apply _copy_lax |].
  split; [apply _set_value_lax |].
  split.
  { unfold product_human. apply bind_lax; [intros ?; apply from_json_lax |].
    intros fac t. destruct (negb (is_valid a) || negb (is_valid fac)); [auto |].
    apply bind_lax; [destruct date; [intros ?; apply I | auto] |].
    intros fac' t'. apply bind_lax; [intros ?; apply M |].
    intros product t''. destruct (_is_native fac'); [| auto].
    apply bind_lax; [intros ?; apply D |].
    intros quotient t3. apply _set_value_lax. }
  split.
  - unfold parse_quality. cbv zeta.
    destruct (_ && _); [discriminate |].
    apply bind_lax.
    + intros t. destruct (_is_native _); [| apply _set_value_lax].
      apply bind_lax; [auto | intros v b; apply _set_value_lax].
    + intros t t'. destruct (reference_date opts); [| auto].
      destruct (_ && _); [apply _set_value_lax | auto].
  - unfold parse_human. destruct (human_value_currency h) as [[value currency] |]; [| auto].
    cbv zeta. apply bind_lax; [auto |]. intros v b.
    apply bind_lax; [intros t; apply _set_value_lax |].
    intros t t'. destruct date; [| auto].
    destruct (Cur.has_interest (_currency t)); [apply _set_value_lax | auto].
Qed.

Lemma strict_mode_only_throws_witness :
  from_json true demo_Currency_from_json demo_UInt160_from_json (JString "1.5/USD/1")
  = Ok (usd (DFin false [dg1; dg5] (-1)))
  /\ from_json false demo_Currency_from_json demo_UInt160_from_json (JString "1.5/USD/1")
     = Ok (usd (DFin false [dg1; dg5] (-1))).
Proof.
  assert (H : from_json true demo_Currency_from_json demo_UInt160_from_json
                (JString "1.5/USD/1")
              = Ok (usd (DFin false [dg1; dg5] (-1)))) by reflexivity.
  split; [exact H |].
  exact (proj1 (strict_mode_only_throws demo_Currency_from_json demo_UInt160_from_json
                  demo_interest (usd (DFin false [] 0)) (JString "1.5/USD/1") None
                  "" CurNative None (mkQualityOpts false CurNative None false) ""
                  (usd (DFin false [dg1; dg5] (-1)))) H).
Defined.

(** ** Neutral operands *)

Local Open Scope list_scope.

Lemma mkDecimal_strip_leading (n : bool) (c : list Digit) (x : Z) :
  mkDecimal n (strip_leading c) x = mkDecimal n c x.
Proof. unfold mkDecimal. now rewrite strip_leading_idem. Qed.

Lemma mkDecimal_digits_of_N (n : bool) (c : list Digit) (k : nat) (x : Z) :
  mkDecimal n (digits_of_N (N_of_digits c * 10 ^ N.of_nat k)) x
  = mkDecimal n c (x + Z.of_nat k).
Proof.
  replace (N_of_digits c * 10 ^ N.of_nat k)%N with (N_of_digits (c ++ zeros k))
    by (rewrite N_of_digits_app, N_of_digits_zeros, zeros_length; lia).
  now rewrite digits_of_N_of_digits, mkDecimal_strip_leading, mkDecimal_app_zeros.
Qed.

Lemma dec_normal_mkDecimal (n : bool) (c : list Digit) (x : Z) :
  dec_normal (DFin n c x) -> mkDecimal n c x = DFin n c x.
Proof.
  destruct c as [| d c].
  - simpl. intros ->. reflexivity.
  - intros [Hh He]. apply mkDecimal_normal; [discriminate | exact Hh | exact He].
Qed.

Lemma dec_times_one (d : Decimal) :
  dec_normal d -> dec_times d (DFin false [dg1] 0) = d.
Proof.
  destruct d as [| n c x]; [reflexivity |]. intros N. unfold dec_times.
  rewrite xorb_false_r.
  change (N_of_digits [dg1]) with (10 ^ N.of_nat 0)%N.
  rewrite mkDecimal_digits_of_N.
  replace (x + 0 + Z.of_nat 0) with x by lia.
  now apply dec_normal_mkDecimal.
Qed.

Lemma dec_plus_zero (n nz : bool) (c : list Digit) (x xz : Z) :
  dec_normal (DFin n c x) -> c <> [] ->
  dec_plus (DFin n c x) (DFin nz [] xz) = DFin n c x.
Proof.
  intros N Hc. unfold dec_plus, scaled.
  set (m := Z.min x xz).
  change (N_of_digits []) with 0%N.
  assert (P : (0 < N_of_digits c)%N).
  { destruct c as [| d c]; [congruence |].
    apply N_of_digits_headed_pos; [apply N | discriminate]. }
  assert (T : 0 < 10 ^ (x - m)) by (apply Z.pow_pos_nonneg; subst m; lia).
  set (z := (if n then -1 else 1) * (Z.of_N (N_of_digits c) * 10 ^ (x - m))
            + (if nz then -1 else 1) * (Z.of_N 0 * 10 ^ (xz - m))).
  assert (Ez : z = (if n then -1 else 1) * (Z.of_N (N_of_digits c) * 10 ^ (x - m)))
    by (subst z; lia).
  replace (z =? 0)%Z with false by (symmetry; apply Z.eqb_neq; destruct n; nia).
  unfold Decimal_of_Z, Decimal_of_N.
  replace (z <? 0)%Z with n.
  2:{ symmetry. destruct n; [apply Z.ltb_lt | apply Z.ltb_ge]; nia. }
  replace (Z.abs_N z) with (N_of_digits c * 10 ^ N.of_nat (Z.to_nat (x - m)))%N.
  2:{ apply N2Z.inj. rewrite N2Z.inj_abs_N, N2Z.inj_mul, N2Z.inj_pow.
      rewrite nat_N_Z, Z2Nat.id by (subst m; lia).
      rewrite Ez. destruct n; simpl Z.of_N; [rewrite Z.abs_neq | rewrite Z.abs_eq]; nia. }
  rewrite mkDecimal_digits_of_N.
  replace (m + Z.of_nat (Z.to_nat (x - m))) with x by (subst m; lia).
  now apply dec_normal_mkDecimal.
Qed.

Lemma stored_value_zero (k : ValueKind) (n : bool) (x : Z) :
  stored_value (mkValue k (DFin n [] x)) = mkValue k (DFin false [] x).
Proof. now destruct n. Qed.

Local Open Scope string_scope.

(** X10.  Zero and one are neutral: for an Amount [a] with a canonical
    value, adding a comparable zero and multiplying by an issued one each
    store the value of [a] again, so that the result is [a] itself (with a
    zero made non-negative, and subject to the range check in strict
    mode). *)
Theorem neutral_operands
        (strict : bool) (cfj : string -> bool -> Currency) (ufj : string -> UInt160)
        (a : Amount) :
  canonical (_value a) ->
  (forall z, is_comparable a z = true -> is_zero z = true ->
             add strict cfj ufj a (JAmount z) = _set_value strict a (JValue (_value a)))
  /\ (forall b, kind (_value b) = IOU -> num (_value b) = DFin false [dg1] 0 ->
                multiply strict cfj ufj a (JAmount b)
                = _set_value strict a (JValue (_value a))).
Proof.
  intros C. pose proof (canonicalize_fix _ C) as F. split.
  - intros z Hc Hz. unfold add. rewrite from_json_Amount. cbn [bind].
    rewrite Hc. cbn [negb]. unfold _copy. rewrite clone_id.
    unfold V.add.
    unfold is_comparable in Hc.
    destruct (is_valid a) eqn:Va; [| discriminate Hc].
    unfold is_zero, V.isZero in Hz.
    destruct (num (_value z)) as [| nz [| ? ?] xz]; try discriminate Hz.
    destruct a as [[k d] nat cur iss]. cbn [_value kind num] in *.
    destruct d as [| n c x]; [discriminate Va |].
    destruct c as [| d c].
    + destruct C as [N _]. simpl in N. subst x.
      replace (dec_plus (DFin n [] 0) (DFin nz [] xz)) with (DFin (n && nz) [] 0).
      2:{ unfold dec_plus, scaled. simpl N_of_digits. now rewrite !Z.mul_0_l, !Z.mul_0_r. }
      rewrite canonicalize_zero. unfold _set_value.
      fold (stored_value (mkValue k (DFin (n && nz) [] 0))).
      fold (stored_value (mkValue k (DFin n [] 0))).
      now rewrite !stored_value_zero.
    + rewrite dec_plus_zero by (try discriminate; apply C). now rewrite F.
  - intros b Kb Nb. unfold multiply. rewrite !from_json_Amount. cbn [bind].
    unfold _copy. rewrite clone_id.
    unfold V.multiply, V.operand. rewrite Kb, Nb.
    rewrite dec_times_one by apply C.
    now rewrite F.
Qed.

Lemma neutral_operands_witness :
  canonical (_value (usd (DFin false [dg1; dg5] (-1))))
  /\ multiply true demo_Currency_from_json demo_UInt160_from_json
       (usd (DFin false [dg1; dg5] (-1))) (JAmount (usd (DFin false [dg1] 0)))
     = Ok (usd (DFin false [dg1; dg5] (-1))).
Proof.
  assert (C : canonical (_value (usd (DFin false [dg1; dg5] (-1))))).
  { split; [split; reflexivity | simpl; lia]. }
  split; [exact C |].
  exact (proj2 (neutral_operands true demo_Currency_from_json demo_UInt160_from_json
                  (usd (DFin false [dg1; dg5] (-1))) C)
           (usd (DFin false [dg1] 0)) eq_refl eq_refl).
Defined.

(** ** What from_json builds *)

Lemma Decimal_of_string_normal (s : string) : dec_normal (Decimal_of_string s).
Proof.
  unfold Decimal_of_string.
  repeat match goal with
         | |- dec_normal (let (_, _) := ?p in _) => destruct p
         | |- dec_normal (match ?p with _ => _ end) => destruct p
         | |- dec_normal DNaN => exact I
         | |- dec_normal (mkDecimal _ _ _) => apply mkDecimal_is_normal
         end.
Qed.

Lemma dec_div_normal (a b : Decimal) : dec_normal (dec_div a b).
Proof.
  destruct a as [| na ca xa], b as [| nb [| d cb] xb]; try exact I.
  apply mkDecimal_is_normal.
Qed.

Lemma IOUValue_canonical (d : Decimal) :
  dec_normal d ->
  canonical (IOUValue d (Some ROUND_DOWN)) /\ canonical (IOUValue d None).
Proof. intros N. split; apply (canonicalize_canonical IOU d N). Qed.

Lemma stored_value_canonical (v : Value) : canonical v -> canonical (stored_value v).
Proof.
  unfold stored_value. destruct (V.isZero v && V.isNegative v) eqn:Z; [| auto].
  apply andb_true_iff in Z. destruct Z as [Z _].
  destruct v as [k d]. unfold V.isZero in Z. cbn [num] in Z.
  destruct d as [| n [| ? ?] x]; try discriminate Z.
  unfold canonical, V.negate. cbn [num kind dec_neg]. auto.
Qed.

Lemma stored_value_kind (v : Value) : kind (stored_value v) = kind v.
Proof. unfold stored_value. now destruct (V.isZero v && V.isNegative v). Qed.

(** X11.  What [from_json] builds from anything but an Amount holds a
    canonical value (in normal form, of at most 16 significant digits when
    issued and of at most 6 decimal places when native), and when it is
    valid its value is an XRPValue exactly if it is native. *)
Theorem from_json_canonical
        (strict : bool) (cfj : string -> bool -> Currency) (ufj : string -> UInt160)
        (j : JsVal) (r : Amount) :
  (forall a, j <> JAmount a) ->
  from_json strict cfj ufj j = Ok r ->
  canonical (_value r)
  /\ (is_valid r = true -> kind (_value r) = if _is_native r then XRP else IOU).
Proof.
  intros Hj.
  assert (NaN : forall this t, _set_value strict this (JValue (IOUValue DNaN None)) = Ok t ->
                canonical (_value t) /\
                (is_valid t = true -> kind (_value t) = if _is_native t then XRP else IOU)).
  { intros this t H. apply _set_value_ok in H. subst t.
    split; [split; exact I | discriminate]. }
  assert (PV : forall this d t, parse_value strict this d = Ok t -> dec_normal d ->
                canonical (_value t) /\
                (is_valid t = true -> kind (_value t) = if _is_native t then XRP else IOU)).
  { intros this d t H N. unfold parse_value in H. apply _set_value_ok in H. subst t.
    cbn [set_value set_native _value _is_native]. split.
    - apply stored_value_canonical, IOUValue_canonical, N.
    - intros _. now rewrite stored_value_kind. }
  assert (S : forall s t, parse_json_string strict cfj ufj Amount_new s = Ok t ->
                canonical (_value t) /\
                (is_valid t = true -> kind (_value t) = if _is_native t then XRP else IOU)).
  { intros s t H. unfold parse_json_string in H.
    destruct (match_shorthand s) as [[[v c] i] |].
    - apply PV in H; [exact H | apply Decimal_of_string_normal].
    - apply bind_ok in H. destruct H as (t1 & H1 & H). injection H as <-.
      cbn [set_issuer_field set_currency_field _value _is_native].
      unfold parse_native in H1.
      destruct (negb (s =? "") && negb (js_isNaN s)); [| now apply NaN in H1].
      destruct (string_existsb is_dot_char s); [discriminate H1 |].
      apply bind_ok in H1. destruct H1 as (value & Hx & H1).
      apply XRPValue_ok in Hx. subst value.
      apply _set_value_ok in H1. subst t1.
      cbn [set_value set_native _value _is_native]. split.
      + apply stored_value_canonical. unfold V.divide.
        apply canonicalize_canonical, dec_div_normal.
      + intros _. now rewrite stored_value_kind. }
  unfold from_json, parse_json. destruct j as [| | b | d | s | a | v | o]; intros H.
  - now apply NaN in H.
  - injection H as <-. split; [split; exact I | discriminate].
  - now apply NaN in H.
  - now apply S in H.
  - now apply S in H.
  - now elim (Hj a).
  - injection H as <-. split; [split; exact I | discriminate].
  - apply PV in H; [exact H | apply Decimal_of_string_normal].
Qed.

Lemma from_json_canonical_witness :
  from_json true demo_Currency_from_json demo_UInt160_from_json
    (JString "1.50000000000000000009/USD/1")
  = Ok (usd (DFin false [dg1; dg5] (-1)))
  /\ canonical (_value (usd (DFin false [dg1; dg5] (-1)))).
Proof.
  assert (H : from_json true demo_Currency_from_json demo_UInt160_from_json
                (JString "1.50000000000000000009/USD/1")
              = Ok (usd (DFin false [dg1; dg5] (-1)))) by reflexivity.
  split; [exact H |].
  refine (proj1 (from_json_canonical true demo_Currency_from_json demo_UInt160_from_json
                   (JString "1.50000000000000000009/USD/1")
                   (usd (DFin false [dg1; dg5] (-1))) _ H)).
  intros a E. discriminate E.
Defined.

(** ** Printing a decimal and reading it back *)

Lemma string_app_nil_r (s : string) : s ++ "" = s.
Proof. induction s as [| c s IH]; simpl; [reflexivity | now rewrite IH]. Qed.

Lemma string_app_assoc (s t u : string) : (s ++ t) ++ u = s ++ t ++ u.
Proof. induction s as [| c s IH]; simpl; [reflexivity | now rewrite IH]. Qed.

Lemma Decimal_of_string_minus (r : string) :
  Decimal_of_string (String "-" r) = parse_unsigned true r.
Proof. reflexivity. Qed.

Lemma Decimal_of_string_digit (d : Digit) (r : string) :
  Decimal_of_string (String (ascii_of_digit d) r)
  = parse_unsigned false (String (ascii_of_digit d) r).
Proof. destruct d; reflexivity. Qed.

Lemma parse_unsigned_text (n : bool) (ip : list Digit) (fp : option (list Digit))
      (ex : option string) :
  ip <> []%list ->
  parse_unsigned n (decimal_text ip fp ex)
  = let df := match fp with Some f => f | None => []%list end in
    match ex with
    | None => mkDecimal n (ip ++ df) (- Z.of_nat (List.length df))
    | Some t =>
        match parse_exponent t with
        | Some k => mkDecimal n (ip ++ df) (k - Z.of_nat (List.length df))
        | None => DNaN
        end
    end.
Proof.
  intros Hip. unfold parse_unsigned, decimal_text.
  set (M := string_of_digits ip
            ++ match fp with Some f => String "." (string_of_digits f) | None => "" end).
  assert (HM : string_existsb is_e_char M = false).
  { subst M. rewrite string_existsb_app, digits_no_e.
    destruct fp as [f |]; [| reflexivity]. simpl. apply digits_no_e. }
  assert (HS : split_at is_dot_char M
               = (string_of_digits ip, option_map string_of_digits fp)).
  { subst M. destruct fp as [f |].
    - apply split_at_app; [apply digits_no_dot | reflexivity].
    - rewrite string_app_nil_r. apply split_at_none, digits_no_dot. }
  rewrite <- string_app_assoc. fold M.
  assert (HE : split_at is_e_char
                 (M ++ match ex with Some t => String "e" t | None => "" end)
               = (M, ex)).
  { destruct ex as [t |].
    - now apply split_at_app.
    - rewrite string_app_nil_r. now apply split_at_none. }
  rewrite HE, HS, digits_of_string_of_digits.
  replace (digits_of_string
             match option_map string_of_digits fp with Some f => f | None => "" end)
    with (Some (match fp with Some f => f | None => []%list end))
    by (destruct fp as [f |]; [symmetry; apply digits_of_string_of_digits | reflexivity]).
  destruct ip as [| d ip]; [congruence |].
  destruct fp; reflexivity.
Qed.

Lemma decimal_text_head (d : Digit) (ip : list Digit) (fp : option (list Digit))
      (ex : option string) :
  exists r, decimal_text (d :: ip) fp ex = String (ascii_of_digit d) r.
Proof. unfold decimal_text. simpl. eexists. reflexivity. Qed.

(** A decimal text with or without a minus sign denotes what its parts
    say. *)
Lemma Decimal_of_string_text (n : bool) (ip : list Digit) (fp : option (list Digit))
      (ex : option string) :
  ip <> []%list ->
  Decimal_of_string ((if n then "-" else "") ++ decimal_text ip fp ex)
  = let df := match fp with Some f => f | None => []%list end in
    match ex with
    | None => mkDecimal n (ip ++ df) (- Z.of_nat (List.length df))
    | Some t =>
        match parse_exponent t with
        | Some k => mkDecimal n (ip ++ df) (k - Z.of_nat (List.length df))
        | None => DNaN
        end
    end.
Proof.
  intros Hip. destruct n.
  - change ("-" ++ decimal_text ip fp ex) with (String "-" (decimal_text ip fp ex)).
    rewrite Decimal_of_string_minus. now apply parse_unsigned_text.
  - change ("" ++ decimal_text ip fp ex) with (decimal_text ip fp ex).
    destruct ip as [| d ip]; [congruence |].
    destruct (decimal_text_head d ip fp ex) as (r & E).
    rewrite E, Decimal_of_string_digit, <- E. now apply parse_unsigned_text.
Qed.

Local Open Scope list_scope.

Lemma mkDecimal_zeros_app (n : bool) (k : nat) (c : list Digit) (x : Z) :
  mkDecimal n (zeros k ++ c) x = mkDecimal n c x.
Proof. unfold mkDecimal. now rewrite strip_leading_zeros_app. Qed.

Lemma parse_exponent_signed (e : Z) :
  parse_exponent ((if (e <? 0)%Z then "-" else "+") ++ string_of_N (Z.abs_N e))%string
  = Some e.
Proof.
  destruct (string_of_N_digits (Z.abs_N e)) as (l & Hl & -> & Hn).
  destruct (e <? 0)%Z eqn:S.
  - change (parse_exponent (String "-" (string_of_digits l)) = Some e).
    cbn [parse_exponent]. rewrite (nonempty_digits_of_digits l Hl).
    simpl. rewrite Hn. f_equal. apply Z.ltb_lt in S. lia.
  - change (parse_exponent (String "+" (string_of_digits l)) = Some e).
    cbn [parse_exponent]. rewrite (nonempty_digits_of_digits l Hl).
    simpl. rewrite Hn. f_equal. apply Z.ltb_ge in S. lia.
Qed.

(** The text of a decimal in normal form denotes the decimal (a negative
    zero prints, and reads, as zero). *)
Lemma Decimal_of_string_toString (d : Decimal) :
  dec_normal d ->
  Decimal_of_string (dec_toString d)
  = if dec_isZero d then DFin false [] 0 else d.
Proof.
  destruct d as [| n [| a c] x]; [reflexivity | reflexivity |].
  intros N. pose proof (dec_normal_mkDecimal _ _ _ N) as E.
  cbn [dec_isZero]. unfold dec_toString.
  set (e := dec_e (DFin n (a :: c) x)).
  assert (He : e = Z.of_nat (List.length c) + x) by (subst e; unfold dec_e; cbn [List.length]; lia).
  destruct ((e <=? -7)%Z || (21 <=? e)%Z) eqn:X.
  - (* exponential notation *)
    replace (if n then String "-" _ else _)
      with ((if n then "-" else "")
            ++ decimal_text [a] (match c with [] => None | _ :: _ => Some c end)
                 (Some ((if (e <? 0)%Z then "-" else "+") ++ string_of_N (Z.abs_N e))))%string.
    2:{ unfold decimal_text. destruct n, c; reflexivity. }
    rewrite Decimal_of_string_text by discriminate.
    rewrite parse_exponent_signed. cbv zeta.
    replace ([a] ++ match (match c with [] => None | _ :: _ => Some c end) with
                    | Some f => f | None => [] end) with (a :: c) by (now destruct c).
    replace (e - Z.of_nat (List.length match (match c with [] => None | _ :: _ => Some c end) with
                                       | Some f => f | None => [] end)) with x.
    + exact E.
    + destruct c; cbn [List.length] in *; lia.
  - apply orb_false_iff in X. destruct X as [X1 X2].
    apply Z.leb_gt in X1. apply Z.leb_gt in X2.
    destruct (e <? 0)%Z eqn:Neg.
    + (* 0.000ddd *)
      apply Z.ltb_lt in Neg.
      replace (if n then String "-" _ else _)
        with ((if n then "-" else "")
              ++ decimal_text [dg0] (Some (zeros (Z.to_nat (- e - 1)) ++ a :: c)%list) None)%string.
      2:{ unfold decimal_text. rewrite string_app_nil_r. destruct n; reflexivity. }
      rewrite Decimal_of_string_text by discriminate. cbv zeta.
      change ([dg0] ++ zeros (Z.to_nat (- e - 1)) ++ a :: c)
        with (zeros (S (Z.to_nat (- e - 1))) ++ a :: c).
      rewrite mkDecimal_zeros_app, length_app, zeros_length.
      replace (- Z.of_nat (Z.to_nat (- e - 1) + List.length (a :: c))) with x
        by (cbn [List.length]; lia).
      exact E.
    + apply Z.ltb_ge in Neg.
      destruct (0 <=? x)%Z eqn:Px.
      * (* ddd000 *)
        apply Z.leb_le in Px.
        replace (if n then String "-" _ else _)
          with ((if n then "-" else "")
                ++ decimal_text ((a :: c) ++ zeros (Z.to_nat x))%list None None)%string.
        2:{ unfold decimal_text. rewrite !string_app_nil_r. destruct n; reflexivity. }
        rewrite Decimal_of_string_text by discriminate. cbv zeta.
        rewrite app_nil_r, mkDecimal_app_zeros.
        replace (- Z.of_nat (List.length (@nil Digit)) + Z.of_nat (Z.to_nat x)) with x
          by (cbn [List.length]; lia).
        exact E.
      * (* dd.ddd *)
        apply Z.leb_gt in Px.
        replace (if n then String "-" _ else _)
          with ((if n then "-" else "")
                ++ decimal_text (firstn (Z.to_nat (e + 1)) (a :: c))
                     (Some (skipn (Z.to_nat (e + 1)) (a :: c))) None)%string.
        2:{ unfold decimal_text. rewrite string_app_nil_r. destruct n; reflexivity. }
        rewrite Decimal_of_string_text.
        2:{ replace (Z.to_nat (e + 1)) with (S (Z.to_nat e)) by lia. discriminate. }
        cbv zeta. rewrite firstn_skipn, length_skipn.
        replace (- Z.of_nat (List.length (a :: c) - Z.to_nat (e + 1))) with x
          by (cbn [List.length]; lia).
        exact E.
Qed.

(** ** The JSON form of an issued Amount reads back *)

Lemma substring_string_of_digits (a b : nat) (l : list Digit) :
  String.substring a b (string_of_digits l) = string_of_digits (firstn b (skipn a l)).
Proof.
  revert a b. induction l as [| d l IH]; intros a b.
  - destruct a, b; reflexivity.
  - destruct a as [| a]; simpl.
    + destruct b as [| b]; [reflexivity |]. simpl. now rewrite (IH 0%nat b).
    + apply IH.
Qed.

Lemma js_substring_digits (l : list Digit) (k : Z) :
  0 <= k <= Z.of_nat (List.length l) ->
  js_substring (string_of_digits l) 0 k = string_of_digits (firstn (Z.to_nat k) l)
  /\ js_substring_from (string_of_digits l) k = string_of_digits (skipn (Z.to_nat k) l).
Proof.
  intros H. unfold js_substring_from, js_substring.
  rewrite string_of_digits_length.
  set (len := Z.of_nat (List.length l)) in *.
  replace (Z.max 0 (Z.min 0 len)) with 0 by lia.
  replace (Z.max 0 (Z.min k len)) with k by lia.
  replace (Z.max 0 (Z.min len len)) with len by lia.
  replace (Z.min 0 k) with 0 by lia. replace (Z.max 0 k) with k by lia.
  replace (Z.min k len) with k by lia. replace (Z.max k len) with len by lia.
  rewrite !substring_string_of_digits. split.
  - now rewrite Z.sub_0_r.
  - rewrite firstn_all2; [reflexivity |].
    rewrite length_skipn. subst len. lia.
Qed.

Lemma strip_leading_zero_chars_of_digits (l : list Digit) :
  strip_leading_zero_chars (string_of_digits l) = string_of_digits (strip_leading l).
Proof.
  induction l as [| d l IH]; [reflexivity |].
  simpl. destruct d; simpl; try reflexivity. exact IH.
Qed.

Local Open Scope list_scope.

Lemma strip_trailing_cons (d : Digit) (l : list Digit) :
  strip_trailing (d :: l)
  = match strip_trailing l with
    | [] => if is_dg0 d then [] else [d]
    | t => d :: t
    end.
Proof.
  unfold strip_trailing. simpl rev.
  destruct (strip_leading (rev l)) as [| a r] eqn:S.
  - rewrite (strip_leading_all_zero _ S), strip_leading_zeros_app. simpl.
    destruct (is_dg0 d); reflexivity.
  - rewrite strip_leading_app_nonempty by (rewrite S; discriminate).
    rewrite S, rev_app_distr. simpl.
    destruct (rev r ++ [a]) eqn:R; [| reflexivity].
    destruct (rev r); discriminate R.
Qed.

Local Open Scope string_scope.

Lemma strip_trailing_zero_chars_of_digits (l : list Digit) :
  strip_trailing_zero_chars (string_of_digits l) = string_of_digits (strip_trailing l).
Proof.
  induction l as [| d l IH]; [reflexivity |].
  cbn [string_of_digits strip_trailing_zero_chars]. rewrite IH, strip_trailing_cons.
  destruct (strip_trailing l) as [| a t]; [| reflexivity].
  now destruct d.
Qed.

Local Open Scope list_scope.

(** Reading the integer part without its leading zeros and the fraction
    without its trailing zeros gives the number the whole digits spell. *)
Lemma mkDecimal_split (n : bool) (w : list Digit) (k : nat) :
  let ip := strip_leading (firstn k w) in
  let fp := strip_trailing (skipn k w) in
  mkDecimal n ((match ip with [] => [dg0] | _ => ip end) ++ fp)
            (- Z.of_nat (List.length fp))
  = mkDecimal n w (- Z.of_nat (List.length (skipn k w))).
Proof.
  intros ip fp.
  assert (A : forall x, mkDecimal n ((match ip with [] => [dg0] | _ => ip end) ++ fp) x
                        = mkDecimal n (firstn k w ++ fp) x).
  { intros x. rewrite (strip_leading_decomp (firstn k w)). fold ip.
    rewrite <- app_assoc, mkDecimal_zeros_app.
    destruct ip; [apply (mkDecimal_zeros_app n 1) | reflexivity]. }
  rewrite A.
  assert (G : forall l r,
             mkDecimal n (l ++ strip_trailing r) (- Z.of_nat (List.length (strip_trailing r)))
             = mkDecimal n (l ++ r) (- Z.of_nat (List.length r))).
  { intros l r. pose proof (strip_trailing_decomp r) as D.
    pose proof (strip_trailing_length r) as Le.
    set (t := strip_trailing r) in *.
    set (z := (List.length r - List.length t)%nat) in *.
    assert (Lr : List.length r = (List.length t + z)%nat) by (subst z; lia).
    rewrite Lr. rewrite D at 1.
    rewrite app_assoc, mkDecimal_app_zeros. f_equal. lia. }
  subst fp. rewrite G. now rewrite firstn_skipn.
Qed.

Local Open Scope string_scope.

(** The text of an issued Amount, in its two forms. *)
Lemma to_text_issued (a : Amount) :
  is_valid a = true -> _is_native a = false ->
  let e := V.getExponent (_value a) - 15 in
  let m := getMantissa16FromString (V.toString (V.abs (_value a))) in
  to_text a
  = (if V.isNegative (_value a) then "-" else "")
    ++ (if negb (e =? 0)%Z && ((e <? -25)%Z || (e >? -4)%Z)
        then m ++ "e" ++ string_of_Z e
        else fixed_point_window m (e + 43)).
Proof.
  intros Hv Hn e m. unfold to_text. rewrite Hv, Hn. cbn [negb]. fold e. fold m.
  destruct (negb (e =? 0)%Z && ((e <? -25)%Z || (e >? -4)%Z)); [reflexivity |].
  f_equal. unfold fixed_point_window. cbv zeta.
  set (val := "000000000000000000000000000" ++ m ++ "00000000000000000000000").
  assert (D : string_forallb is_digit_char val = true).
  { subst val m. rewrite !string_forallb_app, getMantissa16_digits. reflexivity. }
  rewrite match_leading by (apply string_forallb_js_substring; exact D).
  unfold js_substring_from.
  rewrite match_trailing by (apply string_forallb_js_substring; exact D).
  destruct (strip_leading_zero_chars _), (strip_trailing_zero_chars _); reflexivity.
Qed.

Lemma fixed_point_window_digits (md : list Digit) (k : Z) :
  0 <= k <= 50 + Z.of_nat (List.length md) ->
  let w := (zeros 27 ++ md ++ zeros 23)%list in
  let ip := strip_leading (firstn (Z.to_nat k) w) in
  let fp := strip_trailing (skipn (Z.to_nat k) w) in
  fixed_point_window (string_of_digits md) k
  = decimal_text (match ip with [] => [dg0] | _ => ip end)%list
                 (match fp with [] => None | _ => Some fp end)%list None.
Proof.
  intros Hk w ip fp. unfold fixed_point_window. cbv zeta.
  change "000000000000000000000000000" with (string_of_digits (zeros 27)).
  change "00000000000000000000000" with (string_of_digits (zeros 23)).
  rewrite <- !string_of_digits_app. fold w.
  assert (L : List.length w = (50 + List.length md)%nat).
  { subst w. rewrite !length_app, !zeros_length. lia. }
  destruct (js_substring_digits w k) as [-> ->]; [lia |].
  rewrite strip_leading_zero_chars_of_digits, strip_trailing_zero_chars_of_digits.
  fold ip. fold fp. unfold decimal_text. rewrite string_app_nil_r.
  destruct ip, fp; reflexivity.
Qed.

Local Open Scope list_scope.

(** The mantissa of a canonical issued value: its coefficient filled to 16
    digits. *)
Lemma mantissa_of_canonical (n : bool) (c : list Digit) (x : Z) :
  dec_normal (DFin n c x) -> (List.length c <= 16)%nat ->
  getMantissa16FromString (V.toString (V.abs (mkValue IOU (DFin n c x))))
  = string_of_digits (c ++ zeros (16 - List.length c)).
Proof.
  intros N L. unfold V.abs, V.toString, canonicalize. cbn [kind num dec_abs].
  unfold dec_toDigits. replace (List.length c <=? 16)%nat with true
    by (symmetry; now apply Nat.leb_le).
  unfold getMantissa16FromString.
  rewrite Decimal_of_string_toString by (destruct c; exact N).
  destruct c; reflexivity.
Qed.

(** The text of a canonical issued Amount denotes its value. *)
Lemma to_text_denotes (a : Amount) :
  is_valid a = true -> _is_native a = false ->
  kind (_value a) = IOU -> canonical (_value a) ->
  Decimal_of_string (to_text a) = num (_value a).
Proof.
  intros Hv Hn Hk [N C].
  rewrite (to_text_issued a Hv Hn). cbv zeta.
  destruct a as [[k d] nat cur iss]. cbn [_value kind num] in *. subst k.
  destruct d as [| n c x]; [discriminate Hv |].
  assert (L : (List.length c <= 16)%nat) by (destruct c; [simpl; lia | exact C]).
  rewrite (mantissa_of_canonical n c x N L).
  unfold V.getExponent, V.isNegative. cbn [num].
  set (md := c ++ zeros (16 - List.length c)).
  assert (Lm : List.length md = 16%nat)
    by (subst md; rewrite length_app, zeros_length; lia).
  assert (Hm : md <> []) by (intros E; rewrite E in Lm; discriminate Lm).
  set (e := (dec_e (DFin n c x) - 15)%Z).
  replace (dec_isNegative (DFin n c x)) with n by (now destruct n).
  assert (T : forall y, mkDecimal n md y = mkDecimal n c (y + Z.of_nat (16 - List.length c)))
    by (intros y; apply mkDecimal_app_zeros).
  assert (R : mkDecimal n c (e + Z.of_nat (16 - List.length c)) = DFin n c x).
  { destruct c as [| d c].
    - simpl in N. subst x. reflexivity.
    - replace (e + Z.of_nat (16 - List.length (d :: c)))%Z with x
        by (subst e; unfold dec_e; lia).
      now apply dec_normal_mkDecimal. }
  destruct (negb (e =? 0)%Z && ((e <? -25)%Z || (e >? -4)%Z)) eqn:B.
  - replace (string_of_digits md ++ "e" ++ string_of_Z e)%string
      with (decimal_text md None (Some (string_of_Z e))) by reflexivity.
    rewrite Decimal_of_string_text by exact Hm.
    rewrite parse_exponent_string_of_Z. cbv zeta.
    rewrite app_nil_r, T. cbn [List.length].
    now rewrite Z.sub_0_r.
  - assert (K : (0 <= e + 43 <= 50 + Z.of_nat (List.length md))%Z).
    { rewrite Lm. destruct (e =? 0)%Z eqn:Z0.
      - apply Z.eqb_eq in Z0. lia.
      - cbn [negb andb] in B. apply orb_false_iff in B. destruct B as [B1 B2].
        apply Z.ltb_ge in B1. rewrite Z.gtb_ltb in B2. apply Z.ltb_ge in B2. lia. }
    rewrite (fixed_point_window_digits md (e + 43) K). cbv zeta.
    set (w := zeros 27 ++ md ++ zeros 23).
    rewrite Decimal_of_string_text
      by (destruct (strip_leading (firstn (Z.to_nat (e + 43)) w)); discriminate).
    cbv zeta.
    replace (match
                match strip_trailing (skipn (Z.to_nat (e + 43)) w) with
                | [] => None
                | _ :: _ => Some (strip_trailing (skipn (Z.to_nat (e + 43)) w))
                end
              with Some f => f | None => [] end)
      with (strip_trailing (skipn (Z.to_nat (e + 43)) w))
      by (now destruct (strip_trailing (skipn (Z.to_nat (e + 43)) w))).
    rewrite (mkDecimal_split n w (Z.to_nat (e + 43))).
    subst w. rewrite mkDecimal_zeros_app, mkDecimal_app_zeros, T, <- R.
    f_equal. rewrite length_skipn, !length_app, !zeros_length, Lm. lia.
Qed.

Local Open Scope string_scope.

(** What [_set_value] does with the fields it is given. *)
Lemma _set_value_fields (strict : bool) (x y : Amount) (v : Value) :
  _is_native x = _is_native y -> _currency x = _currency y -> _issuer x = _issuer y ->
  _set_value strict x (JValue v) = _set_value strict y (JValue v).
Proof.
  intros Hn Hc Hi. unfold _set_value, set_value. now rewrite Hn, Hc, Hi.
Qed.

(** X12.  The JSON form of an issued Amount reads back: for a valid issued
    Amount with a canonical value, whose currency and issuer are read back
    from their own JSON forms, [from_json] of [to_json] stores the value of
    the Amount again; with strict mode off, or within the limits, the result
    is the Amount itself (a negative zero apart, which is stored as
    zero). *)
Theorem json_round_trip_issued
        (strict : bool) (cfj : string -> bool -> Currency) (ufj : string -> UInt160)
        (c2j c2h : Currency -> string) (u2j : UInt160 -> string) (a : Amount) :
  is_valid a = true -> _is_native a = false ->
  kind (_value a) = IOU -> canonical (_value a) ->
  cfj (if Cur.has_interest (_currency a) then c2h (_currency a) else c2j (_currency a)) true
  = _currency a ->
  (U160.is_valid (_issuer a) = true -> ufj (u2j (_issuer a)) = _issuer a) ->
  from_json strict cfj ufj (to_json c2j c2h u2j a)
  = _check_limits strict (set_value a (stored_value (_value a)))
  /\ from_json false cfj ufj (to_json c2j c2h u2j a)
     = Ok (set_value a (stored_value (_value a))).
Proof.
  intros Hv Hn Hk C Hc Hi.
  assert (G : forall s,
             from_json s cfj ufj (to_json c2j c2h u2j a)
             = _check_limits s (set_value a (stored_value (_value a)))).
  { intros s. unfold to_json. rewrite Hn.
    unfold from_json, parse_json. cbn [j_value j_currency j_issuer].
    rewrite (to_text_denotes a Hv Hn Hk C), Hc.
    unfold parse_value.
    replace (IOUValue (num (_value a)) (Some ROUND_DOWN)) with (_value a).
    2:{ symmetry. rewrite <- (canonicalize_fix _ C) at 2. now rewrite Hk. }
    change (_check_limits s (set_value a (stored_value (_value a))))
      with (_set_value s a (JValue (_value a))).
    apply _set_value_fields.
    - destruct (U160.is_valid (_issuer a)); now rewrite Hn.
    - now destruct (U160.is_valid (_issuer a)).
    - destruct (U160.is_valid (_issuer a)) eqn:V; cbn.
      + now apply Hi.
      + now destruct (_issuer a). }
  split; [apply G | apply (G false)].
Qed.

Lemma json_round_trip_issued_witness :
  from_json true demo_Currency_from_json demo_UInt160_from_json
    (to_json (fun _ => "USD") (fun _ => "") (fun _ => "1")
       (usd (DFin false [dg1; dg0; dg0; dg4] (-1))))
  = Ok (usd (DFin false [dg1; dg0; dg0; dg4] (-1))).
Proof.
  refine (proj1 (json_round_trip_issued true demo_Currency_from_json demo_UInt160_from_json
                   (fun _ => "USD") (fun _ => "") (fun _ => "1")
                   (usd (DFin false [dg1; dg0; dg0; dg4] (-1)))
                   eq_refl eq_refl eq_refl _ eq_refl (fun _ => eq_refl))).
  split; [split; reflexivity | simpl; lia].
Defined.

(** ** The JSON form of a native Amount reads back *)

Lemma string_rev_app_app (s a b : string) :
  string_rev_app (string_rev_app s a) b = string_rev_app a (s ++ b).
Proof.
  revert a b. induction s as [| c s IH]; intros a b; [reflexivity |].
  simpl. now rewrite IH.
Qed.

Lemma string_rev_involutive (s : string) : string_rev (string_rev s) = s.
Proof. unfold string_rev. rewrite string_rev_app_app. simpl. apply string_app_nil_r. Qed.

Lemma string_existsb_rev_app (p : ascii -> bool) (s acc : string) :
  string_existsb p (string_rev_app s acc) = string_existsb p s || string_existsb p acc.
Proof.
  revert acc. induction s as [| c s IH]; intros acc; [reflexivity |].
  simpl. rewrite IH. simpl.
  destruct (p c), (string_existsb p s), (string_existsb p acc); reflexivity.
Qed.

Lemma trim_left_nospace (s : string) :
  string_existsb is_js_space s = false -> trim_left s = s.
Proof.
  destruct s as [| c s]; [reflexivity |]. simpl.
  destruct (is_js_space c); [discriminate | reflexivity].
Qed.

(** A string without white space is trimmed to itself. *)
Lemma trim_nospace (s : string) :
  string_existsb is_js_space s = false -> trim s = s.
Proof.
  intros H. unfold trim. rewrite (trim_left_nospace s H).
  rewrite trim_left_nospace; [apply string_rev_involutive |].
  unfold string_rev. rewrite string_existsb_rev_app, H. reflexivity.
Qed.

Lemma digits_no_space (l : list Digit) :
  string_existsb is_js_space (string_of_digits l) = false.
Proof. apply string_of_digits_exists. now intros []. Qed.

Lemma Decimal_of_digits (n : bool) (ds : list Digit) :
  ds <> []%list ->
  Decimal_of_string ((if n then "-" else "") ++ string_of_digits ds) = mkDecimal n ds 0.
Proof.
  intros H.
  pose proof (Decimal_of_string_text n ds None None H) as T.
  unfold decimal_text in T. rewrite !string_app_nil_r in T.
  rewrite T. cbv zeta. now rewrite app_nil_r.
Qed.

(** An optional minus sign and digits make a number for [isNaN]. *)
Lemma js_isNaN_integer (n : bool) (ds : list Digit) :
  ds <> []%list ->
  js_isNaN ((if n then "-" else "") ++ string_of_digits ds) = false.
Proof.
  intros H. unfold js_isNaN. rewrite trim_nospace.
  2:{ rewrite string_existsb_app, digits_no_space. now destruct n. }
  apply negb_false_iff.
  assert (D : negb (dec_isNaN (Decimal_of_string (string_of_digits ds))) = true).
  { pose proof (Decimal_of_digits false ds H) as T.
    cbn [append] in T. rewrite T, mkDecimal_not_NaN. reflexivity. }
  destruct ds as [| d ds]; [congruence |].
  destruct n.
  - change ("-" ++ string_of_digits (d :: ds)) with (String "-" (string_of_digits (d :: ds))).
    destruct d; cbn [string_of_digits ascii_of_digit] in *;
      unfold js_numeric_literal; rewrite D; apply orb_true_r.
  - change ("" ++ string_of_digits (d :: ds)) with (string_of_digits (d :: ds)).
    destruct d; cbn [string_of_digits ascii_of_digit] in *;
      try (unfold js_numeric_literal; rewrite D; apply orb_true_r).
    destruct ds as [| d2 ds]; [reflexivity |].
    destruct d2; cbn [string_of_digits ascii_of_digit] in *;
      unfold js_numeric_literal; rewrite D; apply orb_true_r.
Qed.

Lemma plain_integer_digits (n : bool) (ds : list Digit) :
  ds <> []%list ->
  plain_integer ((if n then "-" else "") ++ string_of_digits ds) = Some (n, ds).
Proof.
  intros H. destruct n.
  - change ("-" ++ string_of_digits ds) with (String "-" (string_of_digits ds)).
    cbn [plain_integer]. now rewrite (nonempty_digits_of_digits ds H).
  - change ("" ++ string_of_digits ds) with (string_of_digits ds).
    destruct ds as [| d ds]; [congruence |].
    replace (plain_integer (string_of_digits (d :: ds)))
      with (option_map (pair false) (nonempty_digits (string_of_digits (d :: ds))))
      by (now destruct d).
    now rewrite (nonempty_digits_of_digits (d :: ds) H).
Qed.

(** The range check commutes with setting the currency and the issuer. *)
Lemma _check_limits_set_fields (strict : bool) (x : Amount) (c : Currency) (i : UInt160) :
  (t <- _check_limits strict x ;; Ok (set_issuer_field (set_currency_field t c) i))
  = _check_limits strict (set_issuer_field (set_currency_field x c) i).
Proof.
  unfold _check_limits. cbn [set_issuer_field set_currency_field _value _is_native].
  repeat match goal with
         | |- context [if ?b then _ else _] => destruct b
         end; reflexivity.
Qed.

Local Open Scope list_scope.

(** The text of a canonical native Amount below 10^15 XRP: its drops. *)
Lemma to_text_native_drops (a : Amount) (n : bool) (c : list Digit) (x : Z) :
  is_valid a = true -> _is_native a = true ->
  _value a = mkValue XRP (DFin n c x) -> canonical (_value a) ->
  (dec_e (DFin n c x) < 15)%Z ->
  exists (n' : bool) (ds : list Digit),
    ds <> []
    /\ to_text a = ((if n' then "-" else "") ++ string_of_digits ds)%string
    /\ stored_value (mkValue XRP (mkDecimal n' ds (-6))) = stored_value (_value a).
Proof.
  intros Hv Hn Ev [N C] He. unfold to_text. rewrite Hv, Hn, Ev in *.
  cbn [negb num kind] in *.
  unfold V.toString, V.multiply, canonicalize. cbn [kind num].
  change (V.operand bi_xns_unit) with (DFin false [dg1] 6).
  unfold dec_times. rewrite xorb_false_r.
  change (N_of_digits [dg1]) with (10 ^ N.of_nat 0)%N.
  rewrite mkDecimal_digits_of_N. rewrite Z.add_0_r.
  destruct c as [| d c].
  - exists false, [dg0]. split; [discriminate |]. split; [reflexivity |].
    simpl in N. subst x. now destruct n.
  - rewrite mkDecimal_normal by (try discriminate; apply N).
    unfold dec_round.
    replace (- (x + 6) - 6 <=? 0)%Z with true by (symmetry; apply Z.leb_le; lia).
    exists n, ((d :: c) ++ zeros (Z.to_nat (x + 6))). split; [discriminate |]. split.
    + unfold dec_toString. unfold dec_e in *. cbn [List.length] in *.
      set (e := (Z.of_nat (S (List.length c)) - 1 + (x + 6))%Z).
      replace (e <=? -7)%Z with false by (symmetry; apply Z.leb_gt; subst e; lia).
      replace (21 <=? e)%Z with false by (symmetry; apply Z.leb_gt; subst e; lia).
      replace (e <? 0)%Z with false by (symmetry; apply Z.ltb_ge; subst e; lia).
      replace (0 <=? x + 6)%Z with true by (symmetry; apply Z.leb_le; lia).
      cbn [orb]. now destruct n.
    + f_equal. f_equal. rewrite mkDecimal_app_zeros.
      replace (-6 + Z.of_nat (Z.to_nat (x + 6)))%Z with x by lia.
      apply mkDecimal_normal; [discriminate | apply N | apply N].
Qed.

(** ** to_text: the text of an Amount *)

Local Open Scope list_scope.

Lemma fixed_point_text_window (md : list Digit) (k : Z) :
  0 <= k <= 50 + Z.of_nat (List.length md) ->
  fixed_point_window (string_of_digits md) k = fixed_point_text md (Z.to_nat k).
Proof.
  intros H. rewrite (fixed_point_window_digits md k H). cbv zeta.
  unfold fixed_point_text, decimal_text. cbv zeta.
  destruct (strip_leading _), (strip_trailing _); cbn [string_of_digits];
    now rewrite ?string_app_nil_r.
Qed.

Lemma headed_length_bound (l : list Digit) (k : nat) :
  headed l -> (N_of_digits l < 10 ^ N.of_nat k)%N -> (List.length l <= k)%nat.
Proof.
  intros Hh B. pose proof (digits_of_N_length k _ B) as L.
  now rewrite digits_of_N_of_digits, Hh in L.
Qed.

Lemma string_of_N_of_digits (l : list Digit) :
  headed l -> l <> [] -> string_of_N (N_of_digits l) = string_of_digits l.
Proof.
  intros Hh Hn. unfold string_of_N. rewrite digits_of_N_of_digits, Hh.
  destruct l; [congruence | reflexivity].
Qed.

(** The drops of a native value with at most 6 decimal places, as digits. *)
Lemma drops_digits (n : bool) (d : Digit) (c : list Digit) (x : Z) :
  headed (d :: c) -> (-6 <= x)%Z ->
  let ds := (d :: c) ++ zeros (Z.to_nat (x + 6)) in
  headed ds /\ ds <> []
  /\ drops_of (DFin n (d :: c) x) = ((if n then -1 else 1) * Z.of_N (N_of_digits ds))%Z
  /\ (0 < N_of_digits ds)%N.
Proof.
  intros Hh Hx ds.
  assert (H1 : headed ds) by (apply headed_app; [discriminate | exact Hh]).
  assert (H2 : ds <> []) by discriminate.
  split; [exact H1 |]. split; [exact H2 |]. split.
  - unfold drops_of, ds. rewrite N_of_digits_app, N_of_digits_zeros, zeros_length.
    rewrite N.add_0_r, N2Z.inj_mul, N2Z.inj_pow, nat_N_Z, Z2Nat.id by lia.
    change (Z.of_N 10) with 10%Z. now rewrite Z.mul_assoc.
  - now apply N_of_digits_headed_pos.
Qed.

Local Open Scope string_scope.

Lemma string_of_Z_signed (n : bool) (m : N) :
  (0 < m)%N ->
  string_of_Z ((if n then -1 else 1) * Z.of_N m)
  = (if n then "-" else "") ++ string_of_N m.
Proof.
  intros H. unfold string_of_Z. destruct n.
  - replace (-1 * Z.of_N m <? 0)%Z with true by (symmetry; apply Z.ltb_lt; lia).
    replace (Z.abs_N (-1 * Z.of_N m)) with m by lia. reflexivity.
  - replace (1 * Z.of_N m <? 0)%Z with false by (symmetry; apply Z.ltb_ge; lia).
    replace (Z.abs_N (1 * Z.of_N m)) with m by lia. reflexivity.
Qed.

(** The text of a native Amount below 10^21 drops is its drops, an
    integer. *)
Lemma to_text_native_integer (a : Amount) (n : bool) (c : list Digit) (x : Z) :
  is_valid a = true -> _is_native a = true ->
  _value a = mkValue XRP (DFin n c x) -> canonical (_value a) ->
  (Z.abs (drops_of (DFin n c x)) < 10 ^ 21)%Z ->
  to_text a = string_of_Z (drops_of (DFin n c x)).
Proof.
  intros Hv Hn Ev [N C] B. unfold to_text. rewrite Hv, Hn, Ev in *.
  cbn [negb num kind] in *.
  unfold V.toString, V.multiply, canonicalize. cbn [kind num].
  change (V.operand bi_xns_unit) with (DFin false [dg1] 6).
  unfold dec_times. rewrite xorb_false_r.
  change (N_of_digits [dg1]) with (10 ^ N.of_nat 0)%N.
  rewrite mkDecimal_digits_of_N. rewrite Z.add_0_r.
  destruct c as [| d c].
  - simpl in N. subst x. now destruct n.
  - destruct (drops_digits n d c x (proj1 N) C) as (Hh & Hne & Ed & Pos).
    set (ds := ((d :: c) ++ zeros (Z.to_nat (x + 6)))%list) in *.
    rewrite Ed in *. rewrite (string_of_Z_signed n _ Pos).
    rewrite (string_of_N_of_digits ds Hh Hne).
    assert (L : (List.length ds <= 21)%nat).
    { apply headed_length_bound; [exact Hh |].
      change (10 ^ N.of_nat 21)%N with (10 ^ 21)%N. destruct n; lia. }
    unfold ds in L. rewrite length_app, zeros_length in L. cbn [List.length] in L.
    rewrite mkDecimal_normal by (try discriminate; apply N).
    unfold dec_round.
    replace (- (x + 6) - 6 <=? 0)%Z with true by (symmetry; apply Z.leb_le; lia).
    unfold dec_toString, dec_e. cbn [List.length].
    set (e := (Z.of_nat (S (List.length c)) - 1 + (x + 6))%Z).
    replace (e <=? -7)%Z with false by (symmetry; apply Z.leb_gt; subst e; lia).
    replace (21 <=? e)%Z with false by (symmetry; apply Z.leb_gt; subst e; lia).
    replace (e <? 0)%Z with false by (symmetry; apply Z.ltb_ge; subst e; lia).
    replace (0 <=? x + 6)%Z with true by (symmetry; apply Z.leb_le; lia).
    cbn [orb]. now destruct n.
Qed.

Local Open Scope list_scope.

(** Within the strict-mode limit a native Amount has at most 10^17 drops. *)
Lemma within_limits_drops (a : Amount) (n : bool) (c : list Digit) (x : Z) :
  _is_native a = true ->
  _value a = mkValue XRP (DFin n c x) -> canonical (_value a) ->
  within_limits a ->
  (Z.abs (drops_of (DFin n c x)) <= 10 ^ 17)%Z.
Proof.
  intros Hn Ev [N C] W. rewrite Ev in *. cbn [num kind] in *.
  destruct c as [| d c]; [now destruct n |].
  destruct (drops_digits n d c x (proj1 N) C) as (Hh & Hne & Ed & Pos).
  set (ds := (d :: c) ++ zeros (Z.to_nat (x + 6))) in *.
  rewrite Ed.
  apply within_limits_check in W. unfold _check_limits in W. cbn [negb] in W.
  rewrite Hn, Ev in W.
  assert (M : mkDecimal n ds (-6) = DFin n (d :: c) x).
  { unfold ds. rewrite mkDecimal_app_zeros.
    replace (-6 + Z.of_nat (Z.to_nat (x + 6)))%Z with x by lia.
    apply mkDecimal_normal; [discriminate | apply N | apply N]. }
  rewrite <- M in W.
  assert (Z0 : V.isZero (mkValue XRP (mkDecimal n ds (-6))) = false) by (now rewrite M).
  rewrite Z0 in W. rewrite (drops_exceed_max n ds Z0) in W.
  replace (V.isNaN (mkValue XRP (mkDecimal n ds (-6)))) with false in W by (now rewrite M).
  cbn [orb] in W.
  destruct (10 ^ 17 <? N_of_digits ds)%N eqn:G; [discriminate W |].
  apply N.ltb_ge in G. destruct n; lia.
Qed.

Local Open Scope string_scope.

(** C7, as amended.  [to_text] of an invalid Amount is "NaN".  Of a native
    Amount it is the integer text of its drops, the stored value times 10^6,
    as long as the drops are below 10^21 in magnitude, which holds of every
    native Amount within the limit that strict mode enforces.  Of an issued
    Amount whose value has the coefficient c and the exponent x, with the
    16-digit mantissa m (c filled with zeros) and the offset e = exponent -
    15, it is the sign followed by m, "e" and e exactly when e is not 0 and
    lies outside [-25, -4], and otherwise the sign followed by the
    fixed-point text read off the window of zeros around m split at e + 43;
    the text contains an "e" exactly in the first case, and in both cases it
    denotes the value.  The values are those the Value classes hand out: in
    normal form, with at most 6 decimal places when native and at most 16
    digits when issued. *)
Theorem to_text_cases (a : Amount) :
  (is_valid a = false -> to_text a = "NaN")
  /\ (is_valid a = true -> _is_native a = true ->
      kind (_value a) = XRP -> canonical (_value a) ->
      let drops := drops_of (num (_value a)) in
      ((Z.abs drops < 10 ^ 21)%Z -> to_text a = string_of_Z drops)
      /\ (within_limits a -> to_text a = string_of_Z drops))
  /\ (is_valid a = true -> _is_native a = false ->
      kind (_value a) = IOU -> canonical (_value a) ->
      forall (n : bool) (c : list Digit) (x : Z),
        num (_value a) = DFin n c x ->
        let m := (c ++ zeros (16 - List.length c))%list in
        let e := (dec_e (DFin n c x) - 15)%Z in
        let sign := if n then "-" else "" in
        (e <> 0%Z /\ ~ (-25 <= e <= -4)%Z ->
         to_text a = sign ++ string_of_digits m ++ "e" ++ string_of_Z e)
        /\ (e = 0%Z \/ (-25 <= e <= -4)%Z ->
            to_text a = sign ++ fixed_point_text m (Z.to_nat (e + 43)))
        /\ (string_existsb is_e_char (to_text a) = true
            <-> e <> 0%Z /\ ~ (-25 <= e <= -4)%Z)
        /\ Decimal_of_string (to_text a) = DFin n c x).
Proof.
  split; [| split].
  - unfold to_text. now intros ->.
  - intros Hv Hn Hk C. cbv zeta.
    destruct (is_valid_num a Hv) as (n & c & x & En).
    assert (Ev : _value a = mkValue XRP (DFin n c x)).
    { destruct (_value a) as [k d]. cbn [kind num] in *. now subst. }
    rewrite En.
    assert (T : (Z.abs (drops_of (DFin n c x)) < 10 ^ 21)%Z ->
                to_text a = string_of_Z (drops_of (DFin n c x))).
    { now apply to_text_native_integer. }
    split; [exact T |].
    intros W. apply T.
    pose proof (within_limits_drops a n c x Hn Ev C W). lia.
  - intros Hv Hn Hk C n c x En. cbv zeta.
    pose proof (to_text_denotes a Hv Hn Hk C) as D. rewrite En in D.
    pose proof (to_text_issued a Hv Hn) as T. cbv zeta in T.
    assert (Ev : _value a = mkValue IOU (DFin n c x)).
    { destruct (_value a) as [k d]. cbn [kind num] in *. now subst. }
    destruct C as [N C]. rewrite Ev in N, C, T. cbn [num kind] in N, C.
    assert (L : (List.length c <= 16)%nat) by (destruct c; [simpl; lia | exact C]).
    rewrite (mantissa_of_canonical n c x N L) in T.
    unfold V.getExponent, V.isNegative in T. cbn [num] in T.
    replace (dec_isNegative (DFin n c x)) with n in T by (now destruct n).
    set (m := (c ++ zeros (16 - List.length c))%list) in *.
    set (e := (dec_e (DFin n c x) - 15)%Z) in *.
    assert (Lm : List.length m = 16%nat)
      by (subst m; rewrite length_app, zeros_length; lia).
    assert (A : e <> 0%Z /\ ~ (-25 <= e <= -4)%Z ->
                negb (e =? 0)%Z && ((e <? -25)%Z || (e >? -4)%Z) = true).
    { intros [Hne Hout].
      apply andb_true_iff. split; [apply negb_true_iff, Z.eqb_neq; exact Hne |].
      apply orb_true_iff.
      destruct (Z.lt_ge_cases e (-25)) as [Lt | Ge].
      - left. now apply Z.ltb_lt.
      - right. apply Z.gtb_lt. lia. }
    assert (B : e = 0%Z \/ (-25 <= e <= -4)%Z ->
                negb (e =? 0)%Z && ((e <? -25)%Z || (e >? -4)%Z) = false).
    { intros [E | R].
      - rewrite E. reflexivity.
      - replace (e <? -25)%Z with false by (symmetry; apply Z.ltb_ge; lia).
        replace (e >? -4)%Z with false
          by (symmetry; rewrite Z.gtb_ltb; apply Z.ltb_ge; lia).
        apply andb_false_r. }
    assert (F : e = 0%Z \/ (-25 <= e <= -4)%Z ->
                to_text a = (if n then "-" else "") ++ fixed_point_text m (Z.to_nat (e + 43))).
    { intros H. rewrite T, (B H). f_equal.
      apply fixed_point_text_window. rewrite Lm. lia. }
    assert (X : e <> 0%Z /\ ~ (-25 <= e <= -4)%Z ->
                to_text a = (if n then "-" else "") ++ string_of_digits m ++ "e" ++ string_of_Z e).
    { intros H. now rewrite T, (A H). }
    split; [exact X |]. split; [exact F |]. split; [| exact D].
    assert (Dm : string_forallb is_digit_char (string_of_digits m) = true).
    { apply string_of_digits_forall. now intros []. }
    destruct (Z.eq_dec e 0) as [E | E];
      [| destruct (Z_le_dec (-25) e) as [Lo | Lo];
         [destruct (Z_le_dec e (-4)) as [Up | Up] |]].
    + rewrite T, (B (or_introl E)).
      rewrite string_existsb_app, fixed_point_window_no_e by exact Dm.
      split; [| intros [H _]; contradiction]. destruct n; discriminate.
    + rewrite T, (B (or_intror (conj Lo Up))).
      rewrite string_existsb_app, fixed_point_window_no_e by exact Dm.
      split; [| intros [_ H]; exfalso; apply H; lia]. destruct n; discriminate.
    + assert (Cx : e <> 0%Z /\ ~ (-25 <= e <= -4)%Z) by (split; [exact E | lia]).
      rewrite (X Cx). split; [intros _; exact Cx | intros _].
      rewrite !string_existsb_app. simpl. now rewrite !orb_true_r.
    + assert (Cx : e <> 0%Z /\ ~ (-25 <= e <= -4)%Z) by (split; [exact E | lia]).
      rewrite (X Cx). split; [intros _; exact Cx | intros _].
      rewrite !string_existsb_app. simpl. now rewrite !orb_true_r.
Qed.

(** Witness of the amended C7: 100.4 USD prints in fixed point, and 25.2 XRP
    as 25200000 drops. *)
Lemma to_text_cases_witness :
  to_text (usd (DFin false [dg1; dg0; dg0; dg4] (-1)))
  = "" ++ fixed_point_text ([dg1; dg0; dg0; dg4] ++ zeros 12) 30
  /\ to_text (xrp (DFin false [dg2; dg5; dg2] (-1))) = string_of_Z 25200000.
Proof.
  split.
  - refine (proj1 (proj2 (proj2 (proj2 (to_text_cases
              (usd (DFin false [dg1; dg0; dg0; dg4] (-1)))))
              eq_refl eq_refl eq_refl _ false [dg1; dg0; dg0; dg4] (-1) eq_refl)) _).
    + split; [split; reflexivity | simpl; lia].
    + right. vm_compute. split; discriminate.
  - refine (proj1 (proj1 (proj2 (to_text_cases (xrp (DFin false [dg2; dg5; dg2] (-1)))))
              eq_refl eq_refl eq_refl _) _).
    + split; [split; reflexivity | simpl; lia].
    + vm_compute. reflexivity.
Defined.

(** C7 as the spec states it fails: with strict mode off [from_json] takes
    10^21 drops, a valid native Amount of 10^15 XRP, and its text is not an
    integer string but "1e+21". *)
Lemma to_text_native_exponent :
  let a := xrp (DFin false [dg1] 15) in
  from_json false demo_Currency_from_json demo_UInt160_from_json
    (JString "1000000000000000000000") = Ok a
  /\ is_valid a = true /\ _is_native a = true
  /\ drops_of (num (_value a)) = (10 ^ 21)%Z
  /\ to_text a = "1e+21".
Proof. cbv zeta. repeat split; vm_compute; reflexivity. Qed.

Example to_text_fixed_point :
  to_text (usd (DFin false [dg1; dg0; dg0; dg4] (-1))) = "100.4".
Proof. reflexivity. Qed.

Example to_text_e_notation :
  to_text (usd (DFin true [dg1; dg2] 30)) = "-1200000000000000e16".
Proof. reflexivity. Qed.

Example to_text_native :
  to_text (xrp (DFin false [dg2; dg5; dg2] (-1))) = "25200000".
Proof. reflexivity. Qed.

(** ** parse_quality: the stages of the decoding *)

Lemma hex_N_positional (s : string) :
  hex_N s = match hex_digits s with Some l => positional 16 l | None => 0%N end.
Proof.
  unfold hex_N. rewrite hex_value_positional.
  destruct (hex_digits s) as [l |]; [| reflexivity].
  now rewrite N.mul_0_l, N.add_0_l.
Qed.

Lemma hex_digits_all (s : string) :
  string_forallb is_hex_char s = true -> exists l, hex_digits s = Some l.
Proof.
  induction s as [| c s IH]; [now exists []%list |].
  cbn [string_forallb hex_digits]. intros H. apply andb_true_iff in H.
  destruct H as [Hc Hs]. unfold is_hex_char in Hc.
  destruct (hex_of_ascii c) as [h |]; [| discriminate Hc].
  destruct (IH Hs) as (l & ->). now exists (h :: l)%list.
Qed.

Local Open Scope list_scope.

Lemma dec_shift_0 (d : Decimal) : dec_normal d -> dec_shift 0 d = d.
Proof.
  destruct d as [| n [| a c] x]; try reflexivity.
  intros _. unfold dec_shift. now rewrite Z.add_0_r.
Qed.

Lemma dec_shift_canonical (k : Z) (v : Value) :
  kind v = IOU -> canonical v -> canonical (mkValue IOU (dec_shift k (num v))).
Proof.
  intros K [N C]. destruct v as [kd d]. cbn [kind num] in *. subst kd.
  destruct d as [| n [| a c] x]; split; cbn [num kind dec_shift]; auto.
Qed.

Lemma dec_shift_sign (k : Z) (d : Decimal) :
  dec_isNegative (dec_shift k d) = dec_isNegative d.
Proof. now destruct d as [| n [| a c] x]. Qed.

(** Multiplying an issued value by the drops of one XRP, and dividing it by
    them, moves the decimal point by six places: no digit is lost. *)
Lemma multiply_by_xns_unit (v : Value) :
  kind v = IOU -> canonical v ->
  V.multiply v bi_xns_unit = mkValue IOU (dec_shift 6 (num v)).
Proof.
  intros K C. pose proof (dec_shift_canonical 6 v K C) as C6.
  rewrite <- (canonicalize_fix _ C6). cbn [kind num].
  unfold V.multiply. rewrite K. f_equal.
  change (V.operand bi_xns_unit) with (DFin false [dg1] 6).
  destruct C as [N _]. destruct (num v) as [| n c x]; [reflexivity |].
  unfold dec_times. rewrite xorb_false_r.
  change (N_of_digits [dg1]) with (10 ^ N.of_nat 0)%N.
  rewrite mkDecimal_digits_of_N, Z.add_0_r.
  destruct c as [| a c].
  - simpl in N. subst x. reflexivity.
  - now apply mkDecimal_normal; [discriminate | apply N | apply N].
Qed.

Lemma divide_by_xns_unit_issued (v : Value) :
  kind v = IOU -> canonical v ->
  V.divide v bi_xns_unit = mkValue IOU (dec_shift (-6) (num v)).
Proof.
  intros K C. pose proof (dec_shift_canonical (-6) v K C) as C6.
  rewrite <- (canonicalize_fix _ C6). cbn [kind num].
  unfold V.divide. rewrite K. f_equal.
  change (V.operand bi_xns_unit) with (DFin false [dg1] 6).
  destruct C as [N _]. destruct (num v) as [| n c x]; [reflexivity |].
  unfold dec_div. rewrite xorb_false_r.
  change (N_of_digits [dg1]) with 1%N. rewrite N.div_1_r.
  replace (Z.to_N (Z.of_nat (List.length [dg1] + DIV_GUARD)))
    with (N.of_nat (List.length [dg1] + DIV_GUARD)) by lia.
  rewrite mkDecimal_digits_of_N.
  replace (x - 6 - Z.of_nat (List.length [dg1] + DIV_GUARD)
           + Z.of_nat (List.length [dg1] + DIV_GUARD)) with (x + -6) by lia.
  destruct c as [| a c].
  - simpl in N. subst x. reflexivity.
  - now apply mkDecimal_normal; [discriminate | apply N | apply N].
Qed.

(** Rounding down to decimal places adds no digit. *)
Lemma dec_round_length (dp : Z) (n : bool) (c : list Digit) (x : Z) :
  match dec_round dp ROUND_DOWN (DFin n c x) with
  | DFin _ c' _ => (List.length c' <= List.length c)%nat
  | DNaN => True
  end.
Proof.
  unfold dec_round.
  destruct (- x - dp <=? 0)%Z; [lia |].
  destruct (Z.of_nat (List.length c) <? - x - dp)%Z; [simpl; lia |].
  rewrite cut_digits_down.
  pose proof (mkDecimal_bounds n (firstn (Z.to_nat (Z.of_nat (List.length c) - (- x - dp))) c)
                (- dp)) as B.
  destruct (mkDecimal _ _ _) as [| n' [| a c'] x']; try (simpl; lia).
  destruct B as [B _]. rewrite length_firstn in B. lia.
Qed.

Local Open Scope string_scope.

(** The native branch of [parse_quality]: the rounded price passes through
    its text and the XRPValue constructor unchanged. *)
Lemma native_rounded (v : Value) :
  kind v = IOU -> canonical v -> V.isNegative v = false ->
  XRPValue (Decimal_of_string (V.toString (V.round v 6 ROUND_DOWN)))
  = Ok (mkValue XRP (dec_round 6 ROUND_DOWN (num v))).
Proof.
  intros K [N C] S.
  pose proof (canonicalize_canonical XRP (num v) N) as [N' C']. cbn [canonicalize num kind] in N', C'.
  pose proof (dec_round_sign 6 (num v)) as S'. unfold V.isNegative in S. rewrite S in S'.
  unfold V.round, V.toString. rewrite K. cbn [canonicalize num].
  set (d := dec_round 6 ROUND_DOWN (num v)) in *.
  assert (L : dec_toDigits 16 ROUND_DOWN d = d).
  { destruct (num v) as [| n c x] eqn:E; [reflexivity |].
    pose proof (dec_round_length 6 n c x) as B. fold d in B.
    destruct d as [| n' c' x']; [reflexivity |]. unfold dec_toDigits.
    replace (List.length c' <=? 16)%nat with true; [reflexivity |].
    symmetry. apply Nat.leb_le. rewrite K in C.
    destruct c; [simpl in B; lia |]. lia. }
  rewrite L, (Decimal_of_string_toString d N').
  assert (Z0 : (if dec_isZero d then DFin false []%list 0 else d) = d).
  { destruct d as [| n' [| a c'] x']; try reflexivity.
    simpl in N'. subst x'. destruct n'; [discriminate S' | reflexivity]. }
  rewrite Z0. apply XRPValue_fits.
  destruct d as [| n' [| a c'] x']; [simpl; lia | |].
  - simpl in N'. subst x'. cbn. lia.
  - rewrite (dec_dp_normal n' a c' x' N'). lia.
Qed.

(** The rational number that a decimal in the making denotes. *)
Lemma dec_Q_mkDecimal (n : bool) (c : list Digit) (x : Z) :
  (dec_Q (mkDecimal n c x) == dec_Q (DFin n c x))%Q.
Proof.
  destruct (mkDecimal_cases n c x) as [[E ->] | (c' & k & Hc & Hh & He & E & ->)].
  - unfold dec_Q. rewrite E. cbn [N_of_digits fold_left]. simpl Z.of_N.
    rewrite !Z.mul_0_r. unfold inject_Z. now rewrite !Qmult_0_l.
  - rewrite (dec_Q_scaled n c' (x + Z.of_nat k) x) by lia.
    unfold dec_Q, scaled. rewrite E.
    replace (x + Z.of_nat k - x)%Z with (Z.of_nat k) by lia.
    rewrite N2Z.inj_mul, N2Z.inj_pow, nat_N_Z. reflexivity.
Qed.

Lemma dec_Q_shift (k : Z) (d : Decimal) :
  dec_normal d -> (dec_Q (dec_shift k d) == dec_Q d * (10 # 1) ^ k)%Q.
Proof.
  destruct d as [| n [| a c] x]; intros N.
  - simpl. now rewrite Qmult_0_l.
  - unfold dec_shift, dec_Q. cbn [N_of_digits fold_left]. simpl Z.of_N.
    rewrite !Z.mul_0_r. unfold inject_Z. now rewrite !Qmult_0_l.
  - unfold dec_shift, dec_Q. rewrite Qpower_plus by discriminate.
    now rewrite Qmult_assoc.
Qed.

Lemma issued_value (v : Value) : kind v = IOU -> mkValue IOU (num v) = v.
Proof. destruct v as [k d]. cbn. now intros ->. Qed.

(** C2, as amended.  For a quality string of 16 or more hex characters and
    currencies that are not both native, [parse_quality] stores the price
    that spec 4.6 describes ([quality_price]) with the counter currency and
    issuer: the issued value mantissa * 10^(exponent - 100), inverted when
    [inverse] is set, moved by six decimal places as [quality_shift] tells,
    rounded to 6 decimal places toward zero and made a native value when the
    counter currency is native, and divided by the interest factor when
    there is a reference date and the base currency has interest.  That is
    what it returns whenever it returns; it always returns with strict mode
    off; with strict mode on it returns when the price before and after the
    interest step is within the limits, and throws the range error when one
    of the two is not.  Without inversion and interest, for a mantissa of at
    most 16 digits (and at most 6 decimal places when native), the price is
    the rational number mantissa * 10^(exponent - 100 + shift).  The
    mantissa is taken not to be zero when the price is inverted, and the
    interest factor, the value of an exponential (spec 4.4), to be
    positive. *)
Theorem parse_quality_price
        (strict : bool) (gia : Currency -> Z -> Decimal) (this : Amount)
        (q : string) (cc : Currency) (ci : UInt160) (opts : QualityOpts) :
  string_forallb is_hex_char q = true ->
  (16 <= String.length q)%nat ->
  Cur.is_native cc && Cur.is_native (base_currency opts) = false ->
  (inverse opts = true -> quality_mantissa q <> 0%N) ->
  (forall c d, dec_positive (gia c d)) ->
  let native := Cur.is_native cc in
  let result := mkAmount (quality_price gia q cc opts) native cc ci in
  let before := mkAmount (quality_price gia q cc (without_date opts)) native cc ci in
  (forall a, parse_quality strict gia this q cc ci opts = Ok a -> a = result)
  /\ parse_quality false gia this q cc ci opts = Ok result
  /\ (within_limits before -> within_limits result ->
      parse_quality true gia this q cc ci opts = Ok result)
  /\ (~ within_limits before \/ ~ within_limits result ->
      exists e, parse_quality true gia this q cc ci opts = Throw e /\ range_error e)
  /\ (inverse opts = false -> reference_date opts = None ->
      (quality_mantissa q < 10 ^ 16)%N ->
      (native = true -> (-6 <= quality_exponent q + quality_shift cc opts)%Z) ->
      (dec_Q (num (quality_price gia q cc opts))
       == inject_Z (Z.of_N (quality_mantissa q))
          * (10 # 1) ^ (quality_exponent q + quality_shift cc opts))%Q).
Proof.
  intros Hq Hlen Hb Hinv Hgia.
  set (mh := String.substring (String.length q - 14) 14 q).
  set (oh := String.substring (String.length q - 16) 2 q).
  assert (Hmh : string_forallb is_hex_char mh = true)
    by (apply string_forallb_substring; exact Hq).
  assert (Hoh : string_forallb is_hex_char oh = true)
    by (apply string_forallb_substring; exact Hq).
  assert (Lmh : String.length mh = 14%nat) by (apply substring_length; lia).
  assert (Loh : String.length oh = 2%nat) by (apply substring_length; lia).
  assert (Em : quality_mantissa q = hex_N mh).
  { unfold quality_mantissa. fold mh. now rewrite hex_N_positional. }
  assert (Ee : quality_exponent q = (Z.of_N (hex_N oh) - 100)%Z).
  { unfold quality_exponent. fold oh. rewrite hex_N_positional.
    now destruct (hex_digits_all oh Hoh) as (l & ->). }
  assert (Bm : (quality_mantissa q < 10 ^ 17)%N).
  { rewrite Em. pose proof (proj2 (hex_N_bound mh Hmh)) as B. rewrite Lmh in B.
    eapply N.lt_trans; [exact B | reflexivity]. }
  (* the stages *)
  set (v0 := IOUValue (Decimal_of_N false (quality_mantissa q) (quality_exponent q)) None).
  assert (S0 : issued_nonneg v0).
  { split; [reflexivity |]. split.
    - apply IOUValue_canonical, mkDecimal_is_normal.
    - apply IOUValue_nonneg, mkDecimal_sign. }
  set (v1 := if inverse opts then V.invert v0 else v0).
  assert (S1 : issued_nonneg v1).
  { subst v1. destruct (inverse opts); [| exact S0].
    destruct S0 as (K & C & S). split; [| split].
    - unfold V.invert. apply canonicalize_kind.
    - unfold V.invert. rewrite K.
      apply canonicalize_canonical. unfold dec_invert. apply dec_div_normal.
    - now apply invert_IOU_nonneg. }
  set (sh := quality_shift cc opts).
  set (v2 := mkValue IOU (dec_shift sh (num v1))).
  assert (S2 : issued_nonneg v2).
  { destruct S1 as (K & C & S). split; [reflexivity |]. split.
    - now apply dec_shift_canonical.
    - unfold V.isNegative, v2. cbn [num]. now rewrite dec_shift_sign. }
  assert (E2 : (if negb (xrp_as_drops opts) then
                  if Cur.is_native cc then V.divide v1 bi_xns_unit
                  else if Cur.is_native (base_currency opts)
                       then V.multiply v1 bi_xns_unit else v1
                else v1) = v2).
  { destruct S1 as (K & C & S). subst v2 sh. unfold quality_shift.
    destruct (xrp_as_drops opts); cbn [negb].
    - now rewrite (dec_shift_0 _ (proj1 C)), issued_value.
    - destruct (Cur.is_native cc); [now apply divide_by_xns_unit_issued |].
      destruct (Cur.is_native (base_currency opts)); [now apply multiply_by_xns_unit |].
      now rewrite (dec_shift_0 _ (proj1 C)), issued_value. }
  set (v3 := if Cur.is_native cc then mkValue XRP (dec_round 6 ROUND_DOWN (num v2)) else v2).
  assert (S3 : canonical v3 /\ V.isNegative v3 = false).
  { destruct S2 as (K & C & S). subst v3. destruct (Cur.is_native cc); [| now split].
    split.
    - apply (canonicalize_canonical XRP (num v2)), C.
    - unfold V.isNegative. cbn [num]. now rewrite dec_round_sign. }
  set (this0 := mkAmount (_value this) (Cur.is_native cc) cc ci).
  set (I := fun date => IOUValue (gia (base_currency opts) date) None).
  assert (E0 : forall st,
             parse_quality st gia this q cc ci opts
             = (this1 <- _check_limits st (set_value this0 v3) ;;
                match reference_date opts with
                | Some date =>
                    if Cur.has_interest (base_currency opts) then
                      _set_value st this1 (JValue (V.divide (_value this1) (I date)))
                    else Ok this1
                | None => Ok this1
                end)).
  { intros st. unfold parse_quality. cbv zeta.
    unfold js_substring_from.
    rewrite !js_substring_in_range by lia.
    replace (Z.to_nat (Z.of_nat (String.length q) - 14)) with (String.length q - 14)%nat
      by lia.
    replace (Z.to_nat (Z.of_nat (String.length q) - (Z.of_nat (String.length q) - 14)))
      with 14%nat by lia.
    replace (Z.to_nat (Z.of_nat (String.length q) - 16)) with (String.length q - 16)%nat
      by lia.
    replace (Z.to_nat (Z.of_nat (String.length q) - 14 - (Z.of_nat (String.length q) - 16)))
      with 2%nat by lia.
    fold mh oh.
    rewrite (Decimal_of_hex_all mh Hmh) by (intros E; rewrite E in Lmh; discriminate).
    rewrite (parseInt16_hex oh Hoh Loh).
    cbn [option_map number_toString _is_native]. rewrite Hb.
    rewrite <- Em, <- Ee.
    rewrite (mantissa_text_roundtrip _ _ Bm). fold v0. fold v1.
    rewrite native_is_valid, interest_is_valid, E2. fold this0.
    rewrite <- (_set_value_nonneg st this0 v3 (proj2 S3)).
    subst v3. destruct (Cur.is_native cc); [| reflexivity].
    destruct S2 as (K & C & S). now rewrite (native_rounded v2 K C S). }
  (* the interest step *)
  assert (SI : forall date, V.isNegative (V.divide v3 (I date)) = false).
  { intros date. unfold V.divide. rewrite canonicalize_sign.
    apply dec_div_nonneg; [apply S3 |].
    unfold I, V.operand, IOUValue. cbn [kind num]. rewrite dec_toDigits_sign.
    specialize (Hgia (base_currency opts) date).
    destruct (gia (base_currency opts) date) as [| [] [|] ?]; now try contradiction. }
  assert (P2 : quality_price gia q cc (without_date opts) = v3).
  { unfold quality_price, without_date, quality_shift.
    cbn [reference_date base_currency inverse xrp_as_drops]. reflexivity. }
  assert (P3 : quality_price gia q cc opts
               = match reference_date opts with
                 | Some date =>
                     if Cur.has_interest (base_currency opts)
                     then V.divide v3 (I date) else v3
                 | None => v3
                 end) by reflexivity.
  assert (E1 : forall st,
             parse_quality st gia this q cc ci opts
             = (this1 <- _check_limits st (set_value this0 v3) ;;
                match reference_date opts with
                | Some date =>
                    if Cur.has_interest (base_currency opts) then
                      _check_limits st (set_value this0 (V.divide v3 (I date)))
                    else Ok this1
                | None => Ok this1
                end)).
  { intros st. rewrite E0.
    destruct (_check_limits st (set_value this0 v3)) as [t |] eqn:C; [| reflexivity].
    apply _check_limits_ok in C. subst t. cbn [bind _value set_value].
    destruct (reference_date opts) as [date |]; [| reflexivity].
    destruct (Cur.has_interest (base_currency opts)); [| reflexivity].
    now rewrite (_set_value_nonneg st _ _ (SI date)). }
  cbv zeta. rewrite P2.
  change (mkAmount v3 (Cur.is_native cc) cc ci) with (set_value this0 v3).
  assert (R : mkAmount (quality_price gia q cc opts) (Cur.is_native cc) cc ci
              = match reference_date opts with
                | Some date =>
                    if Cur.has_interest (base_currency opts)
                    then set_value this0 (V.divide v3 (I date)) else set_value this0 v3
                | None => set_value this0 v3
                end).
  { rewrite P3. destruct (reference_date opts); [| reflexivity].
    now destruct (Cur.has_interest (base_currency opts)). }
  rewrite R.
  split; [| split; [| split; [| split]]].
  - intros a. rewrite E1.
    destruct (_check_limits strict (set_value this0 v3)) as [t |] eqn:C; [| discriminate].
    apply _check_limits_ok in C. subst t. cbn [bind].
    destruct (reference_date opts) as [date |]; [| now intros [= <-]].
    destruct (Cur.has_interest (base_currency opts)); [| now intros [= <-]].
    intros C. now apply _check_limits_ok in C.
  - rewrite E1. cbn [_check_limits negb bind].
    destruct (reference_date opts) as [date |]; [| reflexivity].
    destruct (Cur.has_interest (base_currency opts)); reflexivity.
  - intros B W. rewrite E1, (within_limits_check _ B). cbn [bind].
    destruct (reference_date opts) as [date |]; [| reflexivity].
    destruct (Cur.has_interest (base_currency opts)); [| reflexivity].
    now apply within_limits_check.
  - intros W. rewrite E1.
    destruct (_check_limits true (set_value this0 v3)) as [t | e] eqn:C.
    + pose proof (_check_limits_ok _ _ _ C) as T. subst t. cbn [bind].
      assert (B : within_limits (set_value this0 v3)) by (now apply _check_limits_within).
      destruct (reference_date opts) as [date |]; [| destruct W; contradiction].
      destruct (Cur.has_interest (base_currency opts)); [| destruct W; contradiction].
      destruct W as [W | W]; [contradiction |].
      destruct (_check_limits true (set_value this0 (V.divide v3 (I date)))) as [t | e] eqn:D.
      * pose proof (_check_limits_ok _ _ _ D) as T. subst t.
        elim W. now apply _check_limits_within.
      * exists e. split; [reflexivity |].
        rewrite <- (_set_value_nonneg true this0 _ (SI date)) in D.
        now destruct (_set_value_throws_only_range _ _ _ _ D).
    + exists e. split; [reflexivity |].
      rewrite <- (_set_value_nonneg true this0 _ (proj2 S3)) in C.
      now destruct (_set_value_throws_only_range _ _ _ _ C).
  - intros Hi Hd Hm Hx. rewrite P3, Hd.
    assert (Q0 : num v1 = mkDecimal false (digits_of_N (quality_mantissa q))
                                    (quality_exponent q)).
    { subst v1. rewrite Hi. unfold v0, IOUValue, Decimal_of_N. cbn [num].
      pose proof (mkDecimal_bounds false (digits_of_N (quality_mantissa q))
                    (quality_exponent q)) as B.
      pose proof (digits_of_N_length 16 _ Hm) as L.
      destruct (mkDecimal _ _ _) as [| n [| a c] x]; try reflexivity.
      unfold dec_toDigits.
      replace (List.length (a :: c) <=? 16)%nat with true; [reflexivity |].
      symmetry. apply Nat.leb_le. lia. }
    assert (Q2 : (dec_Q (num v2)
                  == inject_Z (Z.of_N (quality_mantissa q))
                     * (10 # 1) ^ (quality_exponent q + sh))%Q).
    { subst v2. cbn [num]. rewrite dec_Q_shift by apply S1.
      rewrite Q0, dec_Q_mkDecimal. unfold dec_Q.
      rewrite N_of_digits_of_N, Qpower_plus by discriminate.
      rewrite Z.mul_1_l. now rewrite Qmult_assoc. }
    subst v3. destruct (Cur.is_native cc) eqn:Hcc; [| exact Q2].
    cbn [num]. rewrite <- Q2.
    specialize (Hx eq_refl). fold sh in Hx.
    assert (Rd : dec_round 6 ROUND_DOWN (num v2) = num v2).
    { subst v2. cbn [num]. rewrite Q0.
      destruct (mkDecimal_cases false (digits_of_N (quality_mantissa q))
                  (quality_exponent q)) as [[_ ->] | (c' & k & Hc & Hh & He & _ & ->)];
        [reflexivity |].
      destruct c' as [| a c']; [congruence |]. cbn [dec_shift]. unfold dec_round.
      replace (- (quality_exponent q + Z.of_nat k + sh) - 6 <=? 0)%Z with true;
        [reflexivity |].
      symmetry. apply Z.leb_le. lia. }
    now rewrite Rd.
Qed.

(** Witness of the amended C2: the quality 5D0364B9E3B00064 in USD against
    XRP, of mantissa 955174481821796 and exponent -7. *)
Lemma parse_quality_price_witness :
  string_forallb is_hex_char "5D0364B9E3B00064" = true
  /\ (16 <= String.length "5D0364B9E3B00064")%nat
  /\ Cur.is_native (CurIso "USD") && Cur.is_native CurNative = false
  /\ (forall c d, dec_positive (demo_interest c d))
  /\ parse_quality false demo_interest Amount_new "5D0364B9E3B00064"
       (CurIso "USD") (Some 1%N) (mkQualityOpts false CurNative None false)
     = Ok (mkAmount
             (quality_price demo_interest "5D0364B9E3B00064" (CurIso "USD")
                (mkQualityOpts false CurNative None false))
             false (CurIso "USD") (Some 1%N))
  /\ (dec_Q (num (quality_price demo_interest "5D0364B9E3B00064" (CurIso "USD")
                    (mkQualityOpts false CurNative None false)))
      == inject_Z 955174481821796 * (10 # 1) ^ (-7 + 6))%Q.
Proof.
  assert (H1 : string_forallb is_hex_char "5D0364B9E3B00064" = true) by reflexivity.
  assert (H2 : (16 <= String.length "5D0364B9E3B00064")%nat) by (simpl; lia).
  assert (H3 : Cur.is_native (CurIso "USD") && Cur.is_native CurNative = false)
    by reflexivity.
  assert (H4 : forall c d, dec_positive (demo_interest c d)) by (intros c d; exact I).
  assert (H5 : inverse (mkQualityOpts false CurNative None false) = true ->
               quality_mantissa "5D0364B9E3B00064" <> 0%N)
    by (intros E; discriminate E).
  pose proof (parse_quality_price false demo_interest Amount_new "5D0364B9E3B00064"
                (CurIso "USD") (Some 1%N) (mkQualityOpts false CurNative None false)
                H1 H2 H3 H5 H4) as T.
  split; [exact H1 | split; [exact H2 | split; [exact H3 | split; [exact H4 |]]]].
  split; [exact (proj1 (proj2 T)) |].
  refine (proj2 (proj2 (proj2 (proj2 T))) eq_refl eq_refl _ _).
  - vm_compute. reflexivity.
  - intros E. discriminate E.
Defined.

(** C2 as the spec states it fails: in strict mode the quality
    0000000000000001 (1e-100) in USD against EUR is decoded to a price below
    the issued minimum, and [parse_quality] throws instead of yielding it. *)
Lemma parse_quality_underflow_throws :
  string_forallb is_hex_char "0000000000000001" = true
  /\ Cur.is_native (CurIso "USD") = false
  /\ quality_price demo_interest "0000000000000001" (CurIso "USD")
       (mkQualityOpts false (CurIso "EUR") None false)
     = mkValue IOU (DFin false [dg1] (-100))
  /\ parse_quality true demo_interest Amount_new "0000000000000001"
       (CurIso "USD") (Some 1%N) (mkQualityOpts false (CurIso "EUR") None false)
     = Throw (exceeding_min MIN_IOU_VALUE).
Proof. repeat split. Qed.

Example parse_quality_usd_per_xrp :
  match parse_quality true demo_interest Amount_new
          "4627DFFCFF8B5A265EDBD8AE8C14A52325DBFEDAF4F5C32E5C08A1FB2E56F800"
          (CurIso "USD") (Some 1%N) (mkQualityOpts false (CurIso "EUR") None false) with
  | Ok a => to_text a
  | Throw _ => "throws"
  end = "24299000".
Proof. vm_compute. reflexivity. Qed.

Example parse_quality_xrp_per_usd :
  match parse_quality true demo_interest Amount_new "5D0364B9E3B00064"
          CurNative (Some 0%N) (mkQualityOpts false (CurIso "USD") None false) with
  | Ok a => to_text a
  | Throw _ => "throws"
  end = "95517448".
Proof. vm_compute. reflexivity. Qed.

Local Open Scope string_scope.

(** X13.  The JSON form of a native Amount reads back: for a valid native
    Amount with a canonical value below 10^15 XRP, with the currency and the
    issuer that [from_json] gives native Amounts, [from_json] of [to_json]
    stores the value of the Amount again; with strict mode off the result
    is the Amount itself (a negative zero apart, which is stored as
    zero). *)
Theorem json_round_trip_native
        (strict : bool) (cfj : string -> bool -> Currency) (ufj : string -> UInt160)
        (c2j c2h : Currency -> string) (u2j : UInt160 -> string) (a : Amount) :
  is_valid a = true -> _is_native a = true ->
  kind (_value a) = XRP -> canonical (_value a) ->
  (dec_e (num (_value a)) < 15)%Z ->
  _currency a = cfj "0" false -> _issuer a = ufj "0" ->
  from_json strict cfj ufj (to_json c2j c2h u2j a)
  = _check_limits strict (set_value a (stored_value (_value a)))
  /\ from_json false cfj ufj (to_json c2j c2h u2j a)
     = Ok (set_value a (stored_value (_value a))).
Proof.
  intros Hv Hn Hk C He Hc Hi.
  assert (G : forall s,
             from_json s cfj ufj (to_json c2j c2h u2j a)
             = _check_limits s (set_value a (stored_value (_value a)))).
  { intros s.
    destruct (is_valid_num a Hv) as (n & c & x & En).
    assert (Ev : _value a = mkValue XRP (DFin n c x)).
    { destruct (_value a) as [k d]. cbn [kind num] in *. now subst. }
    rewrite En in He.
    destruct (to_text_native_drops a n c x Hv Hn Ev C He) as (n' & ds & Hds & Et & Es).
    unfold to_json. rewrite Hn, Et.
    unfold from_json, parse_json, parse_json_string.
    pose proof (plain_integer_digits n' ds Hds) as P.
    destruct (Decimal_of_string_plain _ _ _ P) as (Hd & Hdot & Hsl & Hne).
    rewrite (match_shorthand_no_slash _ Hsl). unfold parse_native.
    rewrite (js_isNaN_integer n' ds Hds), Hdot, Hd, (XRPValue_mkDecimal _ _ 0) by lia.
    cbn [bind]. rewrite divide_by_xns_unit.
    replace (negb ((if n' then "-" else "") ++ string_of_digits ds =? ""))
      with true.
    2:{ destruct ((if n' then "-" else "") ++ string_of_digits ds);
          [congruence | reflexivity]. }
    cbn [negb andb]. unfold _set_value.
    fold (stored_value (mkValue XRP (mkDecimal n' ds (-6)))).
    rewrite Es, _check_limits_set_fields. f_equal.
    destruct a as [v nat cur iss]. cbn in *. now subst. }
  split; [apply G | apply (G false)].
Qed.

Lemma json_round_trip_native_witness :
  from_json true demo_Currency_from_json demo_UInt160_from_json
    (to_json (fun _ => "XRP") (fun _ => "") (fun _ => "0")
       (xrp (DFin false [dg2; dg5; dg2] (-1))))
  = Ok (xrp (DFin false [dg2; dg5; dg2] (-1))).
Proof.
  refine (proj1 (json_round_trip_native true demo_Currency_from_json demo_UInt160_from_json
                   (fun _ => "XRP") (fun _ => "") (fun _ => "0")
                   (xrp (DFin false [dg2; dg5; dg2] (-1)))
                   eq_refl eq_refl eq_refl _ _ eq_refl eq_refl)).
  - split; [split; reflexivity | simpl; lia].
  - simpl. lia.
Defined.

(** ** parse_human *)

Lemma string_forallb_not_exists (p q : ascii -> bool) (s : string) :
  (forall c, p c = true -> q c = false) ->
  string_forallb p s = true -> string_existsb q s = false.
Proof.
  intros I. induction s as [| c s IH]; [reflexivity |].
  simpl. intros H. apply andb_true_iff in H. destruct H as [Hc Hs].
  now rewrite (I _ Hc), (IH Hs).
Qed.

Lemma alpha_not_space (c : ascii) : is_alpha_char c = true -> is_js_space c = false.
Proof.
  destruct c as [[] [] [] [] [] [] [] []]; intros H; try reflexivity; discriminate H.
Qed.

Lemma alpha_not_blank (c : ascii) : is_alpha_char c = true -> Ascii.eqb c " " = false.
Proof.
  destruct c as [[] [] [] [] [] [] [] []]; intros H; try reflexivity; discriminate H.
Qed.

Lemma js_split_none (s : string) :
  string_existsb (fun c => Ascii.eqb c " ") s = false -> js_split " " s = [s].
Proof.
  induction s as [| c s IH]; [reflexivity |].
  simpl. intros H. apply orb_false_iff in H. destruct H as [Hc Hs].
  now rewrite Hc, (IH Hs).
Qed.

Lemma js_split_app (s t : string) :
  string_existsb (fun c => Ascii.eqb c " ") s = false ->
  js_split " " (s ++ String " " t) = s :: js_split " " t.
Proof.
  induction s as [| c s IH]; [reflexivity |].
  simpl. intros H. apply orb_false_iff in H. destruct H as [Hc Hs].
  now rewrite Hc, (IH Hs).
Qed.

(** Two words separated by one space. *)
Lemma words_two (s t : string) :
  string_existsb (fun c => Ascii.eqb c " ") s = false ->
  string_existsb (fun c => Ascii.eqb c " ") t = false ->
  s <> "" -> t <> "" ->
  filter (fun word => negb (String.eqb word "")) (js_split " " (s ++ " " ++ t)) = [s; t].
Proof.
  intros Hs Ht Ns Nt.
  change (s ++ " " ++ t) with (s ++ String " " t).
  rewrite (js_split_app s t Hs), (js_split_none t Ht).
  destruct s; [congruence |]. destruct t; [congruence |]. reflexivity.
Qed.

Lemma words_one (s : string) :
  string_existsb (fun c => Ascii.eqb c " ") s = false -> s <> "" ->
  filter (fun word => negb (String.eqb word "")) (js_split " " s) = [s].
Proof.
  intros Hs Ns. rewrite (js_split_none s Hs). destruct s; [congruence | reflexivity].
Qed.

Lemma substring_app_l (s t : string) : String.substring 0 (String.length s) (s ++ t) = s.
Proof.
  induction s as [| c s IH]; simpl; [now destruct t | now rewrite IH].
Qed.

Lemma substring_app_r (s t : string) :
  String.substring (String.length s) (String.length t) (s ++ t) = t.
Proof.
  induction s as [| c s IH]; simpl; [| exact IH].
  induction t as [| c t IH]; simpl; [reflexivity | now rewrite IH].
Qed.

Lemma string_length_app (s t : string) :
  String.length (s ++ t) = (String.length s + String.length t)%nat.
Proof. induction s as [| c s IH]; simpl; [reflexivity | now rewrite IH]. Qed.

(** [slice(0, -3)] and [slice(-3)] take a code of three characters off the
    end. *)
Lemma slice_code (s c : string) :
  String.length c = 3%nat ->
  let len := Z.of_nat (String.length (s ++ c)) in
  js_substring (s ++ c) 0 (len - 3) = s /\ js_substring_from (s ++ c) (len - 3) = c.
Proof.
  intros Hc len. unfold js_substring_from, js_substring. fold len.
  assert (L : len = Z.of_nat (String.length s) + 3)
    by (subst len; rewrite string_length_app, Hc; lia).
  rewrite L.
  replace (Z.of_nat (String.length s) + 3 - 3) with (Z.of_nat (String.length s)) by lia.
  set (k := Z.of_nat (String.length s)).
  assert (0 <= k) by (subst k; lia).
  replace (Z.max 0 (Z.min 0 (k + 3))) with 0 by lia.
  replace (Z.max 0 (Z.min k (k + 3))) with k by lia.
  replace (Z.max 0 (Z.min (k + 3) (k + 3))) with (k + 3) by lia.
  replace (Z.min 0 k) with 0 by lia. replace (Z.max 0 k) with k by lia.
  replace (Z.min k (k + 3)) with k by lia. replace (Z.max k (k + 3)) with (k + 3) by lia.
  replace (k - 0) with k by lia. replace (k + 3 - k) with 3 by lia.
  subst k. rewrite Nat2Z.id. change (Z.to_nat 0) with 0%nat.
  change (Z.to_nat 3) with 3%nat. rewrite <- Hc.
  split; [apply substring_app_l | apply substring_app_r].
Qed.

(** No decimal text starts with a letter. *)
Lemma Decimal_of_string_alpha (c : ascii) (r : string) :
  is_alpha_char c = true -> Decimal_of_string (String c r) = DNaN.
Proof.
  destruct c as [[] [] [] [] [] [] [] []]; intros H; try discriminate H;
    unfold Decimal_of_string; simpl;
    try reflexivity;
    destruct (split_at is_e_char r) as [m ex]; simpl;
    destruct (split_at is_dot_char m) as [ip fp]; reflexivity.
Qed.

Lemma finite_literal_alpha (c : ascii) (r : string) :
  is_alpha_char c = true -> finite_literal (String c r) = false.
Proof.
  intros H. pose proof (Decimal_of_string_alpha c r H) as D.
  destruct c as [[] [] [] [] [] [] [] []]; try discriminate H;
    unfold finite_literal; rewrite D; reflexivity.
Qed.

(** A word of letters is not a number. *)
Lemma isNumber_alpha (s : string) :
  string_forallb is_alpha_char s = true -> isNumber s = false.
Proof.
  intros H. unfold isNumber, js_isFinite.
  rewrite trim_nospace by (apply (string_forallb_not_exists _ _ _ alpha_not_space H)).
  destruct s as [| c r]; [reflexivity |].
  simpl in H. apply andb_true_iff in H. destruct H as [Hc _].
  now rewrite (finite_literal_alpha c r Hc).
Qed.

Lemma hex_RE_code (c : string) : String.length c = 3%nat -> hex_RE c = false.
Proof. intros H. unfold hex_RE. now rewrite H. Qed.

(** X14.  [parse_human] reads a number and a currency code of three letters
    alike whether the code follows the number after a space, precedes it, or
    is attached to it (unless the attached form is itself a number, as
    0xAB is): each of the three is read as that value and that currency. *)
Theorem parse_human_spellings
        (strict : bool) (cfj : string -> bool -> Currency) (gia : Currency -> Z -> Decimal)
        (this : Amount) (n c : string) (date : option Z) :
  string_existsb (fun ch => Ascii.eqb ch " ") n = false ->
  isNumber n = true ->
  isNumber (n ++ c) = false ->
  String.length c = 3%nat -> string_forallb is_alpha_char c = true ->
  human_value_currency (n ++ " " ++ c) = Some (n, c)
  /\ parse_human strict cfj gia this (c ++ " " ++ n) date
     = parse_human strict cfj gia this (n ++ " " ++ c) date
  /\ parse_human strict cfj gia this (n ++ c) date
     = parse_human strict cfj gia this (n ++ " " ++ c) date.
Proof.
  intros Hsp Hn Hnc Hl Ha.
  assert (Nn : n <> "").
  { intros ->. discriminate Hn. }
  assert (Nc : c <> "") by (intros ->; discriminate Hl).
  assert (Hcs : string_existsb (fun ch => Ascii.eqb ch " ") c = false)
    by (apply (string_forallb_not_exists _ _ _ alpha_not_blank Ha)).
  assert (Rc : currency_RE c = true) by (unfold currency_RE; now rewrite Hl, Ha).
  pose proof (isNumber_alpha c Ha) as Ic.
  pose proof (hex_RE_code c Hl) as Xc.
  assert (A : human_value_currency (n ++ " " ++ c) = Some (n, c)).
  { unfold human_value_currency. rewrite (words_two n c Hsp Hcs Nn Nc).
    rewrite Hn, Xc, Ic, Rc. cbn [andb]. now rewrite andb_false_r. }
  assert (B : human_value_currency (c ++ " " ++ n) = Some (n, c)).
  { unfold human_value_currency. rewrite (words_two c n Hcs Hsp Nc Nn).
    now rewrite Ic, Rc, Hn. }
  assert (C : human_value_currency (n ++ c) = Some (n, c)).
  { unfold human_value_currency. rewrite words_one.
    - rewrite Hnc. destruct (slice_code n c Hl) as [-> ->]. now rewrite Hn, Rc.
    - now rewrite string_existsb_app, Hsp, Hcs.
    - destruct n; [congruence | discriminate]. }
  split; [exact A |].
  unfold parse_human. now rewrite A, B, C.
Qed.

Lemma parse_human_spellings_witness :
  parse_human true demo_Currency_from_json demo_interest Amount_new "USD 100.40" None
  = parse_human true demo_Currency_from_json demo_interest Amount_new "100.40 USD" None
  /\ parse_human true demo_Currency_from_json demo_interest Amount_new "100.40USD" None
     = parse_human true demo_Currency_from_json demo_interest Amount_new "100.40 USD" None.
Proof.
  exact (proj2 (parse_human_spellings true demo_Currency_from_json demo_interest
                  Amount_new "100.40" "USD" None
                  eq_refl eq_refl eq_refl eq_refl eq_refl)).
Defined.

Lemma digits_no_blank (l : list Digit) :
  string_existsb (fun c => Ascii.eqb c " ") (string_of_digits l) = false.
Proof. apply string_of_digits_exists. now intros []. Qed.

Lemma bind_Ok_r {A : Type} (r : result A) : (x <- r ;; Ok x) = r.
Proof. now destruct r. Qed.

(** X15.  A number of XRP entered by a human is that number of millions of
    drops on the wire: for a decimal text with at most 6 decimal places that
    [isNumber] accepts, [from_human] holds the value that [from_json] holds
    for the digits of the text filled with zeros to 6 decimal places, or
    fails with the same range error. *)
Theorem human_xrp_is_drops
        (strict : bool) (cfj : string -> bool -> Currency) (ufj : string -> UInt160)
        (gia : Currency -> Z -> Decimal) (ip : list Digit) (fp : option (list Digit)) :
  let df := match fp with Some f => f | None => []%list end in
  ip <> []%list -> (List.length df <= 6)%nat ->
  isNumber (decimal_text ip fp None) = true ->
  value_of (from_human strict cfj gia (decimal_text ip fp None) None)
  = value_of (from_json strict cfj ufj
                (JString (string_of_digits (ip ++ df ++ zeros (6 - List.length df))%list))).
Proof.
  intros df Hip Hdf Hnum.
  set (ds := (ip ++ df ++ zeros (6 - List.length df))%list).
  assert (Hds : ds <> []%list) by (subst ds; destruct ip; [congruence | discriminate]).
  (* the human side *)
  assert (Hb : string_existsb (fun c => Ascii.eqb c " ") (decimal_text ip fp None) = false).
  { unfold decimal_text. rewrite !string_existsb_app, digits_no_blank.
    destruct fp as [f |]; [| reflexivity]. simpl. now rewrite digits_no_blank. }
  assert (Hne : decimal_text ip fp None <> "").
  { unfold decimal_text. destruct ip; [congruence | discriminate]. }
  unfold from_human, parse_human, human_value_currency.
  rewrite (words_one _ Hb Hne), Hnum.
  change (toUpperCase "XRP") with "XRP". cbv zeta.
  change ("XRP" =? "XRP") with true.
  cbn [set_native _is_native].
  pose proof (Decimal_of_string_text false ip fp None Hip) as T.
  cbn [append] in T. rewrite T. cbv zeta. fold df.
  rewrite XRPValue_mkDecimal by lia. cbn [bind].
  rewrite bind_Ok_r.
  (* the wire side *)
  unfold from_json, parse_json, parse_json_string.
  pose proof (plain_integer_digits false ds Hds) as P. cbn [append] in P.
  destruct (Decimal_of_string_plain _ _ _ P) as (Hd & Hdot & Hsl & Hne').
  rewrite (match_shorthand_no_slash _ Hsl). unfold parse_native.
  pose proof (js_isNaN_integer false ds Hds) as Hnan. cbn [append] in Hnan.
  rewrite Hnan, Hdot, Hd, (XRPValue_mkDecimal _ _ 0) by lia.
    cbn [bind]. rewrite divide_by_xns_unit.
  replace (negb (string_of_digits ds =? "")) with true
    by (destruct (string_of_digits ds); [congruence | reflexivity]).
  cbn [negb andb]. unfold _set_value.
  rewrite _check_limits_set_fields.
  replace (mkDecimal false ds (-6)) with (mkDecimal false (ip ++ df)%list (- Z.of_nat (List.length df))).
  2:{ subst ds. rewrite app_assoc, mkDecimal_app_zeros. f_equal. lia. }
  apply _check_limits_value; reflexivity.
Qed.

Lemma human_xrp_is_drops_witness :
  isNumber "25.2" = true
  /\ value_of (from_human true demo_Currency_from_json demo_interest "25.2" None)
     = value_of (from_json true demo_Currency_from_json demo_UInt160_from_json
                   (JString "25200000")).
Proof.
  split; [reflexivity |].
  refine (human_xrp_is_drops true demo_Currency_from_json demo_UInt160_from_json
            demo_interest [dg2; dg5] (Some [dg2]) _ _ eq_refl).
  - discriminate.
  - simpl. lia.
Defined.

(** ** Seed: the JSON form reads back *)

Lemma N_of_bytes_snoc (l : list Byte.byte) (b : Byte.byte) :
  Seed.N_of_bytes (l ++ [b]) = (256 * Seed.N_of_bytes l + Byte.to_N b)%N.
Proof. unfold Seed.N_of_bytes. now rewrite fold_left_app. Qed.

Lemma bytes_of_N_length (w : nat) (v : N) : List.length (bytes_of_N w v) = w.
Proof.
  revert v. induction w as [| w IH]; intros v; [reflexivity |].
  simpl. rewrite length_app, IH. simpl. lia.
Qed.

(** The big-endian bytes of a value that fits denote the value. *)
Lemma N_of_bytes_of_N (w : nat) (v : N) :
  (v < 256 ^ N.of_nat w)%N -> Seed.N_of_bytes (bytes_of_N w v) = v.
Proof.
  revert v. induction w as [| w IH]; intros v H.
  - simpl in H. assert (v = 0%N) by lia. now subst v.
  - cbn [bytes_of_N]. rewrite N_of_bytes_snoc.
    rewrite Nat2N.inj_succ, N.pow_succ_r' in H.
    rewrite IH by (apply N.Div0.div_lt_upper_bound; lia).
    assert (M : (v mod 256 < 256)%N) by (apply N.mod_lt; lia).
    destruct (Byte.of_N (v mod 256)) as [b |] eqn:B.
    + rewrite (Byte.to_of_N _ B). rewrite (N.div_mod v 256) at 3 by lia. lia.
    + apply Byte.of_N_None_iff in B. lia.
Qed.

(** X16.  The JSON form of a seed reads back: when the address codec decodes
    what it encoded, and the encoding starts with the version character "s",
    [Seed.from_json] of [to_json] of a valid seed below 2^128 is the seed,
    key type included. *)
Theorem Seed_json_round_trip
        (decodeSeed : string -> option (list Byte.byte * Seed.KeyType))
        (sha512 : list Byte.byte -> list Byte.byte)
        (encodeSeed : list Byte.byte -> Seed.KeyType -> string)
        (v : N) (t : Seed.KeyType) :
  (v < 2 ^ 128)%N ->
  let s := encodeSeed (bytes_of_N 16 v) t in
  Seed.starts_with_s s = true ->
  decodeSeed s = Some (bytes_of_N 16 v, t) ->
  Seed_to_json encodeSeed (Seed.mkSeed (Some v) t) = Some s
  /\ Seed.from_json decodeSeed sha512 (Some s) = Seed.mkSeed (Some v) t.
Proof.
  intros Hv s Hs Hd. split; [reflexivity |].
  unfold Seed.from_json, Seed.parse_json.
  assert (Hl : (String.length s =? 0)%nat = false)
    by (destruct s; [discriminate Hs | reflexivity]).
  rewrite Hl. unfold Seed.parse_base58. rewrite Hl, Hs, Hd. cbn [negb orb].
  rewrite N_of_bytes_of_N by (change (256 ^ N.of_nat 16)%N with (2 ^ 128)%N; exact Hv).
  reflexivity.
Qed.

Lemma Seed_json_round_trip_witness :
  Seed.from_json demo_decodeSeed demo_sha512 (Some "sEd7")
  = Seed.mkSeed (Some 1334440654591915542993625911497130241%N) Seed.ed25519.
Proof.
  refine (proj2 (Seed_json_round_trip demo_decodeSeed demo_sha512 (fun _ _ => "sEd7")
                   1334440654591915542993625911497130241%N Seed.ed25519 _ eq_refl eq_refl)).
  reflexivity.
Defined.

(** ** What every result satisfies *)

(** A property of the empty Amount and of whatever [_set_value] returns,
    which does not depend on the currency and the issuer, holds of what the
    constructors and the arithmetic operations return. *)
Lemma results_from_set_value
      (P : Amount -> Prop)
      (strict : bool) (cfj : string -> bool -> Currency) (ufj : string -> UInt160)
      (gia : Currency -> Z -> Decimal) :
  P Amount_new ->
  (forall this v r, _set_value strict this (JValue v) = Ok r -> P r) ->
  (forall x c i, P x -> P (set_issuer_field (set_currency_field x c) i)) ->
  forall (a : Amount) (j : JsVal) (date : option Z)
         (q : string) (cc : Currency) (ci : UInt160) (opts : QualityOpts)
         (h : string) (r : Amount),
    ((forall b, j <> JAmount b) -> from_json strict cfj ufj j = Ok r -> P r)
    /\ (add strict cfj ufj a j = Ok r -> P r)
    /\ (subtract strict cfj ufj a j = Ok r -> P r)
    /\ (multiply strict cfj ufj a j = Ok r -> P r)
    /\ (divide strict cfj ufj a j = Ok r -> P r)
    /\ (abs strict a = Ok r -> P r)
    /\ (invert strict a = Ok r -> P r)
    /\ (product_human strict cfj ufj gia a j date = Ok r -> P r)
    /\ (parse_quality strict gia a q cc ci opts = Ok r -> P r)
    /\ (parse_human strict cfj gia a h date = Ok r -> P r).
Proof.
  intros Pn Ps Pf a j date q cc ci opts h r.
  assert (S : forall this x t, _set_value strict this x = Ok t -> P t).
  { intros this x t. destruct x; try discriminate. apply Ps. }
  assert (C : forall this v t, _copy strict this v = Ok t -> P t).
  { intros this v t. apply Ps. }
  assert (A : forall x t, add strict cfj ufj a x = Ok t -> P t).
  { intros x t H. unfold add in H. apply bind_ok in H. destruct H as (b & _ & H).
    destruct (negb (is_comparable a b)); [injection H as <-; exact Pn | now apply C in H]. }
  assert (M : forall x t, multiply strict cfj ufj a x = Ok t -> P t).
  { intros x t H. unfold multiply in H. apply bind_ok in H. destruct H as (b & _ & H).
    now apply C in H. }
  assert (D : forall u x t, divide strict cfj ufj u x = Ok t -> P t).
  { intros u x t H. unfold divide in H. apply bind_ok in H. destruct H as (b & _ & H).
    now apply C in H. }
  split.
  { intros Hj H. unfold from_json, parse_json in H.
    assert (T : forall s, parse_json_string strict cfj ufj Amount_new s = Ok r -> P r).
    { intros s Hs. unfold parse_json_string in Hs.
      destruct (match_shorthand s) as [[[v c] i] |].
      - unfold parse_value in Hs. now apply S in Hs.
      - apply bind_ok in Hs. destruct Hs as (t & Ht & Hs). injection Hs as <-.
        apply Pf. unfold parse_native in Ht.
        destruct (negb (s =? "") && negb (js_isNaN s)); [| now apply S in Ht].
        destruct (string_existsb is_dot_char s); [discriminate Ht |].
        apply bind_ok in Ht. destruct Ht as (value & _ & Ht). now apply S in Ht. }
    destruct j as [| | b | d | s | b | v | o].
    - now apply S in H.
    - injection H as <-. exact Pn.
    - now apply S in H.
    - now apply T in H.
    - now apply T in H.
    - now elim (Hj b).
    - injection H as <-. exact Pn.
    - unfold parse_value in H. now apply S in H. }
  split; [apply A |].
  split.
  { intros H. unfold subtract in H. apply bind_ok in H. destruct H as (b & _ & H).
    now apply A in H. }
  split; [apply M |].
  split; [apply D |].
  split; [apply C |].
  split; [apply S |].
  split.
  { intros H. unfold product_human in H.
    apply bind_ok in H. destruct H as (fac & _ & H).
    destruct (negb (is_valid a) || negb (is_valid fac)); [injection H as <-; exact Pn |].
    apply bind_ok in H. destruct H as (fac' & _ & H).
    apply bind_ok in H. destruct H as (product & Hp & H).
    destruct (_is_native fac').
    - apply bind_ok in H. destruct H as (quotient & _ & H). now apply S in H.
    - injection H as <-. now apply M in Hp. }
  split.
  - intros H. unfold parse_quality in H. cbv zeta in H.
    destruct (_ && _); [discriminate H |].
    apply bind_ok in H. destruct H as (t & Ht & H).
    assert (Pt : P t).
    { destruct (_is_native _); [| now apply S in Ht].
      apply bind_ok in Ht. destruct Ht as (rounded & _ & Ht). now apply S in Ht. }
    destruct (reference_date opts); [| injection H as <-; exact Pt].
    destruct (Cur.is_valid (base_currency opts) && Cur.has_interest (base_currency opts));
      [now apply S in H | injection H as <-; exact Pt].
  - intros H. unfold parse_human in H.
    destruct (human_value_currency h) as [[value currency] |];
      [| injection H as <-; exact Pn].
    cbv zeta in H. apply bind_ok in H. destruct H as (newValue & _ & H).
    apply bind_ok in H. destruct H as (t & Ht & H).
    apply S in Ht.
    destruct date; [| injection H as <-; exact Ht].
    destruct (Cur.has_interest (_currency t)); [now apply S in H | injection H as <-; exact Ht].
Qed.

(** X17.  In strict mode whatever a constructor ([from_json],
    [parse_quality], [parse_human]) or an arithmetic operation returns is
    within the limits: a valid Amount that is not zero has an
    absolute value of at most 10^11 when native, and between 10^-81 and
    9999999999999999 * 10^80 when issued. *)
Theorem strict_results_within_limits
        (cfj : string -> bool -> Currency) (ufj : string -> UInt160)
        (gia : Currency -> Z -> Decimal)
        (a : Amount) (j : JsVal) (date : option Z)
        (q : string) (cc : Currency) (ci : UInt160) (opts : QualityOpts)
        (h : string) (r : Amount) :
  ((forall b, j <> JAmount b) -> from_json true cfj ufj j = Ok r -> within_limits r)
  /\ (add true cfj ufj a j = Ok r -> within_limits r)
  /\ (subtract true cfj ufj a j = Ok r -> within_limits r)
  /\ (multiply true cfj ufj a j = Ok r -> within_limits r)
  /\ (divide true cfj ufj a j = Ok r -> within_limits r)
  /\ (abs true a = Ok r -> within_limits r)
  /\ (invert true a = Ok r -> within_limits r)
  /\ (product_human true cfj ufj gia a j date = Ok r -> within_limits r)
  /\ (parse_quality true gia a q cc ci opts = Ok r -> within_limits r)
  /\ (parse_human true cfj gia a h date = Ok r -> within_limits r).
Proof.
  apply results_from_set_value.
  - intros H. discriminate H.
  - intros this v t H. apply _check_limits_within.
    pose proof (_set_value_ok _ _ _ _ H) as E.
    unfold _set_value in H. fold (stored_value v) in H. now rewrite <- E in H.
  - intros x c i H. exact H.
Qed.

Lemma strict_results_within_limits_witness :
  multiply true demo_Currency_from_json demo_UInt160_from_json
    (usd (DFin false [dg1; dg5] (-1))) (JString "2/EUR/1")
  = Ok (usd (DFin false [dg3] 0))
  /\ within_limits (usd (DFin false [dg3] 0)).
Proof.
  assert (H : multiply true demo_Currency_from_json demo_UInt160_from_json
                (usd (DFin false [dg1; dg5] (-1))) (JString "2/EUR/1")
              = Ok (usd (DFin false [dg3] 0))) by reflexivity.
  split; [exact H |].
  exact (proj1 (proj2 (proj2 (proj2
    (strict_results_within_limits demo_Currency_from_json demo_UInt160_from_json
       demo_interest (usd (DFin false [dg1; dg5] (-1))) (JString "2/EUR/1") None
       "" CurNative None (mkQualityOpts false CurNative None false) ""
       (usd (DFin false [dg3] 0)))))) H).
Defined.

(** X18.  Whatever a constructor or an arithmetic operation stores is not a
    negative zero: a zero Amount returned by [from_json] (of anything but an
    Amount), [add], [subtract], [multiply], [divide], [abs], [invert],
    [product_human], [parse_quality] or [parse_human] is not negative. *)
Theorem zero_results_not_negative
        (strict : bool) (cfj : string -> bool -> Currency) (ufj : string -> UInt160)
        (gia : Currency -> Z -> Decimal)
        (a : Amount) (j : JsVal) (date : option Z)
        (q : string) (cc : Currency) (ci : UInt160) (opts : QualityOpts)
        (h : string) (r : Amount) :
  let P := fun t => is_zero t = true -> is_negative t = false in
  ((forall b, j <> JAmount b) -> from_json strict cfj ufj j = Ok r -> P r)
  /\ (add strict cfj ufj a j = Ok r -> P r)
  /\ (subtract strict cfj ufj a j = Ok r -> P r)
  /\ (multiply strict cfj ufj a j = Ok r -> P r)
  /\ (divide strict cfj ufj a j = Ok r -> P r)
  /\ (abs strict a = Ok r -> P r)
  /\ (invert strict a = Ok r -> P r)
  /\ (product_human strict cfj ufj gia a j date = Ok r -> P r)
  /\ (parse_quality strict gia a q cc ci opts = Ok r -> P r)
  /\ (parse_human strict cfj gia a h date = Ok r -> P r).
Proof.
  intros P.
  apply (results_from_set_value P strict cfj ufj gia).
  - intros H. discriminate H.
  - intros this v t H. exact (_set_value_zero_not_negative strict this t v H).
  - intros x c i H. exact H.
Qed.

Lemma zero_results_not_negative_witness :
  subtract true demo_Currency_from_json demo_UInt160_from_json
    (usd (DFin true [dg2] 0)) (JString "-2/USD/1")
  = Ok (usd (DFin false [] 0))
  /\ is_negative (usd (DFin false [] 0)) = false.
Proof.
  assert (H : subtract true demo_Currency_from_json demo_UInt160_from_json
                (usd (DFin true [dg2] 0)) (JString "-2/USD/1")
              = Ok (usd (DFin false [] 0))) by reflexivity.
  split; [exact H |].
  exact (proj1 (proj2 (proj2
    (zero_results_not_negative true demo_Currency_from_json demo_UInt160_from_json
       demo_interest (usd (DFin true [dg2] 0)) (JString "-2/USD/1") None
       "" CurNative None (mkQualityOpts false CurNative None false) ""
       (usd (DFin false [] 0))))) H eq_refl).
Defined.

(** * The error classes *)

(** X19.  Every error the module makes is a RippleError and an Error for
    [instanceof], whatever its class and message; its [name] is the one
    assigned to the prototype of its class, except that a
    RippledNetworkError, whose prototype is given no name, reads
    "NetworkError" from the prototype above; and its [message] is its own,
    the one its constructor stored.  The prototype chains are at most 4
    long. *)
Theorem error_classes (c : Errors.Class) (m : Errors.Message) (fuel : nat) :
  c <> Errors.BuiltinError -> (4 <= fuel)%nat ->
  Errors.instance_of fuel (Errors.Instance c m) Errors.RippleError = true
  /\ Errors.instance_of fuel (Errors.Instance c m) Errors.BuiltinError = true
  /\ Errors.get Errors.own_name fuel (Errors.Instance c m)
     = Errors.assigned_name
         (match c with Errors.RippledNetworkError => Errors.NetworkError | _ => c end)
  /\ Errors.get Errors.own_message fuel (Errors.Instance c m)
     = Some (Errors.constructed_message c m).
Proof.
  intros Hc Hf.
  do 4 (destruct fuel as [| fuel]; [lia |]).
  destruct c; try congruence; repeat split.
Qed.

Lemma error_classes_witness :
  Errors.get Errors.own_name 4 (Errors.Instance Errors.RippledNetworkError Errors.undefined)
  = Some "NetworkError"
  /\ Errors.get Errors.own_message 4
       (Errors.Instance Errors.RippledNetworkError Errors.undefined)
     = Some (Errors.text "Cannot connect to rippled").
Proof.
  refine (proj2 (proj2 (error_classes Errors.RippledNetworkError Errors.undefined 4 _ _))).
  - discriminate.
  - lia.
Defined.
